(** * Survey data processor: column resolution and aggregation

    A shallow embedding of the data-processing module of the pizza survey
    infographic (the module exporting [processData]), together with the
    properties its specification states about it.

    Conventions of the embedding.
    - A JavaScript string is the list of its UTF-16 code units.
    - A JavaScript number is an IEEE-754 double.  Finite doubles are carried
      as the rationals they denote; every arithmetic operation rounds its
      exact result to 53 significant bits, ties to even ([round53]).  The
      exponent range is not bounded: the program clamps every parsed value
      to [1,10] before computing with it, far from overflow and underflow,
      and zero carries no sign.
    - Counters ([count], [total], [length]) are natural numbers; they are
      exact doubles below 2^53, and a JavaScript array holds fewer than
      2^32 elements.
    - An object used as a dictionary is the association list of its own
      properties in the order of their creation.  A lookup that finds no own
      property finds the members of [Object.prototype] ([inherited]), and
      [Object.entries] and [Object.values] list the keys that are array
      indices first, in ascending order ([entries]).  In the popularity
      dictionary the code stores a string, not a number, under the name of
      an inherited function; the properties of the popularity are stated for
      the inputs without such a name ([numericKeys]).  A row is the
      association list of its columns in the order [Object.keys] gives them.
      The rating histogram, keyed by the integers 1..10, is a finite map.
    - A call throws an [Error] or a [RangeError] or returns ([outcome]).
    - Case conversion, date parsing, date formatting, the number of
      arguments a call can take and the source text of the built-in
      functions belong to the host environment ([Host]); [Math.random] is an
      oracle giving the value of its k-th call.

    After the processor come the share link of the main module
    ([minifyDataForSharing], [expandMinifiedData]) and what the chart
    modules compute before they draw: the podium of the tiers, the legend
    and the bars of the popularity chart, the stacks of boxes, and the state
    of the comments carousel with its interval timer.  The DOM, the
    animations and the external libraries are not modelled. *)

From Stdlib Require Import String Ascii.
From Stdlib Require Import ZArith QArith Qround Qpower Qreduction Qcanon Lia Lqa List.
From Stdlib Require SpecFloat.
From stdpp Require Import gmap.
Import ListNotations.
Open Scope Z_scope.

(** ** Strings *)

Abbreviation jsstring := (list Z).

(** An ASCII literal as a JavaScript string. *)
Definition lit (s : string) : jsstring :=
  map (fun a => Z.of_N (N_of_ascii a)) (list_ascii_of_string s).

(** [s === t] on strings. *)
Fixpoint streq (s t : jsstring) : bool :=
  match s, t with
  | [], [] => true
  | c :: s', d :: t' => (c =? d) && streq s' t'
  | _, _ => false
  end.

(** The empty string is the only falsy string. *)
Definition truthy (s : jsstring) : bool :=
  match s with
  | [] => false
  | _ :: _ => true
  end.

Fixpoint startsWith (s p : jsstring) {struct p} : bool :=
  match p, s with
  | [], _ => true
  | _ :: _, [] => false
  | c :: p', d :: s' => (c =? d) && startsWith s' p'
  end.

(** [s.includes(sub)] *)
Fixpoint includes (s sub : jsstring) : bool :=
  startsWith s sub ||
  match s with
  | [] => false
  | _ :: s' => includes s' sub
  end.

(** [sub] occurs in [s] as a contiguous substring. *)
Definition substring (sub s : jsstring) : Prop :=
  exists pre post, s = pre ++ sub ++ post.

(** White space and line terminators: what [trim], [\s] and the prefix
    skipped by [parseFloat] recognise. *)
Definition isWhiteSpace (c : Z) : bool :=
  ((9 <=? c) && (c <=? 13)) || (c =? 32) || (c =? 160) || (c =? 5760) ||
  ((8192 <=? c) && (c <=? 8202)) || (c =? 8232) || (c =? 8233) ||
  (c =? 8239) || (c =? 8287) || (c =? 12288) || (c =? 65279).

Fixpoint dropWhile (p : Z -> bool) (s : jsstring) : jsstring :=
  match s with
  | [] => []
  | c :: s' => if p c then dropWhile p s' else s
  end.

Fixpoint takeWhile (p : Z -> bool) (s : jsstring) : jsstring :=
  match s with
  | [] => []
  | c :: s' => if p c then c :: takeWhile p s' else []
  end.

Definition trimStart (s : jsstring) : jsstring := dropWhile isWhiteSpace s.

(** [s.trim()] *)
Definition trim (s : jsstring) : jsstring :=
  rev (dropWhile isWhiteSpace (rev (trimStart s))).

(** [s.split(/[...]/)] for a class of single separator characters. *)
Fixpoint splitOn (sep : Z -> bool) (s : jsstring) : list jsstring :=
  match s with
  | [] => [[]]
  | c :: s' =>
      if sep c then [] :: splitOn sep s'
      else match splitOn sep s' with
           | piece :: rest => (c :: piece) :: rest
           | [] => [[c]]
           end
  end.

(** [s.split(/[...]+/)]: a maximal run of separators is one cut.  [inRun]
    tells that the previous character was a separator. *)
Fixpoint splitRunsFrom (sep : Z -> bool) (inRun : bool) (s : jsstring) : list jsstring :=
  match s with
  | [] => [[]]
  | c :: s' =>
      if sep c then
        if inRun then splitRunsFrom sep true s' else [] :: splitRunsFrom sep true s'
      else match splitRunsFrom sep false s' with
           | piece :: rest => (c :: piece) :: rest
           | [] => [[c]]
           end
  end.

Definition splitRuns (sep : Z -> bool) (s : jsstring) : list jsstring :=
  splitRunsFrom sep false s.

(** [s.charAt(0)] and [s.slice(1)] *)
Definition charAt0 (s : jsstring) : jsstring :=
  match s with
  | [] => []
  | c :: _ => [c]
  end.

Definition slice1 (s : jsstring) : jsstring :=
  match s with
  | [] => []
  | _ :: s' => s'
  end.

(** *** The emoji pattern

    [/[\u{1F300}-\u{1F9FF}]|[\u{2600}-\u{26FF}]|[\u{2700}-\u{27BF}]/gu]:
    with the [u] flag the string is read code point by code point, a
    surrogate pair counting as one. *)

Definition isHighSurrogate (c : Z) : bool := (55296 <=? c) && (c <=? 56319).
Definition isLowSurrogate (c : Z) : bool := (56320 <=? c) && (c <=? 57343).

Definition codePoint (hi lo : Z) : Z := 65536 + (hi - 55296) * 1024 + (lo - 56320).

Definition isEmoji (cp : Z) : bool :=
  ((127744 <=? cp) && (cp <=? 129535)) ||
  ((9728 <=? cp) && (cp <=? 9983)) ||
  ((9984 <=? cp) && (cp <=? 10175)).

(** The code points of [s], each with the units that spell it and whether the
    pattern matches it. *)
Fixpoint emojiScan (s : jsstring) : list (bool * jsstring) :=
  match s with
  | [] => []
  | hi :: rest =>
      match rest with
      | lo :: rest' =>
          if isHighSurrogate hi && isLowSurrogate lo
          then (isEmoji (codePoint hi lo), [hi; lo]) :: emojiScan rest'
          else (isEmoji hi, [hi]) :: emojiScan rest
      | [] => [(isEmoji hi, [hi])]
      end
  end.

(** [s.match(emojiRegex)]: all matches, [None] for [null]. *)
Definition matchEmoji (s : jsstring) : option (list jsstring) :=
  match map snd (List.filter fst (emojiScan s)) with
  | [] => None
  | ms => Some ms
  end.

(** [s.replace(emojiRegex, '')] *)
Definition removeEmoji (s : jsstring) : jsstring :=
  concat (map snd (List.filter (fun t => negb (fst t)) (emojiScan s))).

(** ASCII case conversion, which agrees with the host's on ASCII text. *)
Definition asciiLower (s : jsstring) : jsstring :=
  map (fun c => if (65 <=? c) && (c <=? 90) then c + 32 else c) s.

Definition asciiUpper (s : jsstring) : jsstring :=
  map (fun c => if (97 <=? c) && (c <=? 122) then c - 32 else c) s.

(** ** Numbers *)

(** [floor (log2 x)] for a positive rational. *)
Definition ilog2 (x : Q) : Z :=
  let k := Z.log2 (Qnum x) - Z.log2 (Zpos (Qden x)) in
  if Qle_bool (2 ^ k) x then k else k - 1.

(** The nearest integer, ties to even. *)
Definition rne (x : Q) : Z :=
  let f := Qfloor x in
  match (x - inject_Z f ?= 1 # 2)%Q with
  | Lt => f
  | Gt => f + 1
  | Eq => if Z.even f then f else f + 1
  end.

(** The exponent of the unit in the last place of a 53-bit significand. *)
Definition exponent (x : Q) : Z := ilog2 x - 52.

(** The double nearest to [x]. *)
Definition round53 (x : Q) : Q :=
  match (x ?= 0)%Q with
  | Eq => 0%Q
  | Gt => let e := exponent x in Qred (inject_Z (rne (x / 2 ^ e)) * 2 ^ e)%Q
  | Lt => let e := exponent (- x) in Qred (- (inject_Z (rne (- x / 2 ^ e)) * 2 ^ e))%Q
  end.

(** [a + b], [a * b] and [a / b] on finite doubles ([b] non-zero in the
    quotient). *)
Definition fadd (a b : Q) : Q := round53 (a + b).
Definition fmul (a b : Q) : Q := round53 (a * b).
Definition fdiv (a b : Q) : Q := round53 (a / b).

(** [Math.round] on a finite double: the nearest integer, a tie going up. *)
Definition roundZ (x : Q) : Z := Qfloor (x + (1 # 2)).

Definition ofNat (n : nat) : Q := inject_Z (Z.of_nat n).

(** A JavaScript number. *)
Inductive number :=
  | NaN
  | Infinity (negative : bool)
  | Finite (q : Q).

Definition isNegative (q : Q) : bool := negb (Qle_bool 0 q).

(** [x / y] *)
Definition ndiv (x y : number) : number :=
  match x, y with
  | NaN, _ | _, NaN => NaN
  | Infinity _, Infinity _ => NaN
  | Infinity s, Finite b => Infinity (xorb s (isNegative b))
  | Finite _, Infinity _ => Finite 0
  | Finite a, Finite b =>
      if Qeq_bool b 0
      then if Qeq_bool a 0 then NaN else Infinity (isNegative a)
      else Finite (fdiv a b)
  end.

(** [x * y] *)
Definition nmul (x y : number) : number :=
  match x, y with
  | NaN, _ | _, NaN => NaN
  | Infinity s, Infinity t => Infinity (xorb s t)
  | Infinity s, Finite b | Finite b, Infinity s =>
      if Qeq_bool b 0 then NaN else Infinity (xorb s (isNegative b))
  | Finite a, Finite b => Finite (fmul a b)
  end.

(** [Math.round(x)] *)
Definition Math_round (x : number) : number :=
  match x with
  | Finite q => Finite (inject_Z (roundZ q))
  | _ => x
  end.

(** *** The Standard Library's binary64, to compare with

    [SpecFloat] specifies the IEEE-754 operations on (sign, mantissa,
    exponent) triples.  [binary64] is the double of an integer and
    [binary64Value] the rational a double denotes. *)

Definition binary64 (n : Z) : SpecFloat.spec_float :=
  SpecFloat.binary_normalize 53 1024 n 0 false.

Definition binary64Value (x : SpecFloat.spec_float) : option Q :=
  match x with
  | SpecFloat.S754_zero _ => Some 0%Q
  | SpecFloat.S754_finite s m e =>
      Some (Qred ((if s then - inject_Z (Zpos m) else inject_Z (Zpos m)) * 2 ^ e))
  | _ => None
  end.

(** [c / t], [(c / t) * 100] and [c / t + c] computed both ways. *)
Definition agreesOn (c t : Z) : bool :=
  let q := SpecFloat.SFdiv 53 1024 (binary64 c) (binary64 t) in
  let q' := fdiv (inject_Z c) (inject_Z t) in
  match binary64Value q,
        binary64Value (SpecFloat.SFmul 53 1024 q (binary64 100)),
        binary64Value (SpecFloat.SFadd 53 1024 q (binary64 c)) with
  | Some d, Some p, Some a =>
      Qeq_bool d q' && Qeq_bool p (fmul q' 100) && Qeq_bool a (fadd q' (inject_Z c))
  | _, _, _ => false
  end.

(** The pairs 1 <= c <= t <= n. *)
Definition partsUpTo (n : nat) : list (Z * Z) :=
  flat_map (fun t => map (fun c => (Z.of_nat c, Z.of_nat t)) (seq 1 t)) (seq 1 n).

(** *** parseFloat *)

Definition isDigit (c : Z) : bool := (48 <=? c) && (c <=? 57).

Definition digitsValue (ds : jsstring) : Z :=
  fold_left (fun acc c => acc * 10 + (c - 48)) ds 0.

(** The value of the decimal numeral [m * 10^k]. *)
Definition decimal (m k : Z) : Q :=
  if 0 <=? k then inject_Z (m * 10 ^ k) else (inject_Z m / inject_Z (10 ^ (- k)))%Q.

(** The exponent part [e], [e+] or [e-] followed by digits; 0 when the
    text does not continue with a complete exponent part. *)
Definition exponentPart (s : jsstring) : Z :=
  match s with
  | c :: r =>
      if (c =? 101) || (c =? 69) then
        match r with
        | 43 :: r' =>
            match takeWhile isDigit r' with [] => 0 | ds => digitsValue ds end
        | 45 :: r' =>
            match takeWhile isDigit r' with [] => 0 | ds => - digitsValue ds end
        | _ =>
            match takeWhile isDigit r with [] => 0 | ds => digitsValue ds end
        end
      else 0
  | [] => 0
  end.

(** The unsigned part: [Infinity], or digits with an optional fraction and
    exponent, the longest prefix that is a decimal literal. *)
Definition parseUnsigned (negative : bool) (s : jsstring) : number :=
  if startsWith s (lit "Infinity") then Infinity negative
  else
    let ip := takeWhile isDigit s in
    let r1 := dropWhile isDigit s in
    let fp := match r1 with 46 :: r => takeWhile isDigit r | _ => [] end in
    let r2 := match r1 with 46 :: r => dropWhile isDigit r | _ => r1 end in
    match ip ++ fp with
    | [] => NaN
    | ds =>
        let q := round53 (decimal (digitsValue ds) (exponentPart r2 - Z.of_nat (length fp))) in
        Finite (if negative then Qred (- q) else q)
    end.

Definition parseFloat (s : jsstring) : number :=
  match trimStart s with
  | 43 :: r => parseUnsigned false r
  | 45 :: r => parseUnsigned true r
  | r => parseUnsigned false r
  end.

(** ** Generic helpers for arrays and dictionaries *)

(** [obj[key]] on an insertion-ordered dictionary. *)
Fixpoint assoc {V : Type} (key : jsstring) (obj : list (jsstring * V)) : option V :=
  match obj with
  | [] => None
  | (k, v) :: rest => if streq k key then Some v else assoc key rest
  end.

(** [obj[key] = f(obj[key])] for a key already present. *)
Fixpoint alterAssoc {V : Type} (f : V -> V) (key : jsstring) (obj : list (jsstring * V))
  : list (jsstring * V) :=
  match obj with
  | [] => []
  | (k, v) :: rest =>
      if streq k key then (k, f v) :: rest else (k, v) :: alterAssoc f key rest
  end.

(** [arr.sort((a, b) => key(b) - key(a))]: descending, and stable. *)
Fixpoint insertDesc {A : Type} (key : A -> nat) (x : A) (l : list A) : list A :=
  match l with
  | [] => [x]
  | y :: l' => if (key x <? key y)%nat then y :: insertDesc key x l' else x :: l
  end.

Definition sortDesc {A : Type} (key : A -> nat) (l : list A) : list A :=
  fold_right (insertDesc key) [] l.

(** [[...new Set(arr)]]: first occurrences, in order. *)
Definition unique (arr : list jsstring) : list jsstring :=
  fold_left (fun seen c => if existsb (streq c) seen then seen else seen ++ [c]) arr [].

(** [[arr[i], arr[j]] = [arr[j], arr[i]]] for indices within the array. *)
Definition swap {A : Type} (i j : nat) (arr : list A) : list A :=
  match arr !! i, arr !! j with
  | Some ai, Some aj => <[j := ai]> (<[i := aj]> arr)
  | _, _ => arr
  end.

(** The loop of [shuffleArray]: [i] counts down to 1 and the [k]-th call of
    [Math.random] returns [random k], a double in [0,1). *)
Fixpoint shuffleLoop {A : Type} (random : nat -> Q) (k i : nat) (arr : list A) : list A :=
  match i with
  | O => arr
  | S i' =>
      let j := Z.to_nat (Qfloor (fmul (random k) (ofNat (i + 1)))) in
      shuffleLoop random (S k) i' (swap i j arr)
  end.

Definition shuffleArray {A : Type} (random : nat -> Q) (array : list A) : list A :=
  shuffleLoop random 0 (length array - 1) array.

(** ** Data model *)

(** The logical fields, the keys of [COLUMN_MAPPINGS]. *)
Module Field.
Inductive t :=
  | rating | pizzaType | feeling | orderAgain | tier
  | oneWord | coldPizza | comments | timestamp.
End Field.

(** A raw row: its entries in the order [Object.keys] enumerates them. *)
Abbreviation Row := (list (jsstring * jsstring)).

Module Summary.
Record t := mk { totalResponses : nat; dateRange : jsstring }.
End Summary.

Module Rating.
Record t := mk { average : Q; count : nat; distribution : gmap Z nat }.
End Rating.

Module Popularity.
Record item := mkItem { name : jsstring; count : nat }.
Record t := mk { items : list item; total : nat }.
End Popularity.

Module Feelings.
(** An entry of the working dictionary. *)
Record entry := mkEntry {
  original : jsstring; entryEmoji : jsstring; entryColor : jsstring; entryCount : nat }.
Record item := mkItem {
  feeling : jsstring; count : nat; percentage : number;
  emoji : jsstring; color : jsstring }.
Record t := mk { items : list item; total : nat }.
End Feelings.

Module OrderAgain.
Record bucket := mkBucket { count : nat; percentage : number }.
Record t := mk { yes : bucket; meh : bucket; total : nat }.
End OrderAgain.

Module Tiers.
Record item := mkItem {
  name : jsstring; count : nat; percentage : number;
  icon : jsstring; color : jsstring }.
Record t := mk { items : list item; total : nat }.
End Tiers.

Module WordCloud.
Record item := mkItem { text : jsstring; count : nat }.
End WordCloud.

Module ColdPizza.
Record item := mkItem {
  label : jsstring; count : nat; percentage : number; color : jsstring }.
Record t := mk { items : list item; total : nat }.
End ColdPizza.

(** The object [processData] returns. *)
Record Result := mkResult {
  summary : Summary.t;
  rating : Rating.t;
  pizzaPopularity : Popularity.t;
  feelings : Feelings.t;
  orderAgain : OrderAgain.t;
  tiers : Tiers.t;
  wordCloud : list WordCloud.item;
  coldPizza : ColdPizza.t;
  comments : list jsstring }.

(** What a call throws: an [Error] or a [RangeError], with its message. *)
Inductive exception :=
  | Error (message : jsstring)
  | RangeError (message : jsstring).

(** A call either returns or throws. *)
Inductive outcome (A : Type) :=
  | Return (value : A)
  | Throw (thrown : exception).
Arguments Return {A} value.
Arguments Throw {A} thrown.

(** What the engine and its locale provide. *)
Record Host := mkHost {
  toLowerCase : jsstring -> jsstring;
  toUpperCase : jsstring -> jsstring;
  (** [new Date(t)]: the time value in milliseconds, [None] for an invalid date *)
  dateParse : jsstring -> option Z;
  (** [toLocaleDateString('en-US', {month: 'short', day: 'numeric', year: 'numeric'})] *)
  toLocaleDateString : Z -> jsstring;
  (** how many arguments a call can take: [f(...array)] with a longer array
      throws a [RangeError] *)
  maxArguments : Z;
  (** the message of that [RangeError] *)
  tooManyArguments : jsstring;
  (** the source text [String(f)] of the built-in function of a given name *)
  nativeSource : jsstring -> jsstring }.

(** A host for ASCII data whose dates do not parse. *)
Definition asciiHost : Host :=
  {| toLowerCase := asciiLower; toUpperCase := asciiUpper;
     dateParse := fun _ => None; toLocaleDateString := fun _ => [];
     maxArguments := 65536;
     tooManyArguments := lit "Maximum call stack size exceeded";
     nativeSource := fun name => lit "function " ++ name ++ lit "() { [native code] }" |}.

(** *** Dates of the form YYYY-MM-DD, read and shown in UTC *)

(** The days from 1 January 1970 to a day of the Gregorian calendar. *)
Definition daysFromCivil (year month day : Z) : Z :=
  let y := if month <=? 2 then year - 1 else year in
  let era := y / 400 in
  let yearOfEra := y - era * 400 in
  let dayOfYear := (153 * ((month + 9) mod 12) + 2) / 5 + day - 1 in
  let dayOfEra := yearOfEra * 365 + yearOfEra / 4 - yearOfEra / 100 + dayOfYear in
  era * 146097 + dayOfEra - 719468.

(** The year, month and day that many days after 1 January 1970. *)
Definition civilFromDays (days : Z) : Z * Z * Z :=
  let z := days + 719468 in
  let era := z / 146097 in
  let dayOfEra := z - era * 146097 in
  let yearOfEra :=
    (dayOfEra - dayOfEra / 1460 + dayOfEra / 36524 - dayOfEra / 146096) / 365 in
  let dayOfYear := dayOfEra - (365 * yearOfEra + yearOfEra / 4 - yearOfEra / 100) in
  let mp := (5 * dayOfYear + 2) / 153 in
  let day := dayOfYear - (153 * mp + 2) / 5 + 1 in
  let month := if mp <? 10 then mp + 3 else mp - 9 in
  let year := yearOfEra + era * 400 in
  (if month <=? 2 then year + 1 else year, month, day).

Definition daysInMonth (year month : Z) : Z :=
  if month =? 2
  then if ((year mod 4 =? 0) && negb (year mod 100 =? 0)) || (year mod 400 =? 0)
       then 29 else 28
  else if (month =? 4) || (month =? 6) || (month =? 9) || (month =? 11) then 30 else 31.

(** [new Date("YYYY-MM-DD")]: midnight of that day in UTC, in milliseconds. *)
Definition isoDateParse (s : jsstring) : option Z :=
  match s with
  | [y1; y2; y3; y4; 45; m1; m2; 45; d1; d2] =>
      if forallb isDigit [y1; y2; y3; y4; m1; m2; d1; d2] then
        let year := digitsValue [y1; y2; y3; y4] in
        let month := digitsValue [m1; m2] in
        let day := digitsValue [d1; d2] in
        if (1 <=? month) && (month <=? 12) && (1 <=? day) && (day <=? daysInMonth year month)
        then Some (daysFromCivil year month day * 86400000)
        else None
      else None
  | _ => None
  end.

(** The decimal numeral of a natural number below 10^[fuel]. *)
Fixpoint numeral (fuel : nat) (n : Z) : jsstring :=
  match fuel with
  | O => []
  | S fuel' => (if n <? 10 then [] else numeral fuel' (n / 10)) ++ [48 + n mod 10]
  end.

Definition monthNames : list jsstring :=
  [lit "Jan"; lit "Feb"; lit "Mar"; lit "Apr"; lit "May"; lit "Jun";
   lit "Jul"; lit "Aug"; lit "Sep"; lit "Oct"; lit "Nov"; lit "Dec"].

(** The date of a time value in UTC, as en-US writes it: Jan 5, 2025. *)
Definition utcDateString (time : Z) : jsstring :=
  let '(year, month, day) := civilFromDays (time / 86400000) in
  nth (Z.to_nat (month - 1)) monthNames [] ++ lit " " ++ numeral 6 day
  ++ lit ", " ++ numeral 6 year.

(** A host in the UTC time zone that reads these dates and takes at most
    65536 arguments in a call. *)
Definition isoHost : Host :=
  {| toLowerCase := asciiLower; toUpperCase := asciiUpper;
     dateParse := isoDateParse; toLocaleDateString := utcDateString;
     maxArguments := 65536;
     tooManyArguments := lit "Maximum call stack size exceeded";
     nativeSource := fun name => lit "function " ++ name ++ lit "() { [native code] }" |}.

(** ** Plain objects

    A dictionary built from [{}] holds its own properties and inherits those
    of [Object.prototype].  The own properties are an association list in
    the order of their creation.  The inherited ones are the members below;
    each is a function, but [__proto__], which is an accessor giving the
    prototype object: all are truthy. *)
Definition prototypeMembers : list jsstring :=
  [lit "constructor"; lit "__defineGetter__"; lit "__defineSetter__";
   lit "hasOwnProperty"; lit "__lookupGetter__"; lit "__lookupSetter__";
   lit "isPrototypeOf"; lit "propertyIsEnumerable"; lit "toString"; lit "valueOf";
   lit "__proto__"; lit "toLocaleString"].

(** [obj[key]] finds a member of the prototype when [obj] has no own [key]. *)
Definition inherited (key : jsstring) : bool := existsb (streq key) prototypeMembers.

(** [String(member)], the property key an inherited member is used as: the
    constructor is the function [Object], and [__proto__] gives an object. *)
Definition memberKey (host : Host) (key : jsstring) : jsstring :=
  if streq key (lit "__proto__") then lit "[object Object]"
  else if streq key (lit "constructor") then nativeSource host (lit "Object")
  else nativeSource host key.

(** The array index a property key denotes, if any: the canonical decimal
    numeral of a number up to 2^32 - 2. *)
Definition arrayIndex (key : jsstring) : option Z :=
  match key with
  | [] => None
  | first :: rest =>
      if forallb isDigit key && (negb (first =? 48) || (length rest =? 0)%nat)
         && (digitsValue key <=? 2 ^ 32 - 2)
      then Some (digitsValue key)
      else None
  end.

Definition isArrayIndex (key : jsstring) : bool :=
  match arrayIndex key with
  | Some _ => true
  | None => false
  end.

(** Ascending insertion sort, for keys that differ. *)
Fixpoint insertAsc {A : Type} (key : A -> Z) (x : A) (l : list A) : list A :=
  match l with
  | [] => [x]
  | y :: l' => if key y <=? key x then y :: insertAsc key x l' else x :: l
  end.

Definition sortAsc {A : Type} (key : A -> Z) (l : list A) : list A :=
  fold_right (insertAsc key) [] l.

(** [Object.entries(obj)]: the own properties, those whose key is an array
    index first, in ascending order of index, then the others in the order
    of their creation.  [Object.values] and [Object.keys] follow it. *)
Definition entries {V : Type} (obj : list (jsstring * V)) : list (jsstring * V) :=
  sortAsc (fun e => default 0 (arrayIndex (fst e)))
    (List.filter (fun e => isArrayIndex (fst e)) obj)
  ++ List.filter (fun e => negb (isArrayIndex (fst e))) obj.

(** ** The data processor *)

Definition COLUMN_MAPPINGS (field : Field.t) : list jsstring :=
  match field with
  | Field.rating =>
      [lit "Rate the overall taste of the pizza:"; lit "Rate this pizza (1-10)";
       lit "Rating"; lit "Score"; lit "rate"; lit "rating"]
  | Field.pizzaType =>
      [lit "What pizza did you try?"; lit "Which pizza did you try?";
       lit "Pizza Type"; lit "Pizza"; lit "pizza type"; lit "Which pizza"]
  | Field.feeling =>
      [lit "How do you feel after eating this pizza"; lit "How do you feel after eating?";
       lit "Feeling"; lit "How do you feel"; lit "feeling"]
  | Field.orderAgain =>
      [lit "Would you want this pizza again"; lit "Would you order again?";
       lit "Order Again"; lit "Would order again"; lit "order again"]
  | Field.tier =>
      [lit "Where does this land"; lit "Pizza tier ranking"; lit "Tier";
       lit "Ranking"; lit "tier ranking"]
  | Field.oneWord =>
      [lit "Describe this pizza in ONE word"; lit "One word to describe";
       lit "One Word"; lit "Describe"; lit "one word"]
  | Field.coldPizza =>
      [lit "eat this pizza cold"; lit "Cold pizza preference"; lit "Cold Pizza";
       lit "cold pizza"]
  | Field.comments =>
      [lit "Elaborate"; lit "Additional comments"; lit "Comments"; lit "Feedback";
       lit "comments"]
  | Field.timestamp =>
      [lit "Timestamp"; lit "Date"; lit "Submitted"; lit "timestamp"]
  end.

(** [Math.round((count / total) * 100)] *)
Definition percent (count total : nat) : number :=
  Math_round (nmul (ndiv (Finite (ofNat count)) (Finite (ofNat total))) (Finite 100)).

(** [total > 0 ? Math.round((count / total) * 100) : 0] *)
Definition guardedPercent (count total : nat) : number :=
  if (0 <? total)%nat then percent count total else Finite 0.

Section Processor.

Context (host : Host).

(** The test of [keys.find] in [findColumn]. *)
Definition columnMatches (mapping k : jsstring) : bool :=
  includes (toLowerCase host k) (toLowerCase host mapping) ||
  includes (toLowerCase host mapping) (toLowerCase host k).

(** The loop of [findColumn] over the aliases. *)
Fixpoint findColumnIn (keys mappings : list jsstring) : option jsstring :=
  match mappings with
  | [] => None
  | mapping :: rest =>
      match List.find (columnMatches mapping) keys with
      | Some found => if truthy found then Some found else findColumnIn keys rest
      | None => findColumnIn keys rest
      end
  end.

Definition findColumn (row : Row) (field : Field.t) : option jsstring :=
  findColumnIn (map fst row) (COLUMN_MAPPINGS field).

(** [column ? row[column] : ''] *)
Definition getValue (row : Row) (field : Field.t) : jsstring :=
  match findColumn row field with
  | Some column => default [] (assoc column row)
  | None => []
  end.

(** *** Summary *)

Definition formatDate (date : Z) : jsstring := toLocaleDateString host date.

(** [Math.min(...timestamps)] and [Math.max(...timestamps)] pass every
    timestamp as an argument: beyond the host's limit the call throws. *)
Definition processSummary (data : list Row) : outcome Summary.t :=
  let timestamps :=
    omap (dateParse host)
      (List.filter truthy (map (fun row => getValue row Field.timestamp) data)) in
  match timestamps with
  | [] =>
      Return {| Summary.totalResponses := length data; Summary.dateRange := lit "Unknown" |}
  | t :: ts =>
      if Z.of_nat (length timestamps) <=? maxArguments host then
        let minDate := fold_left Z.min ts t in
        let maxDate := fold_left Z.max ts t in
        Return {| Summary.totalResponses := length data;
                  Summary.dateRange :=
                    formatDate minDate ++ lit " - " ++ formatDate maxDate |}
      else Throw (RangeError (tooManyArguments host))
  end.

(** *** Rating *)

(** [!isNaN(r) && r >= 1 && r <= 10]: what the filter keeps is finite. *)
Definition retained (r : number) : option Q :=
  match r with
  | Finite q => if Qle_bool 1 q && Qle_bool q 10 then Some q else None
  | _ => None
  end.

Definition ratingsOf (data : list Row) : list Q :=
  omap retained (map (fun row => parseFloat (getValue row Field.rating)) data).

(** [distribution[rounded] = (distribution[rounded] || 0) + 1] *)
Definition tally (distribution : gmap Z nat) (r : Q) : gmap Z nat :=
  let rounded := roundZ r in
  <[rounded := (default 0%nat (distribution !! rounded) + 1)%nat]> distribution.

Definition emptyBuckets : gmap Z nat :=
  fold_left (fun d i => <[i := 0%nat]> d) [1; 2; 3; 4; 5; 6; 7; 8; 9; 10] ∅.

Definition processRating (data : list Row) : Rating.t :=
  let ratings := ratingsOf data in
  match ratings with
  | [] => {| Rating.average := 0; Rating.count := 0; Rating.distribution := ∅ |}
  | _ :: _ =>
      let average := fdiv (fold_left fadd ratings 0%Q) (ofNat (length ratings)) in
      let distribution := fold_left tally ratings emptyBuckets in
      {| Rating.average := fdiv (inject_Z (roundZ (fmul average 10))) 10;
         Rating.count := length ratings;
         Rating.distribution := distribution |}
  end.

(** *** Pizza popularity *)

Definition pizzaAliases : list (jsstring * jsstring) :=
  [(lit "cheese", lit "Cheese"); (lit "plain cheese", lit "Cheese");
   (lit "pepperoni", lit "Pepperoni"); (lit "pep", lit "Pepperoni");
   (lit "chicken pesto", lit "Chicken Pesto"); (lit "pesto chicken", lit "Chicken Pesto");
   (lit "veggie", lit "Veggie Supreme"); (lit "vegetable", lit "Veggie Supreme");
   (lit "veggie supreme", lit "Veggie Supreme"); (lit "meat lovers", lit "Meat Lovers");
   (lit "meat lover", lit "Meat Lovers"); (lit "meatlover", lit "Meat Lovers");
   (lit "hawaiian", lit "Hawaiian"); (lit "hawaii", lit "Hawaiian")].

(** [mappings[lowered] || ...].  For a [lowered] that names an inherited
    member the function returns that member; its callers use the result as
    a property key only, and the model returns the key it is used as. *)
Definition normalizePizzaName (name : jsstring) : jsstring :=
  let lowered := trim (toLowerCase host name) in
  match assoc lowered pizzaAliases with
  | Some known => known
  | None =>
      if inherited lowered then memberKey host lowered
      else toUpperCase host (charAt0 name) ++ slice1 name
  end.

Definition isCommaOrSemicolon (c : Z) : bool := (c =? 44) || (c =? 59).

(** The tokens of one cell: [value.split(/[,;]/).map(p => p.trim()).filter(p => p)] *)
Definition pizzasOf (value : jsstring) : list jsstring :=
  List.filter truthy (map trim (splitOn isCommaOrSemicolon value)).

(** [counts[normalized] = (counts[normalized] || 0) + 1].  Under the key
    [__proto__] the code reads the prototype and assigns a string to the
    accessor, which ignores it.  Under the name of an inherited function it
    reads that function and stores a string, its source text followed by 1,
    where this dictionary of natural numbers stores 1: the counters are those
    of the code for the keys that [numericKeys] admits, and the properties
    of the popularity are stated for them. *)
Definition bump (counts : list (jsstring * nat)) (normalized : jsstring)
  : list (jsstring * nat) :=
  match assoc normalized counts with
  | Some _ => alterAssoc (fun c => (c + 1)%nat) normalized counts
  | None =>
      if streq normalized (lit "__proto__") then counts
      else counts ++ [(normalized, 1%nat)]
  end.

Definition popularityStep (counts : list (jsstring * nat)) (value : jsstring)
  : list (jsstring * nat) :=
  if truthy value
  then fold_left (fun counts pizza => bump counts (normalizePizzaName pizza))
         (pizzasOf value) counts
  else counts.

Definition processPizzaPopularity (data : list Row) : Popularity.t :=
  let counts :=
    fold_left (fun counts row => popularityStep counts (getValue row Field.pizzaType))
      data [] in
  let sorted :=
    map (fun e => {| Popularity.name := fst e; Popularity.count := snd e |})
      (sortDesc snd (entries counts)) in
  let total := fold_left (fun sum item => (sum + Popularity.count item)%nat) sorted 0%nat in
  {| Popularity.items := sorted; Popularity.total := total |}.

(** *** Feelings *)

Definition colorMap : list (jsstring * jsstring) :=
  [(lit "joy", lit "#F1C40F"); (lit "regret", lit "#E67E22");
   (lit "shame", lit "#9B59B6"); (lit "happy", lit "#F1C40F");
   (lit "satisfied", lit "#2ECC71")].

(** The fallback of the emoji extraction, as the source file spells it. *)
Definition fallbackEmoji : jsstring := [240; 376; 8226].

Definition feelingColor (normalized : jsstring) : jsstring :=
  match List.find (fun kc => includes normalized (fst kc)) colorMap with
  | Some kc => snd kc
  | None => lit "#F4D03F"
  end.

(** The body of [data.forEach] in [processFeelings].  Under a key that names
    a member of [Object.prototype] the test [!feelings[normalized]] finds
    that member: no entry is created and the increment lands on the built-in
    object, so the answer is not counted. *)
Definition feelingsStep (feelings : list (jsstring * Feelings.entry)) (value : jsstring)
  : list (jsstring * Feelings.entry) :=
  if truthy value then
    let normalized := trim (toLowerCase host value) in
    let feelings' :=
      match assoc normalized feelings with
      | Some _ => feelings
      | None =>
          if inherited normalized then feelings
          else
            let extractedEmoji :=
              match matchEmoji value with
              | Some (first :: _) => first
              | _ => fallbackEmoji
              end in
            feelings ++
            [(normalized,
              {| Feelings.original := trim value;
                 Feelings.entryEmoji := extractedEmoji;
                 Feelings.entryColor := feelingColor normalized;
                 Feelings.entryCount := 0 |})]
      end in
    alterAssoc
      (fun f => {| Feelings.original := Feelings.original f;
                   Feelings.entryEmoji := Feelings.entryEmoji f;
                   Feelings.entryColor := Feelings.entryColor f;
                   Feelings.entryCount := S (Feelings.entryCount f) |})
      normalized feelings'
  else feelings.

Definition processFeelings (data : list Row) : Feelings.t :=
  let feelings :=
    fold_left (fun feelings row => feelingsStep feelings (getValue row Field.feeling))
      data [] in
  let total :=
    fold_left (fun sum f => (sum + Feelings.entryCount f)%nat)
      (map snd (entries feelings)) 0%nat in
  let items :=
    sortDesc Feelings.count
      (map (fun f => {| Feelings.feeling := trim (removeEmoji (Feelings.original f));
                        Feelings.count := Feelings.entryCount f;
                        Feelings.percentage := percent (Feelings.entryCount f) total;
                        Feelings.emoji := Feelings.entryEmoji f;
                        Feelings.color := Feelings.entryColor f |})
         (map snd (entries feelings))) in
  {| Feelings.items := items; Feelings.total := total |}.

(** *** Order again *)

Inductive orderAgainCategory := Yes | Meh.

(** The [if]/[else if] chain of [processOrderAgain]. *)
Definition orderAgainOf (lowered : jsstring) : option orderAgainCategory :=
  if includes lowered (lit "yes") || includes lowered (lit "absolutely")
     || includes lowered (lit "definitely")
  then Some Yes
  else if includes lowered (lit "meh") || includes lowered (lit "maybe")
          || includes lowered (lit "no")
  then Some Meh
  else None.

Definition orderAgainStep (acc : nat * nat) (value : jsstring) : nat * nat :=
  let '(yes, meh) := acc in
  if truthy value then
    match orderAgainOf (toLowerCase host value) with
    | Some Yes => (S yes, meh)
    | Some Meh => (yes, S meh)
    | None => acc
    end
  else acc.

Definition processOrderAgain (data : list Row) : OrderAgain.t :=
  let '(yes, meh) :=
    fold_left (fun acc row => orderAgainStep acc (getValue row Field.orderAgain))
      data (0%nat, 0%nat) in
  let total := (yes + meh)%nat in
  {| OrderAgain.yes :=
       {| OrderAgain.count := yes; OrderAgain.percentage := guardedPercent yes total |};
     OrderAgain.meh :=
       {| OrderAgain.count := meh; OrderAgain.percentage := guardedPercent meh total |};
     OrderAgain.total := total |}.

(** *** Tiers *)

Inductive tierCategory := TopTier | SolidChoice | Mid.

(** The [if]/[else if] chain of [processTiers]. *)
Definition tierOf (lowered : jsstring) : option tierCategory :=
  if includes lowered (lit "top") || includes lowered (lit "best")
     || includes lowered (lit "excellent")
  then Some TopTier
  else if includes lowered (lit "solid") || includes lowered (lit "good")
          || includes lowered (lit "great")
  then Some SolidChoice
  else if includes lowered (lit "mid") || includes lowered (lit "average")
          || includes lowered (lit "okay")
  then Some Mid
  else None.

(** The three counters, in the order of the [tiers] object. *)
Definition tiersStep (acc : nat * nat * nat) (value : jsstring) : nat * nat * nat :=
  let '(top, solid, mid) := acc in
  if truthy value then
    match tierOf (toLowerCase host value) with
    | Some TopTier => (S top, solid, mid)
    | Some SolidChoice => (top, S solid, mid)
    | Some Mid => (top, solid, S mid)
    | None => acc
    end
  else acc.

Definition processTiers (data : list Row) : Tiers.t :=
  let '(top, solid, mid) :=
    fold_left (fun acc row => tiersStep acc (getValue row Field.tier))
      data (0%nat, 0%nat, 0%nat) in
  let total := (0 + top + solid + mid)%nat in
  let item name count icon color :=
    {| Tiers.name := name; Tiers.count := count;
       Tiers.percentage := guardedPercent count total;
       Tiers.icon := icon; Tiers.color := color |} in
  {| Tiers.items :=
       [item (lit "Top Tier") top [240; 376; 8224] (lit "#FFD700");
        item (lit "Solid Choice") solid [240; 376; 165; 710] (lit "#C0C0C0");
        item (lit "Mid") mid [240; 376; 165; 8240] (lit "#CD7F32")];
     Tiers.total := total |}.

(** *** Word cloud *)

Definition stopWords : list jsstring :=
  [lit "the"; lit "a"; lit "an"; lit "and"; lit "or"; lit "but"; lit "is";
   lit "are"; lit "was"; lit "were"; lit "it"; lit "its"].

Definition isStopWord (word : jsstring) : bool :=
  existsb (streq (toLowerCase host word)) stopWords.

(** The class [[,;/\s]]. *)
Definition isWordDelimiter (c : Z) : bool :=
  (c =? 44) || (c =? 59) || (c =? 47) || isWhiteSpace c.

Definition wordListOf (value : jsstring) : list jsstring :=
  List.filter (fun w => (1 <? length w)%nat && negb (isStopWord w))
    (map (fun w => toLowerCase host (trim w)) (splitRuns isWordDelimiter value)).

(** [value.split(/[,;/\s]+/).find(w => w.trim().toLowerCase() === word) || word] *)
Definition displayWord (value word : jsstring) : jsstring :=
  match List.find (fun w => streq (toLowerCase host (trim w)) word)
          (splitRuns isWordDelimiter value) with
  | Some w => if truthy w then w else word
  | None => word
  end.

(** The body of [wordList.forEach].  Under a word that names a member of
    [Object.prototype] the test [!words[word]] finds that member: no entry
    is created and the increment lands on the built-in object. *)
Definition wordStep (value : jsstring) (words : list (jsstring * WordCloud.item))
  (word : jsstring) : list (jsstring * WordCloud.item) :=
  let words' :=
    match assoc word words with
    | Some _ => words
    | None =>
        if inherited word then words
        else words ++
             [(word, {| WordCloud.text := trim (displayWord value word);
                        WordCloud.count := 0 |})]
    end in
  alterAssoc
    (fun w => {| WordCloud.text := WordCloud.text w;
                 WordCloud.count := S (WordCloud.count w) |})
    word words'.

Definition wordCloudStep (words : list (jsstring * WordCloud.item)) (value : jsstring)
  : list (jsstring * WordCloud.item) :=
  if truthy value then fold_left (wordStep value) (wordListOf value) words else words.

Definition processWordCloud (data : list Row) : list WordCloud.item :=
  let words :=
    fold_left (fun words row => wordCloudStep words (getValue row Field.oneWord))
      data [] in
  firstn 50 (sortDesc WordCloud.count (map snd (entries words))).

(** *** Cold pizza *)

Inductive coldPizzaCategory := LeftoversPlease | IfDesperate | Never.

(** The [if]/[else if] chain of [processColdPizza]. *)
Definition coldPizzaOf (lowered : jsstring) : option coldPizzaCategory :=
  if includes lowered (lit "leftover") || includes lowered (lit "please")
     || includes lowered (lit "love") || includes lowered (lit "yes")
  then Some LeftoversPlease
  else if includes lowered (lit "desperate") || includes lowered (lit "maybe")
          || includes lowered (lit "sometimes")
  then Some IfDesperate
  else if includes lowered (lit "never") || includes lowered (lit "no")
          || includes lowered (lit "chance")
  then Some Never
  else None.

(** The three counters, in the order of the [preferences] object. *)
Definition coldPizzaStep (acc : nat * nat * nat) (value : jsstring) : nat * nat * nat :=
  let '(leftovers, desperate, never) := acc in
  if truthy value then
    match coldPizzaOf (toLowerCase host value) with
    | Some LeftoversPlease => (S leftovers, desperate, never)
    | Some IfDesperate => (leftovers, S desperate, never)
    | Some Never => (leftovers, desperate, S never)
    | None => acc
    end
  else acc.

Definition processColdPizza (data : list Row) : ColdPizza.t :=
  let '(leftovers, desperate, never) :=
    fold_left (fun acc row => coldPizzaStep acc (getValue row Field.coldPizza))
      data (0%nat, 0%nat, 0%nat) in
  let total := (0 + leftovers + desperate + never)%nat in
  let item label count color :=
    {| ColdPizza.label := label; ColdPizza.count := count;
       ColdPizza.percentage := guardedPercent count total;
       ColdPizza.color := color |} in
  {| ColdPizza.items :=
       [item (lit "Leftovers Please!") leftovers (lit "#27AE60");
        item (lit "If Desperate") desperate (lit "#F39C12");
        item (lit "Never!") never (lit "#C0392B")];
     ColdPizza.total := total |}.

(** *** Comments *)

(** The comments kept, before the shuffle. *)
Definition uniqueComments (data : list Row) : list jsstring :=
  unique
    (map trim
       (List.filter (fun c => truthy c && (10 <? length (trim c))%nat)
          (map (fun row => getValue row Field.comments) data))).

Definition processComments (random : nat -> Q) (data : list Row) : list jsstring :=
  firstn 10 (shuffleArray random (uniqueComments data)).

(** *** The entry point

    [rawData] is [None] for [null] or [undefined]. *)
Definition processData (random : nat -> Q) (rawData : option (list Row)) : outcome Result :=
  match rawData with
  | None | Some [] => Throw (Error (lit "No data to process"))
  | Some data =>
      match processSummary data with
      | Throw thrown => Throw thrown
      | Return summary =>
          Return
            {| summary := summary;
               rating := processRating data;
               pizzaPopularity := processPizzaPopularity data;
               feelings := processFeelings data;
               orderAgain := processOrderAgain data;
               tiers := processTiers data;
               wordCloud := processWordCloud data;
               coldPizza := processColdPizza data;
               comments := processComments random data |}
      end
  end.

End Processor.

(** ** The specification's vocabulary *)

(** The categorical classifier as the specification words it: rules are
    tried in order, a rule matches when the lower-cased text contains one of
    its keywords, and the first matching rule gives the category. *)
Definition classify {C : Type} (host : Host) (categoryRules : list (C * list jsstring))
  (text : jsstring) : option C :=
  let lowered := toLowerCase host text in
  match List.find (fun rule => existsb (includes lowered) (snd rule)) categoryRules with
  | Some rule => Some (fst rule)
  | None => None
  end.

Definition orderAgainRules : list (orderAgainCategory * list jsstring) :=
  [(Yes, [lit "yes"; lit "absolutely"; lit "definitely"]);
   (Meh, [lit "meh"; lit "maybe"; lit "no"])].

Definition tierRules : list (tierCategory * list jsstring) :=
  [(TopTier, [lit "top"; lit "best"; lit "excellent"]);
   (SolidChoice, [lit "solid"; lit "good"; lit "great"]);
   (Mid, [lit "mid"; lit "average"; lit "okay"])].

Definition coldPizzaRules : list (coldPizzaCategory * list jsstring) :=
  [(LeftoversPlease, [lit "leftover"; lit "please"; lit "love"; lit "yes"]);
   (IfDesperate, [lit "desperate"; lit "maybe"; lit "sometimes"]);
   (Never, [lit "never"; lit "no"; lit "chance"])].

(** A rule matches a lower-cased text. *)
Definition ruleMatches {C : Type} (lowered : jsstring) (rule : C * list jsstring) : Prop :=
  exists keyword, In keyword (snd rule) /\ includes lowered keyword = true.

(** [p] is a well-formed percentage of [count] in [total]: an integer
    between 0 and 100, zero for an empty total, and otherwise the value of
    [Math.round((count / total) * 100)]. *)
Definition isPercentage (p : number) (count total : nat) : Prop :=
  exists z : Z,
    p = Finite (inject_Z z) /\ 0 <= z <= 100 /\
    (total = 0%nat -> z = 0) /\
    ((0 < total)%nat -> p = percent count total).

(** The sum of the buckets of a histogram. *)
Definition bucketSum (distribution : gmap Z nat) : nat :=
  map_fold (fun _ v sum => (v + sum)%nat) 0%nat distribution.

(** The cell parses as a number of the closed range [1,10]. *)
Definition parsesInRange (value : jsstring) : bool :=
  match parseFloat value with
  | Finite q => Qle_bool 1 q && Qle_bool q 10
  | _ => false
  end.

(** The number of pizza tokens a row contributes. *)
Definition tokensOf (host : Host) (row : Row) : nat :=
  length (pizzasOf (getValue host row Field.pizzaType)).

(** Two rows give a logical field the same value. *)
Definition sameValue (host : Host) (field : Field.t) (row row' : Row) : Prop :=
  getValue host row field = getValue host row' field.

(** Two rows give every logical field the same value. *)
Definition sameValues (host : Host) (row row' : Row) : Prop :=
  forall field, sameValue host field row row'.

(** A column and an alias overlap: one contains the other, lower-cased. *)
Definition overlaps (host : Host) (alias column : jsstring) : Prop :=
  substring (toLowerCase host alias) (toLowerCase host column) \/
  substring (toLowerCase host column) (toLowerCase host alias).

(** [round(count / total * 100)] in exact arithmetic, a half rounded up as
    [Math.round] does; 0 for an empty total. *)
Definition exactPercent (count total : nat) : Z :=
  if (total =? 0)%nat then 0
  else Qfloor (ofNat count / ofNat total * 100 + (1 # 2)).

(** [count / total * 100] lies exactly halfway between two integers. *)
Definition halfway (count total : nat) : bool :=
  (200 * Z.of_nat count) mod (2 * Z.of_nat total) =? Z.of_nat total.

(** [p] is the percentage of [count] in [total]: an integer between 0 and
    100, zero for an empty total, and the exact rounding of
    [count / total * 100], or one less than it where that number lies
    halfway between two integers. *)
Definition roundedPercentage (p : number) (count total : nat) : Prop :=
  exists z : Z,
    p = Finite (inject_Z z) /\ 0 <= z <= 100 /\
    (total = 0%nat -> z = 0) /\
    (z = exactPercent count total \/
     halfway count total = true /\ z = exactPercent count total - 1).

(** Every percentage of a result is such a percentage against the total of
    its own reducer. *)
Definition percentagesRounded (r : Result) : Prop :=
  let oa := orderAgain r in
  roundedPercentage (OrderAgain.percentage (OrderAgain.yes oa))
    (OrderAgain.count (OrderAgain.yes oa)) (OrderAgain.total oa) /\
  roundedPercentage (OrderAgain.percentage (OrderAgain.meh oa))
    (OrderAgain.count (OrderAgain.meh oa)) (OrderAgain.total oa) /\
  Forall (fun i => roundedPercentage (Tiers.percentage i) (Tiers.count i)
                     (Tiers.total (tiers r)))
    (Tiers.items (tiers r)) /\
  Forall (fun i => roundedPercentage (ColdPizza.percentage i) (ColdPizza.count i)
                     (ColdPizza.total (coldPizza r)))
    (ColdPizza.items (coldPizza r)) /\
  Forall (fun i => roundedPercentage (Feelings.percentage i) (Feelings.count i)
                     (Feelings.total (feelings r)))
    (Feelings.items (feelings r)).

(** The row is silently excluded from an aggregate: wherever it stands in
    the input, the aggregate is what it is without the row. *)
Definition ignoresRow {X : Type} (reduce : list Row -> X) (row : Row) : Prop :=
  forall before after, reduce (before ++ row :: after) = reduce (before ++ after).

(** The date range of a summary, or what the summary threw. *)
Definition dateRangeOf (summary : outcome Summary.t) : outcome jsstring :=
  match summary with
  | Return s => Return (Summary.dateRange s)
  | Throw thrown => Throw thrown
  end.

(** Two inputs give the aggregate that a [field] feeds the same value.  The
    timestamp feeds the date range of the summary, whose response count is
    the plain row count; the comments are taken before the shuffle. *)
Definition sameAggregate (host : Host) (field : Field.t) (data data' : list Row) : Prop :=
  match field with
  | Field.rating => processRating host data = processRating host data'
  | Field.pizzaType => processPizzaPopularity host data = processPizzaPopularity host data'
  | Field.feeling => processFeelings host data = processFeelings host data'
  | Field.orderAgain => processOrderAgain host data = processOrderAgain host data'
  | Field.tier => processTiers host data = processTiers host data'
  | Field.oneWord => processWordCloud host data = processWordCloud host data'
  | Field.coldPizza => processColdPizza host data = processColdPizza host data'
  | Field.comments => uniqueComments host data = uniqueComments host data'
  | Field.timestamp =>
      dateRangeOf (processSummary host data) = dateRangeOf (processSummary host data')
  end.

(** The row is excluded from the aggregate its [field] feeds. *)
Definition excludedFrom (host : Host) (field : Field.t) (row : Row) : Prop :=
  forall before after, sameAggregate host field (before ++ row :: after) (before ++ after).

(** ** Sample inputs *)

(** rows = [{rating: "8"}, {rating: "10"}, {rating: "bad"}] *)
Definition ratingScenario : list Row :=
  [[(lit "rating", lit "8")]; [(lit "rating", lit "10")]; [(lit "rating", lit "bad")]].

(** The text "😍 Joy": U+1F60D is the surrogate pair D83D DE0D. *)
Definition joyText : jsstring := [55357; 56845] ++ lit " Joy".

(** The same text lower-cased: the key under which the feeling is grouped. *)
Definition joyKey : jsstring := [55357; 56845] ++ lit " joy".

(** What the scenario expects of the dictionary entry and of the item made
    from it. *)
Definition displaysJoy (e : Feelings.entry) : Prop :=
  Feelings.original e = joyText /\
  Feelings.entryEmoji e = [55357; 56845] /\
  Feelings.entryColor e = lit "#F1C40F".

Definition joyItem (i : Feelings.item) : Prop :=
  Feelings.feeling i = lit "Joy" /\
  Feelings.emoji i = [55357; 56845] /\
  Feelings.color i = lit "#F1C40F".

Definition feelingScenario : list Row := [[(lit "feeling", joyText)]].

Definition coldPizzaScenario : list Row :=
  [[(lit "Cold Pizza", lit "Sometimes, if desperate")]].

(** A row with two columns that are both aliases of [timestamp]. *)
Definition twoDateColumns : Row :=
  [(lit "Date", lit "2025-01-02"); (lit "Timestamp", lit "2025-01-01")].

(** One multi-select answer among rows that left the question blank. *)
Definition multiSelectAmongBlanks : list Row :=
  [[(lit "Pizza", lit "Cheese, Pepperoni")]; [(lit "Pizza", [])]; [(lit "Pizza", [])]].

(** Two complete answers and one that only says the rating is unknown. *)
Definition surveySample : list Row :=
  [[(lit "Timestamp", lit "2025-01-05");
    (lit "Rate this pizza (1-10)", lit "8");
    (lit "Which pizza did you try?", lit "Cheese, Pepperoni");
    (lit "How do you feel after eating?", lit "Joy");
    (lit "Would you order again?", lit "Yes, absolutely!");
    (lit "Pizza tier ranking", lit "Top Tier");
    (lit "One word to describe", lit "pillowy");
    (lit "Cold pizza preference", lit "Never!");
    (lit "Additional comments", lit "The cheese pull was absolutely insane.")];
   [(lit "Timestamp", lit "2025-01-06");
    (lit "Rate this pizza (1-10)", lit "7.5");
    (lit "Which pizza did you try?", lit "pep");
    (lit "How do you feel after eating?", lit "Regret");
    (lit "Would you order again?", lit "Meh, maybe");
    (lit "Pizza tier ranking", lit "Mid");
    (lit "One word to describe", lit "greasy");
    (lit "Cold pizza preference", lit "If Desperate");
    (lit "Additional comments", [])];
   [(lit "Score", lit "n/a")]].

(** A row that has a cell for the rating and nothing else. *)
Definition unratedRow : Row := [(lit "Rating", lit "bad")].

(** Answers that fit no category, with a comment too short to keep. *)
Definition anomalousRow : Row :=
  [(lit "Rating", lit "eleven"); (lit "Order Again", lit "perhaps");
   (lit "Tier", lit "unranked"); (lit "Cold Pizza", lit "hmm");
   (lit "Comments", lit "too short")].

Definition crispyRow : Row :=
  [(lit "Comments", lit "The crust was perfectly crispy.")].

(** A single answer naming one pizza. *)
Definition onePizza : list Row := [[(lit "Pizza", lit "pep")]].

(** The same answers with and without an empty comments cell. *)
Definition withoutComments : Row := [(lit "Rating", lit "9")].
Definition withBlankComments : Row := [(lit "Rating", lit "9"); (lit "Comments", [])].

Definition twoComments : list Row :=
  [[(lit "Comments", lit "The crust was perfectly crispy.")];
   [(lit "Comments", lit "I dream about this pizza at night.")]].

(** Two oracles for [Math.random]. *)
Definition alwaysZero : nat -> Q := fun _ => 0%Q.
Definition alwaysHalf : nat -> Q := fun _ => (1 # 2)%Q.

(** A row that holds its date only, and a survey of 600000 such rows. *)
Definition datedRow : Row := [(lit "Timestamp", lit "2025-01-05")].
Definition largeSurvey : list Row := repeat datedRow (Z.to_nat 600000).

(** Forty answers to the order-again question: 23 say yes and 17 say meh. *)
Definition yesAnswer : Row := [(lit "Order Again", lit "Yes")].
Definition mehAnswer : Row := [(lit "Order Again", lit "Meh")].
Definition fortyAnswers : list Row := repeat yesAnswer 23 ++ repeat mehAnswer 17.

(** A row whose columns bear the short names of the alias table. *)
Definition shortHeaders : Row := [(lit "Rating", lit "8"); (lit "Pizza", lit "Cheese")].

(** A rating in a row without a pizza column, and in a row whose pizza
    column is blank. *)
Definition ratingOnly : Row := [(lit "Rating", lit "8")].
Definition ratingWithBlankPizza : Row := [(lit "Rating", lit "8"); (lit "Pizza", [])].

(** ** The share link

    [minifyDataForSharing] and [expandMinifiedData] of [main.js].  Between
    the two the link carries the JSON text of the minified object, deflated
    and base64-encoded; that transport is the browser's and pako's and is
    not modelled. *)

Module PizzaInfo.
Record t := mk { place : jsstring; date : jsstring }.
End PizzaInfo.

(** What the page shows and shares: the result of [processData] with the
    pizza info, or what [expandMinifiedData] rebuilds from a link, which has
    no rating distribution. *)
Module Shown.
Record rating_t := mkRating {
  average : Q; count : nat; distribution : option (gmap Z nat) }.
Record t := mk {
  pizzaInfo : option PizzaInfo.t;
  summary : Summary.t;
  rating : rating_t;
  pizzaPopularity : Popularity.t;
  orderAgain : OrderAgain.t;
  feelings : Feelings.t;
  tiers : Tiers.t;
  wordCloud : list WordCloud.item;
  coldPizza : ColdPizza.t;
  comments : list jsstring }.
End Shown.

(** The minified object, with the keys of the source. *)
Module Mini.
Record rating_t := mkRating { a : Q; c : nat }.
Record data := mk {
  p : jsstring;
  d : jsstring;
  r : rating_t;
  pp : list (jsstring * nat);
  oa : nat * nat;
  f : list (jsstring * nat);
  t : list (jsstring * nat);
  w : list (jsstring * nat);
  cp : list (jsstring * nat);
  cm : list jsstring }.
End Mini.

(** [{ ...processedData, pizzaInfo: currentPizzaInfo }]; [None] is [null]. *)
Definition withPizzaInfo (currentPizzaInfo : option PizzaInfo.t) (processedData : Result)
  : Shown.t :=
  {| Shown.pizzaInfo := currentPizzaInfo;
     Shown.summary := summary processedData;
     Shown.rating :=
       {| Shown.average := Rating.average (rating processedData);
          Shown.count := Rating.count (rating processedData);
          Shown.distribution := Some (Rating.distribution (rating processedData)) |};
     Shown.pizzaPopularity := pizzaPopularity processedData;
     Shown.orderAgain := orderAgain processedData;
     Shown.feelings := feelings processedData;
     Shown.tiers := tiers processedData;
     Shown.wordCloud := wordCloud processedData;
     Shown.coldPizza := coldPizza processedData;
     Shown.comments := comments processedData |}.

(** [x || 0] on a finite number. *)
Definition orZero (x : Q) : Q := if Qeq_bool x 0 then 0%Q else x.

(** On a counter and on a string [x || 0] and [x || ''] return [x], and an
    array is never replaced by [|| []]. *)
Definition minifyDataForSharing (data : Shown.t) : Mini.data :=
  {| Mini.p := match Shown.pizzaInfo data with
               | Some info => PizzaInfo.place info
               | None => []
               end;
     Mini.d := match Shown.pizzaInfo data with
               | Some info => PizzaInfo.date info
               | None => []
               end;
     Mini.r := {| Mini.a := orZero (Shown.average (Shown.rating data));
                  Mini.c := Shown.count (Shown.rating data) |};
     Mini.pp := map (fun i => (Popularity.name i, Popularity.count i))
                  (firstn 6 (Popularity.items (Shown.pizzaPopularity data)));
     Mini.oa := (OrderAgain.count (OrderAgain.yes (Shown.orderAgain data)),
                 OrderAgain.count (OrderAgain.meh (Shown.orderAgain data)));
     Mini.f := map (fun i => (Feelings.feeling i, Feelings.count i))
                 (firstn 4 (Feelings.items (Shown.feelings data)));
     Mini.t := map (fun i => (Tiers.name i, Tiers.count i))
                 (Tiers.items (Shown.tiers data));
     Mini.w := map (fun i => (WordCloud.text i, WordCloud.count i))
                 (firstn 15 (Shown.wordCloud data));
     Mini.cp := map (fun i => (ColdPizza.label i, ColdPizza.count i))
                  (ColdPizza.items (Shown.coldPizza data));
     Mini.cm := firstn 3 (Shown.comments data) |}.

(** The emoji and the colour of a feeling. *)
Definition EMOJI_MAP : list (jsstring * (jsstring * jsstring)) :=
  [(lit "No regrets, only joy", ([55358; 56688], lit "#2ECC71"));
   (lit "Slight shame", ([55357; 56837], lit "#9B59B6"));
   (lit "Why did I do this", ([55358; 56692], lit "#E74C3C"))].

(** The emoji, the class and the colour of a cold pizza preference. *)
Definition COLD_PREFS : list (jsstring * (jsstring * jsstring * jsstring)) :=
  [(lit "Leftovers Please!", ([55358; 56612], lit "hot", lit "#27AE60"));
   (lit "If Desperate", ([55358; 56631], lit "warm", lit "#F39C12"));
   (lit "Never!", ([55357; 56901], lit "cold", lit "#C0392B"))].

(** The icon and the colour of a tier. *)
Definition TIER_INFO : list (jsstring * (jsstring * jsstring)) :=
  [(lit "Top Tier", ([55356; 57286], lit "#FFD700"));
   (lit "Solid Choice", ([55358; 56648], lit "#C0C0C0"));
   (lit "Mid", ([55358; 56649], lit "#CD7F32"))].

(** [arr.reduce((s, i) => s + i[1], 0)] *)
Definition sumCounts (arr : list (jsstring * nat)) : nat :=
  fold_left (fun s i => (s + snd i)%nat) arr 0%nat.

(** [total ? Math.round(count / total * 100) : 0] *)
Definition sharedPercent (count total : nat) : number :=
  if (total =? 0)%nat then Finite 0 else percent count total.

Definition expandMinifiedData (mini : Mini.data) : Shown.t :=
  let ppTotal := sumCounts (Mini.pp mini) in
  let fTotal := sumCounts (Mini.f mini) in
  let tTotal := sumCounts (Mini.t mini) in
  let cpTotal := sumCounts (Mini.cp mini) in
  let oaTotal := (fst (Mini.oa mini) + snd (Mini.oa mini))%nat in
  {| Shown.pizzaInfo :=
       Some {| PizzaInfo.place := Mini.p mini; PizzaInfo.date := Mini.d mini |};
     Shown.summary :=
       {| Summary.totalResponses := Mini.c (Mini.r mini);
          Summary.dateRange := lit "Survey Results" |};
     Shown.rating :=
       {| Shown.average := Mini.a (Mini.r mini);
          Shown.count := Mini.c (Mini.r mini);
          Shown.distribution := None |};
     Shown.pizzaPopularity :=
       {| Popularity.items :=
            map (fun e => {| Popularity.name := fst e; Popularity.count := snd e |})
              (Mini.pp mini);
          Popularity.total := ppTotal |};
     Shown.orderAgain :=
       {| OrderAgain.yes :=
            {| OrderAgain.count := fst (Mini.oa mini);
               OrderAgain.percentage := sharedPercent (fst (Mini.oa mini)) oaTotal |};
          OrderAgain.meh :=
            {| OrderAgain.count := snd (Mini.oa mini);
               OrderAgain.percentage := sharedPercent (snd (Mini.oa mini)) oaTotal |};
          OrderAgain.total := oaTotal |};
     Shown.feelings :=
       {| Feelings.items :=
            map (fun e =>
                   {| Feelings.feeling := fst e;
                      Feelings.count := snd e;
                      Feelings.percentage := sharedPercent (snd e) fTotal;
                      Feelings.emoji :=
                        match assoc (fst e) EMOJI_MAP with
                        | Some known => fst known
                        | None => [55357; 56843]
                        end;
                      Feelings.color :=
                        match assoc (fst e) EMOJI_MAP with
                        | Some known => snd known
                        | None => lit "#F4D03F"
                        end |})
              (Mini.f mini);
          Feelings.total := fTotal |};
     Shown.tiers :=
       {| Tiers.items :=
            map (fun e =>
                   {| Tiers.name := fst e;
                      Tiers.count := snd e;
                      Tiers.percentage := sharedPercent (snd e) tTotal;
                      Tiers.icon :=
                        match assoc (fst e) TIER_INFO with
                        | Some known => fst known
                        | None => [55356; 57285]
                        end;
                      Tiers.color :=
                        match assoc (fst e) TIER_INFO with
                        | Some known => snd known
                        | None => lit "#999"
                        end |})
              (Mini.t mini);
          Tiers.total := tTotal |};
     Shown.wordCloud :=
       map (fun e => {| WordCloud.text := fst e; WordCloud.count := snd e |}) (Mini.w mini);
     Shown.coldPizza :=
       {| ColdPizza.items :=
            map (fun e =>
                   {| ColdPizza.label := fst e;
                      ColdPizza.count := snd e;
                      ColdPizza.percentage := sharedPercent (snd e) cpTotal;
                      ColdPizza.color :=
                        match assoc (fst e) COLD_PREFS with
                        | Some known => snd known
                        | None => lit "#999"
                        end |})
              (Mini.cp mini);
          ColdPizza.total := cpTotal |};
     Shown.comments := Mini.cm mini |}.

(** ** The charts *)

(** [a - b] on finite doubles. *)
Definition fsub (a b : Q) : Q := round53 (a - b).

(** [x + y] *)
Definition nadd (x y : number) : number :=
  match x, y with
  | NaN, _ | _, NaN => NaN
  | Infinity s, Infinity t => if Bool.eqb s t then Infinity s else NaN
  | Infinity s, Finite _ | Finite _, Infinity s => Infinity s
  | Finite a, Finite b => Finite (fadd a b)
  end.

(** [Math.max(...counts)]: minus infinity without argument. *)
Definition Math_max (counts : list nat) : number :=
  match counts with
  | [] => Infinity true
  | count :: rest => Finite (ofNat (fold_left Nat.max rest count))
  end.

(** [x === 0] *)
Definition isZero (x : number) : bool :=
  match x with
  | Finite q => Qeq_bool q 0
  | _ => false
  end.

(** *** The podium ([tierRanking.js]) *)

Definition reorderForPodium (items : list Tiers.item) : list Tiers.item :=
  match items with
  | item0 :: item1 :: item2 :: _ =>
      let named name := List.find (fun i => streq (Tiers.name i) name) items in
      let topTier := default item0 (named (lit "Top Tier")) in
      let solid := default item1 (named (lit "Solid Choice")) in
      let mid := default item2 (named (lit "Mid")) in
      [solid; topTier; mid]
  | _ => items
  end.

Definition getBarHeight (tier : Tiers.item) (allTiers : list Tiers.item) : number :=
  let maxCount := Math_max (map Tiers.count allTiers) in
  let minHeight := 60%Q in
  let maxHeight := 150%Q in
  if isZero maxCount then Finite minHeight
  else
    let ratio := ndiv (Finite (ofNat (Tiers.count tier))) maxCount in
    nadd (Finite minHeight) (nmul (Finite (fsub maxHeight minHeight)) ratio).

(** The heights [createTierRanking] gives the bars of the podium. *)
Definition podiumHeights (tierData : Tiers.t) : list (Tiers.item * number) :=
  let podiumOrder := reorderForPodium (Tiers.items tierData) in
  map (fun tier => (tier, getBarHeight tier podiumOrder)) podiumOrder.

(** *** The popularity chart ([pizzaPopularity.js]) *)

(** The percentages [createCustomLegend] prints, one per item. *)
Definition createCustomLegend (items : list Popularity.item) (total : nat) : list number :=
  map (fun item => percent (Popularity.count item) total) items.

(** The width of the bar and the percentage of the votes that
    [createHorizontalBarChart] prints, one pair per item. *)
Definition createHorizontalBarChart (popularityData : Popularity.t)
  : list (number * number) :=
  let items := Popularity.items popularityData in
  let total := Popularity.total popularityData in
  let maxCount := Math_max (map Popularity.count items) in
  map (fun item =>
         let percentage :=
           nmul (ndiv (Finite (ofNat (Popularity.count item))) maxCount) (Finite 100) in
         let votePercentage := percent (Popularity.count item) total in
         (percentage, votePercentage))
    items.

(** *** The stack of boxes ([orderAgain.js]) *)

(** [Array(n)]: an array of [n] holes when [n] is an integer from 0 to
    2^32 - 1, a [RangeError] otherwise. *)
Definition Array_ (n : number) : outcome nat :=
  match n with
  | Finite q =>
      if Qeq_bool q (inject_Z (Qfloor q)) && Qle_bool 0 q && Qle_bool q (inject_Z (2 ^ 32 - 1))
      then Return (Z.to_nat (Qfloor q))
      else Throw (RangeError (lit "Invalid array length"))
  | _ => Throw (RangeError (lit "Invalid array length"))
  end.

(** The numbers of boxes [createPizzaBoxStack] draws in the two stacks. *)
Definition createPizzaBoxStack (orderData : OrderAgain.t) : outcome (nat * nat) :=
  let maxBoxes := 10%Q in
  let boxes bucket :=
    Math_round
      (nmul (ndiv (OrderAgain.percentage bucket) (Finite 100)) (Finite maxBoxes)) in
  match Array_ (boxes (OrderAgain.yes orderData)) with
  | Throw thrown => Throw thrown
  | Return yesBoxes =>
      match Array_ (boxes (OrderAgain.meh orderData)) with
      | Throw thrown => Throw thrown
      | Return mehBoxes => Return (yesBoxes, mehBoxes)
      end
  end.

(** *** The carousel ([commentsCarousel.js])

    The module keeps [currentSlide] and [autoplayInterval]; [initCarousel]
    keeps [touchStartX] for its listeners.  The window keeps the intervals
    that are running: [intervals] lists the handle of each with the
    [totalSlides] its callback has captured, and [nextHandle] is the handle
    [setInterval] returns next.  [totalSlides] is [comments.length], which
    [createCommentsCarousel] has checked not to be zero. *)
Module Carousel.

Record state := mk {
  currentSlide : Z;
  autoplayInterval : option Z;
  touchStartX : Q;
  intervals : list (Z * Z);
  nextHandle : Z }.

Inductive event :=
  | PrevClick
  | NextClick
  | DotClick (index : Z)
  | KeyDown (key : jsstring)
  | TouchStart (screenX : Q)
  | TouchEnd (screenX : Q)
  | MouseEnter
  | MouseLeave
  | Timer (handle : Z).

(** What [goToSlide] does to the state; the rest is drawing. *)
Definition goToSlide (index : Z) (st : state) : state :=
  {| currentSlide := index;
     autoplayInterval := autoplayInterval st;
     touchStartX := touchStartX st;
     intervals := intervals st;
     nextHandle := nextHandle st |}.

(** [(currentSlide + 1) % totalSlides] *)
Definition nextIndex (totalSlides : Z) (st : state) : Z :=
  Z.rem (currentSlide st + 1) totalSlides.

(** [(currentSlide - 1 + totalSlides) % totalSlides] *)
Definition prevIndex (totalSlides : Z) (st : state) : Z :=
  Z.rem (currentSlide st - 1 + totalSlides) totalSlides.

(** [if (autoplayInterval)]: a handle that is neither [null] nor 0. *)
Definition isSet (handle : option Z) : bool :=
  match handle with
  | Some h => negb (h =? 0)
  | None => false
  end.

Definition startAutoplay (totalSlides : Z) (st : state) : state :=
  if isSet (autoplayInterval st) then st
  else
    {| currentSlide := currentSlide st;
       autoplayInterval := Some (nextHandle st);
       touchStartX := touchStartX st;
       intervals := intervals st ++ [(nextHandle st, totalSlides)];
       nextHandle := nextHandle st + 1 |}.

(** [if (autoplayInterval) { clearInterval(autoplayInterval); autoplayInterval = null; }] *)
Definition clearAutoplay (st : state) : state :=
  match autoplayInterval st with
  | Some h =>
      if isSet (Some h)
      then {| currentSlide := currentSlide st;
              autoplayInterval := None;
              touchStartX := touchStartX st;
              intervals := List.filter (fun i => negb (fst i =? h)) (intervals st);
              nextHandle := nextHandle st |}
      else st
  | None => st
  end.

Definition resetAutoplay (totalSlides : Z) (st : state) : state :=
  startAutoplay totalSlides (clearAutoplay st).

Definition handleSwipe (totalSlides : Z) (startX endX : Q) (st : state) : state :=
  let threshold := 50%Q in
  let diff := fsub startX endX in
  let st' :=
    if negb (Qle_bool diff threshold) then goToSlide (nextIndex totalSlides st) st
    else if negb (Qle_bool (- threshold) diff) then goToSlide (prevIndex totalSlides st) st
    else st in
  resetAutoplay totalSlides st'.

Definition destroyCarousel (st : state) : state :=
  let st' := clearAutoplay st in
  {| currentSlide := 0;
     autoplayInterval := autoplayInterval st';
     touchStartX := touchStartX st';
     intervals := intervals st';
     nextHandle := nextHandle st' |}.

(** [initCarousel]: the state it leaves; its listeners are [dispatch]. *)
Definition initCarousel (totalSlides : Z) (st : state) : state :=
  startAutoplay totalSlides
    {| currentSlide := 0;
       autoplayInterval := autoplayInterval st;
       touchStartX := 0;
       intervals := intervals st;
       nextHandle := nextHandle st |}.

(** The listeners that [initCarousel] installs, and the callback of the
    interval, which runs only while its interval does. *)
Definition dispatch (totalSlides : Z) (st : state) (e : event) : state :=
  match e with
  | PrevClick => resetAutoplay totalSlides (goToSlide (prevIndex totalSlides st) st)
  | NextClick => resetAutoplay totalSlides (goToSlide (nextIndex totalSlides st) st)
  | DotClick index => resetAutoplay totalSlides (goToSlide index st)
  | KeyDown key =>
      if streq key (lit "ArrowLeft")
      then resetAutoplay totalSlides (goToSlide (prevIndex totalSlides st) st)
      else if streq key (lit "ArrowRight")
      then resetAutoplay totalSlides (goToSlide (nextIndex totalSlides st) st)
      else st
  | TouchStart screenX =>
      {| currentSlide := currentSlide st;
         autoplayInterval := autoplayInterval st;
         touchStartX := screenX;
         intervals := intervals st;
         nextHandle := nextHandle st |}
  | TouchEnd screenX => handleSwipe totalSlides (touchStartX st) screenX st
  | MouseEnter => clearAutoplay st
  | MouseLeave => startAutoplay totalSlides st
  | Timer handle =>
      match List.find (fun i => fst i =? handle) (intervals st) with
      | Some (_, captured) => goToSlide (nextIndex captured st) st
      | None => st
      end
  end.

(** The state after a sequence of events. *)
Definition run (totalSlides : Z) (events : list event) (st : state) : state :=
  fold_left (dispatch totalSlides) events st.

(** A dot carries the index of a slide. *)
Definition wellFormed (totalSlides : Z) (e : event) : Prop :=
  match e with
  | DotClick index => 0 <= index < totalSlides
  | _ => True
  end.

(** The slide shown exists, and the only interval running is the one the
    module remembers, whose callback counts modulo [totalSlides]. *)
Definition consistent (totalSlides : Z) (st : state) : Prop :=
  0 <= currentSlide st < totalSlides /\
  0 < nextHandle st /\
  match autoplayInterval st with
  | Some h => 0 < h < nextHandle st /\ intervals st = [(h, totalSlides)]
  | None => intervals st = []
  end.

End Carousel.

(** ** Vocabulary of the further properties *)

(** The keys never increase along the list. *)
Fixpoint descending {A : Type} (key : A -> nat) (l : list A) : Prop :=
  match l with
  | [] => True
  | x :: l' => Forall (fun y => (key y <= key x)%nat) l' /\ descending key l'
  end.

(** How many elements of [l] are the string [s]. *)
Definition occurrences (s : jsstring) (l : list jsstring) : nat :=
  length (List.filter (streq s) l).

(** A counter read through [obj[key]], after [n] more increments. *)
Definition counted (before : option nat) (n : nat) : option nat :=
  match n with
  | O => before
  | S m => Some (default 0%nat before + S m)%nat
  end.

(** The normalised names of all the pizzas answered, in the order of the rows. *)
Definition pizzaNames (host : Host) (data : list Row) : list jsstring :=
  flat_map
    (fun row => map (normalizePizzaName host) (pizzasOf (getValue host row Field.pizzaType)))
    data.

(** No pizza answered is counted under the name of a member of
    [Object.prototype]: every counter of the popularity is a number. *)
Definition numericKeys (host : Host) (data : list Row) : Prop :=
  Forall (fun name => inherited name = false) (pizzaNames host data).

(** The words kept from all the one-word answers, in the order of the rows. *)
Definition cloudWords (host : Host) (data : list Row) : list jsstring :=
  flat_map
    (fun row =>
       let value := getValue host row Field.oneWord in
       if truthy value then wordListOf host value else [])
    data.

(** The answers to the one-word question with each word kept from them, in
    the order of the rows. *)
Definition cloudPairs (host : Host) (data : list Row) : list (jsstring * jsstring) :=
  flat_map
    (fun row =>
       let value := getValue host row Field.oneWord in
       if truthy value then map (pair value) (wordListOf host value) else [])
    data.

(** The word of such a pair is the key it is grouped under. *)
Definition wordOf (answer : jsstring * jsstring) : option jsstring := Some (snd answer).

(** The non-empty feeling answers, lower-cased and trimmed. *)
Definition feelingKeys (host : Host) (data : list Row) : list jsstring :=
  map (fun value => trim (toLowerCase host value))
    (List.filter truthy (map (fun row => getValue host row Field.feeling) data)).

(** The key a feeling answer is grouped under; an empty answer has none. *)
Definition feelingKey (host : Host) (value : jsstring) : option jsstring :=
  if truthy value then Some (trim (toLowerCase host value)) else None.

(** The keys that are not names of members of [Object.prototype]. *)
Definition ownKeys (keys : list jsstring) : list jsstring :=
  List.filter (fun key => negb (inherited key)) keys.

(** The first element of a list that is grouped under a key. *)
Definition firstWith {X : Type} (keyOf : X -> option jsstring) (key : jsstring)
  (xs : list X) : option X :=
  List.find
    (fun x => match keyOf x with
              | Some k => streq k key
              | None => false
              end)
    xs.

#[global] Instance orderAgainCategory_eq_dec : EqDecision orderAgainCategory.
Proof. solve_decision. Defined.

#[global] Instance tierCategory_eq_dec : EqDecision tierCategory.
Proof. solve_decision. Defined.

#[global] Instance coldPizzaCategory_eq_dec : EqDecision coldPizzaCategory.
Proof. solve_decision. Defined.

(** How many rows hold a non-empty answer that the rules send to [category]. *)
Definition answers {C : Type} `{EqDecision C} (host : Host) (field : Field.t)
  (categoryRules : list (C * list jsstring)) (category : C) (data : list Row) : nat :=
  length
    (List.filter
       (fun row =>
          let value := getValue host row field in
          truthy value && bool_decide (classify host categoryRules value = Some category))
       data).

(** A tier item without its icon. *)
Definition withoutIcon (i : Tiers.item) : jsstring * nat * number * jsstring :=
  (Tiers.name i, Tiers.count i, Tiers.percentage i, Tiers.color i).

(** What a visitor of the share link sees, for what the sender saw. *)
Definition received (data : Shown.t) : Shown.t :=
  expandMinifiedData (minifyDataForSharing data).

(** Every percentage of a page is well formed against the total of its own
    block. *)
Definition shownPercentagesWellFormed (page : Shown.t) : Prop :=
  let oa := Shown.orderAgain page in
  isPercentage (OrderAgain.percentage (OrderAgain.yes oa))
    (OrderAgain.count (OrderAgain.yes oa)) (OrderAgain.total oa) /\
  isPercentage (OrderAgain.percentage (OrderAgain.meh oa))
    (OrderAgain.count (OrderAgain.meh oa)) (OrderAgain.total oa) /\
  Forall (fun i => isPercentage (Tiers.percentage i) (Tiers.count i)
                     (Tiers.total (Shown.tiers page)))
    (Tiers.items (Shown.tiers page)) /\
  Forall (fun i => isPercentage (ColdPizza.percentage i) (ColdPizza.count i)
                     (ColdPizza.total (Shown.coldPizza page)))
    (ColdPizza.items (Shown.coldPizza page)) /\
  Forall (fun i => isPercentage (Feelings.percentage i) (Feelings.count i)
                     (Feelings.total (Shown.feelings page)))
    (Feelings.items (Shown.feelings page)).

(** The pizza info of the sample data. *)
Definition tonysPizzeria : PizzaInfo.t :=
  {| PizzaInfo.place := lit "Tony's Famous Pizzeria"; PizzaInfo.date := lit "2025-01-07" |}.

(** A height or a width that is a finite number between two bounds. *)
Definition within (low high : Q) (x : number) : Prop :=
  exists q, x = Finite q /\ (low <= q)%Q /\ (q <= high)%Q.

(** A podium to try the bar heights on. *)
Definition samplePodium : list Tiers.item :=
  [{| Tiers.name := lit "Solid Choice"; Tiers.count := 2%nat;
      Tiers.percentage := Finite 40; Tiers.icon := [55358; 56648];
      Tiers.color := lit "#C0C0C0" |};
   {| Tiers.name := lit "Top Tier"; Tiers.count := 3%nat;
      Tiers.percentage := Finite 60; Tiers.icon := [55356; 57286];
      Tiers.color := lit "#FFD700" |};
   {| Tiers.name := lit "Mid"; Tiers.count := 0%nat;
      Tiers.percentage := Finite 0; Tiers.icon := [55358; 56649];
      Tiers.color := lit "#CD7F32" |}].

(** How many of the ratings [Math.round] sends to the bucket [k]. *)
Definition roundedTo (k : Z) (ratings : list Q) : nat :=
  length (List.filter (fun r => roundZ r =? k) ratings).

(** The whole number a percentage holds. *)
Definition percentValue (p : number) : Z :=
  match p with
  | Finite q => Qfloor q
  | _ => 0
  end.

(** The time values of the rows whose timestamp the host can parse. *)
Definition timestampsOf (host : Host) (data : list Row) : list Z :=
  omap (dateParse host)
    (List.filter truthy (map (fun row => getValue host row Field.timestamp) data)).

(** * Properties *)

(** ** Rounding to a double *)

Lemma p2_pos e : (0 < 2 ^ e)%Q.
Proof. apply Qpower_0_lt. reflexivity. Qed.

Lemma p2_add a b : (2 ^ (a + b) == 2 ^ a * 2 ^ b)%Q.
Proof. apply Qpower_plus. discriminate. Qed.

Lemma p2_le a b : a <= b -> (2 ^ a <= 2 ^ b)%Q.
Proof. intros H. apply Qpower_le_compat_l; [exact H | discriminate]. Qed.

Lemma p2_lt_inv a b : (2 ^ a < 2 ^ b)%Q -> a < b.
Proof.
  intros H. destruct (Z_lt_le_dec a b) as [Hlt | Hge]; [exact Hlt |].
  exfalso. apply (Qlt_not_le _ _ H). now apply p2_le.
Qed.

Lemma p2_Z n : 0 <= n -> (inject_Z (2 ^ n) == 2 ^ n)%Q.
Proof. intros H. now rewrite Zpower_Qpower. Qed.

Lemma ilog2_spec x : (0 < x)%Q -> (2 ^ ilog2 x <= x)%Q /\ (x < 2 ^ (ilog2 x + 1))%Q.
Proof.
  intros Hx. destruct x as [n d].
  assert (Hn : 0 < n) by (unfold Qlt in Hx; simpl in Hx; lia).
  unfold ilog2; simpl Qnum; simpl Qden.
  set (a := Z.log2 n). set (b := Z.log2 (Z.pos d)).
  assert (Ha : 0 <= a) by apply Z.log2_nonneg.
  assert (Hb : 0 <= b) by apply Z.log2_nonneg.
  destruct (Z.log2_spec n Hn) as [Ha1 Ha2]. fold a in Ha1, Ha2.
  destruct (Z.log2_spec (Z.pos d) eq_refl) as [Hb1 Hb2]. fold b in Hb1, Hb2.
  assert (Hd : (0 < inject_Z (Z.pos d))%Q) by reflexivity.
  assert (Hup : (n # d < 2 ^ (a - b + 1))%Q).
  { rewrite (Qmake_Qdiv n d). apply Qlt_shift_div_r; [exact Hd |].
    apply Qlt_le_trans with (2 ^ (a - b + 1) * 2 ^ b)%Q.
    - rewrite <- p2_add. replace (a - b + 1 + b) with (Z.succ a) by lia.
      rewrite <- p2_Z by lia. rewrite <- Zlt_Qlt. exact Ha2.
    - apply Qmult_le_l; [apply p2_pos |].
      rewrite <- p2_Z by lia. rewrite <- Zle_Qle. exact Hb1. }
  assert (Hlo : (2 ^ (a - b - 1) <= n # d)%Q).
  { rewrite (Qmake_Qdiv n d). apply Qle_shift_div_l; [exact Hd |].
    apply Qle_trans with (2 ^ (a - b - 1) * 2 ^ (b + 1))%Q.
    - apply Qmult_le_l; [apply p2_pos |].
      rewrite <- p2_Z by lia. rewrite <- Zle_Qle. lia.
    - rewrite <- p2_add. replace (a - b - 1 + (b + 1)) with a by lia.
      rewrite <- p2_Z by lia. rewrite <- Zle_Qle. exact Ha1. }
  destruct (Qle_bool (2 ^ (a - b)) (n # d)) eqn:E.
  - apply Qle_bool_iff in E. split; [exact E | exact Hup].
  - split; [exact Hlo |].
    replace (a - b - 1 + 1) with (a - b) by lia.
    apply Qnot_le_lt. intros H. apply Qle_bool_iff in H. congruence.
Qed.

Lemma ilog2_unique x k : (2 ^ k <= x)%Q -> (x < 2 ^ (k + 1))%Q -> ilog2 x = k.
Proof.
  intros H1 H2.
  assert (Hx : (0 < x)%Q) by (eapply Qlt_le_trans; [apply (p2_pos k) | exact H1]).
  destruct (ilog2_spec x Hx) as [H3 H4].
  assert (ilog2 x < k + 1) by (apply p2_lt_inv; eapply Qle_lt_trans; eassumption).
  assert (k < ilog2 x + 1) by (apply p2_lt_inv; eapply Qle_lt_trans; eassumption).
  lia.
Qed.

Lemma ilog2_mono x y : (0 < x)%Q -> (x <= y)%Q -> ilog2 x <= ilog2 y.
Proof.
  intros Hx Hxy.
  assert (Hy : (0 < y)%Q) by (eapply Qlt_le_trans; eassumption).
  destruct (ilog2_spec x Hx) as [H1 _]. destruct (ilog2_spec y Hy) as [_ H2].
  assert (ilog2 x < ilog2 y + 1); [| lia].
  apply p2_lt_inv. eapply Qle_lt_trans; [exact H1 |]. eapply Qle_lt_trans; eassumption.
Qed.

Lemma rne_Z z : rne (inject_Z z) = z.
Proof.
  unfold rne. rewrite Qfloor_Z.
  assert (E : (inject_Z z - inject_Z z == 0)%Q) by ring.
  rewrite E. reflexivity.
Qed.

Lemma rne_eq x y : (x == y)%Q -> rne x = rne y.
Proof.
  intros E. unfold rne. cbv zeta.
  rewrite (Qfloor_comp x y E).
  rewrite (Qcompare_comp (x - inject_Z (Qfloor y))%Q (y - inject_Z (Qfloor y))%Q
             ltac:(now rewrite E) (1 # 2)%Q (1 # 2)%Q ltac:(reflexivity)).
  reflexivity.
Qed.

Lemma rne_floor x : Qfloor x <= rne x <= Qfloor x + 1.
Proof.
  unfold rne. destruct (x - inject_Z (Qfloor x) ?= 1 # 2)%Q; [destruct (Z.even _) | |]; lia.
Qed.

Lemma rne_mono x y : (x <= y)%Q -> rne x <= rne y.
Proof.
  intros Hxy. pose proof (Qfloor_resp_le _ _ Hxy) as Hf.
  pose proof (rne_floor x) as Bx. pose proof (rne_floor y) as By.
  destruct (Z.eq_dec (Qfloor x) (Qfloor y)) as [E | NE]; [| lia].
  assert (Hfr : (x - inject_Z (Qfloor x) <= y - inject_Z (Qfloor y))%Q).
  { rewrite E. apply Qplus_le_compat; [exact Hxy | apply Qle_refl]. }
  unfold rne in *. rewrite <- E in *.
  destruct (Qcompare_spec (x - inject_Z (Qfloor x)) (1 # 2)) as [Ex | Lx | Gx];
  destruct (Qcompare_spec (y - inject_Z (Qfloor x)) (1 # 2)) as [Ey | Ly | Gy];
  try destruct (Z.even (Qfloor x)); try lia; exfalso; lra.
Qed.

Lemma round53_pos_eq x :
  (0 < x)%Q -> (round53 x == inject_Z (rne (x / 2 ^ exponent x)) * 2 ^ exponent x)%Q.
Proof.
  intros Hx. unfold round53.
  apply Qgt_alt in Hx. rewrite Hx. apply Qred_correct.
Qed.

Lemma scaled_range x :
  (0 < x)%Q ->
  (inject_Z (2 ^ 52) <= x / 2 ^ exponent x)%Q /\
  (x / 2 ^ exponent x <= inject_Z (2 ^ 53))%Q.
Proof.
  intros Hx. destruct (ilog2_spec x Hx) as [H1 H2].
  unfold exponent. set (k := ilog2 x) in *.
  rewrite !p2_Z by lia. split.
  - apply Qle_shift_div_l; [apply p2_pos |].
    rewrite <- p2_add. replace (52 + (k - 52)) with k by lia. exact H1.
  - apply Qle_shift_div_r; [apply p2_pos |].
    rewrite <- p2_add. replace (53 + (k - 52)) with (k + 1) by lia.
    apply Qlt_le_weak, H2.
Qed.

Lemma round53_binade x :
  (0 < x)%Q -> (2 ^ ilog2 x <= round53 x)%Q /\ (round53 x <= 2 ^ (ilog2 x + 1))%Q.
Proof.
  intros Hx. rewrite (round53_pos_eq x Hx).
  destruct (scaled_range x Hx) as [H1 H2].
  apply rne_mono in H1, H2. rewrite rne_Z in H1, H2.
  unfold exponent in *. set (k := ilog2 x) in *. set (m := rne _) in *.
  split.
  - replace k with (52 + (k - 52)) at 1 by lia. rewrite p2_add.
    apply Qmult_le_r; [apply p2_pos |].
    rewrite <- p2_Z by lia. rewrite <- Zle_Qle. exact H1.
  - replace (k + 1) with (53 + (k - 52)) by lia. rewrite p2_add.
    apply Qmult_le_r; [apply p2_pos |].
    rewrite <- p2_Z by lia. rewrite <- Zle_Qle. exact H2.
Qed.

Lemma round53_0 : round53 0 = 0%Q.
Proof. reflexivity. Qed.

Lemma round53_pos x : (0 < x)%Q -> (0 < round53 x)%Q.
Proof.
  intros Hx. eapply Qlt_le_trans; [apply (p2_pos (ilog2 x)) | apply round53_binade, Hx].
Qed.

Lemma round53_mono x y : (0 <= x)%Q -> (x <= y)%Q -> (round53 x <= round53 y)%Q.
Proof.
  intros Hx Hxy.
  destruct (Qcompare_spec x 0) as [E | L | G].
  - assert (Hr : round53 x = 0%Q) by (unfold round53; apply Qeq_alt in E; now rewrite E).
    rewrite Hr. destruct (Qcompare_spec y 0) as [Ey | Ly | Gy].
    + unfold round53. apply Qeq_alt in Ey. rewrite Ey. apply Qle_refl.
    + lra.
    + apply Qlt_le_weak, round53_pos, Gy.
  - lra.
  - assert (Gy : (0 < y)%Q) by lra.
    pose proof (ilog2_mono x y G Hxy) as Hk.
    destruct (Z.eq_dec (ilog2 x) (ilog2 y)) as [Ek | Nk].
    + rewrite (round53_pos_eq x G), (round53_pos_eq y Gy). unfold exponent. rewrite Ek.
      apply Qmult_le_r; [apply p2_pos |].
      rewrite <- Zle_Qle. apply rne_mono.
      apply Qmult_le_r; [apply Qinv_lt_0_compat, p2_pos | exact Hxy].
    + destruct (round53_binade x G) as [_ Hux]. destruct (round53_binade y Gy) as [Hly _].
      eapply Qle_trans; [exact Hux |]. eapply Qle_trans; [| exact Hly].
      apply p2_le. lia.
Qed.

Lemma round53_Z n : 0 <= n < 2 ^ 53 -> round53 (inject_Z n) = inject_Z n.
Proof.
  intros [Hn0 Hn].
  destruct (Z.eq_dec n 0) as [-> | Hnz]; [reflexivity |].
  assert (Hx : (0 < inject_Z n)%Q) by (change 0%Q with (inject_Z 0); rewrite <- Zlt_Qlt; lia).
  destruct (ilog2_spec _ Hx) as [H1 _].
  set (k := ilog2 (inject_Z n)) in *.
  assert (Hk : k < 53).
  { apply p2_lt_inv. eapply Qle_lt_trans; [exact H1 |].
    rewrite <- p2_Z by lia. rewrite <- Zlt_Qlt. exact Hn. }
  assert (Hs : (inject_Z n / 2 ^ (k - 52) == inject_Z (n * 2 ^ (52 - k)))%Q).
  { rewrite inject_Z_mult, p2_Z by lia.
    replace (52 - k) with (- (k - 52)) by lia. rewrite Qpower_opp. reflexivity. }
  unfold round53, exponent. apply Qgt_alt in Hx. rewrite Hx. fold k.
  transitivity (Qred (inject_Z n)); [| apply Qred_identity; simpl; apply Z.gcd_1_r].
  apply Qred_complete. rewrite (rne_eq _ _ Hs), rne_Z, inject_Z_mult, p2_Z by lia.
  rewrite <- Qmult_assoc, <- p2_add. replace (52 - k + (k - 52)) with 0 by lia.
  simpl. ring.
Qed.

Lemma round53_between a b x :
  0 <= a -> b < 2 ^ 53 -> (inject_Z a <= x)%Q -> (x <= inject_Z b)%Q ->
  (inject_Z a <= round53 x)%Q /\ (round53 x <= inject_Z b)%Q.
Proof.
  intros Ha Hb H1 H2.
  assert (Hab : a <= b) by (rewrite Zle_Qle; lra).
  assert (H0 : (0 <= inject_Z a)%Q)
    by (change 0%Q with (inject_Z 0); rewrite <- Zle_Qle; exact Ha).
  split.
  - rewrite <- (round53_Z a) by lia. apply round53_mono; assumption.
  - rewrite <- (round53_Z b) by lia. apply round53_mono; [lra | assumption].
Qed.

(** On every part of every whole up to 64 the rounded quotient, its
    scaling by 100 and a rounded sum are the doubles the Standard Library's
    specification of binary64 computes. *)
Example round53_agrees_with_binary64 :
  forallb (fun p => agreesOn (fst p) (snd p)) (partsUpTo 64) = true.
Proof. vm_compute. reflexivity. Qed.

Lemma ofNat_nonneg n : (0 <= ofNat n)%Q.
Proof.
  unfold ofNat. change 0%Q with (inject_Z 0). rewrite <- Zle_Qle. lia.
Qed.

Lemma ofNat_pos n : (0 < n)%nat -> (0 < ofNat n)%Q.
Proof.
  intros H. unfold ofNat. change 0%Q with (inject_Z 0). rewrite <- Zlt_Qlt. lia.
Qed.

Lemma ofNat_le m n : (m <= n)%nat -> (ofNat m <= ofNat n)%Q.
Proof. intros H. unfold ofNat. rewrite <- Zle_Qle. lia. Qed.

Lemma roundZ_between a b x :
  (inject_Z a <= x)%Q -> (x <= inject_Z b)%Q -> a <= roundZ x <= b.
Proof.
  intros H1 H2. unfold roundZ. split.
  - rewrite <- (Qfloor_Z a). apply Qfloor_resp_le. lra.
  - assert (H : Qfloor (x + (1 # 2)) < b + 1); [| lia].
    rewrite Zlt_Qlt. eapply Qle_lt_trans; [apply Qfloor_le |].
    rewrite inject_Z_plus. change (inject_Z 1) with 1%Q. lra.
Qed.

(** A quotient of a part by its whole rounds into [0,1]. *)
Lemma fdiv_part_whole c t :
  (0 < t)%nat -> (c <= t)%nat ->
  (0 <= fdiv (ofNat c) (ofNat t))%Q /\ (fdiv (ofNat c) (ofNat t) <= 1)%Q.
Proof.
  intros Ht Hc. pose proof (ofNat_pos t Ht) as Hp.
  pose proof (ofNat_nonneg c) as Hc0. pose proof (ofNat_le c t Hc) as Hle.
  unfold fdiv. apply (round53_between 0 1); [lia | reflexivity | |].
  - change (inject_Z 0) with 0%Q. apply Qle_shift_div_l; [exact Hp | lra].
  - change (inject_Z 1) with 1%Q. apply Qle_shift_div_r; [exact Hp | lra].
Qed.

Lemma percent_value c t :
  (0 < t)%nat ->
  percent c t = Finite (inject_Z (roundZ (fmul (fdiv (ofNat c) (ofNat t)) 100))).
Proof.
  intros Ht. unfold percent, ndiv.
  assert (E : Qeq_bool (ofNat t) 0 = false).
  { apply not_true_is_false. intros H. apply Qeq_bool_iff in H.
    pose proof (ofNat_pos t Ht). lra. }
  rewrite E. reflexivity.
Qed.

Lemma percent_range c t :
  (0 < t)%nat -> (c <= t)%nat ->
  0 <= roundZ (fmul (fdiv (ofNat c) (ofNat t)) 100) <= 100.
Proof.
  intros Ht Hc. destruct (fdiv_part_whole c t Ht Hc) as [H0 H1].
  apply roundZ_between; unfold fmul;
    apply (round53_between 0 100); try lia; try reflexivity;
    try (change (inject_Z 0) with 0%Q; lra);
    change (inject_Z 100) with 100%Q; lra.
Qed.

Lemma percent_isPercentage c t :
  (0 < t)%nat -> (c <= t)%nat -> isPercentage (percent c t) c t.
Proof.
  intros Ht Hc. exists (roundZ (fmul (fdiv (ofNat c) (ofNat t)) 100)).
  split; [apply percent_value, Ht |].
  split; [apply percent_range; assumption |].
  split; [lia | reflexivity].
Qed.

Lemma guardedPercent_isPercentage c t :
  (c <= t)%nat -> isPercentage (guardedPercent c t) c t.
Proof.
  intros Hc. unfold guardedPercent. destruct (0 <? t)%nat eqn:E.
  - apply Nat.ltb_lt in E. destruct (percent_isPercentage c t E Hc) as (z & Hz & Hr & H0 & Hp).
    exists z. repeat split; try assumption; try lia.
  - apply Nat.ltb_ge in E. exists 0. repeat split; try lia.
Qed.

(** ** Strings, arrays and dictionaries *)

Lemma streq_spec s t : streq s t = true <-> s = t.
Proof.
  revert t. induction s as [| c s IH]; intros [| d t]; simpl; try (split; congruence).
  rewrite andb_true_iff, Z.eqb_eq, IH. split.
  - intros [-> ->]. reflexivity.
  - intros E. injection E as -> ->. split; reflexivity.
Qed.

Lemma streq_refl s : streq s s = true.
Proof. apply streq_spec. reflexivity. Qed.

Lemma assoc_In {V : Type} key (obj : list (jsstring * V)) v :
  assoc key obj = Some v -> In (key, v) obj.
Proof.
  induction obj as [| [k w] obj IH]; simpl; [discriminate |].
  destruct (streq k key) eqn:E.
  - apply streq_spec in E. intros [= ->]. left. now subst.
  - intros H. right. apply IH, H.
Qed.

Lemma alterAssoc_Forall {V : Type} (P : V -> Prop) f key (obj : list (jsstring * V)) :
  (forall v, P v -> P (f v)) ->
  Forall (fun e => P (snd e)) obj -> Forall (fun e => P (snd e)) (alterAssoc f key obj).
Proof.
  intros Hf. induction 1 as [| [k v] obj Hv Hobj IH]; simpl; [constructor |].
  destruct (streq k key); constructor; simpl in *; auto.
Qed.

Lemma alterAssoc_fresh {V : Type} f key (obj : list (jsstring * V)) v :
  assoc key obj = None -> alterAssoc f key (obj ++ [(key, v)]) = obj ++ [(key, f v)].
Proof.
  induction obj as [| [k w] obj IH]; simpl.
  - intros _. now rewrite streq_refl.
  - destruct (streq k key); [discriminate |]. intros H. now rewrite IH.
Qed.

Lemma insertDesc_perm {A : Type} (key : A -> nat) x l : insertDesc key x l ≡ₚ x :: l.
Proof.
  induction l as [| y l IH]; simpl; [reflexivity |].
  destruct (key x <? key y)%nat; [| reflexivity].
  rewrite IH. apply perm_swap.
Qed.

Lemma sortDesc_perm {A : Type} (key : A -> nat) l : sortDesc key l ≡ₚ l.
Proof.
  induction l as [| x l IH]; simpl; [reflexivity |].
  rewrite insertDesc_perm. now rewrite IH.
Qed.

Lemma omap_cons {A B : Type} (f : A -> option B) x l :
  omap f (x :: l) = match f x with Some y => y :: omap f l | None => omap f l end.
Proof. reflexivity. Qed.

Lemma insertAsc_perm {A : Type} (key : A -> Z) x l : insertAsc key x l ≡ₚ x :: l.
Proof.
  induction l as [| y l IH]; simpl; [reflexivity |].
  destruct (key y <=? key x); [| reflexivity].
  rewrite IH. apply perm_swap.
Qed.

Lemma sortAsc_perm {A : Type} (key : A -> Z) l : sortAsc key l ≡ₚ l.
Proof.
  induction l as [| x l IH]; simpl; [reflexivity |].
  rewrite insertAsc_perm. now rewrite IH.
Qed.

Lemma filter_partition {A : Type} (p : A -> bool) l :
  List.filter p l ++ List.filter (fun x => negb (p x)) l ≡ₚ l.
Proof.
  induction l as [| x l IH]; simpl; [reflexivity |].
  destruct (p x); simpl.
  - now rewrite IH.
  - rewrite <- Permutation_middle. now rewrite IH.
Qed.

(** [Object.entries] lists every own property once. *)
Lemma entries_perm {V : Type} (obj : list (jsstring * V)) : entries obj ≡ₚ obj.
Proof.
  unfold entries. rewrite sortAsc_perm.
  apply (filter_partition (fun e => isArrayIndex (fst e))).
Qed.

Lemma fold_left_sum {A : Type} (g : A -> nat) l a :
  fold_left (fun sum x => (sum + g x)%nat) l a = (a + sum_list_with g l)%nat.
Proof.
  revert a. induction l as [| x l IH]; intros a; simpl; [lia |].
  rewrite IH. lia.
Qed.

(** A [forEach] whose body reads the row only through one cell. *)
Lemma fold_left_cells {A : Type} (step : A -> jsstring -> A) (cell : Row -> jsstring)
  (data : list Row) init :
  fold_left (fun acc row => step acc (cell row)) data init
  = fold_left step (map cell data) init.
Proof.
  revert init. induction data as [| row data IH]; intros init; simpl; [reflexivity |].
  apply IH.
Qed.

(** ** Percentages *)

Lemma processOrderAgain_percentages host data :
  let oa := processOrderAgain host data in
  isPercentage (OrderAgain.percentage (OrderAgain.yes oa))
    (OrderAgain.count (OrderAgain.yes oa)) (OrderAgain.total oa) /\
  isPercentage (OrderAgain.percentage (OrderAgain.meh oa))
    (OrderAgain.count (OrderAgain.meh oa)) (OrderAgain.total oa).
Proof.
  unfold processOrderAgain.
  destruct (fold_left _ data _) as [yes meh]. simpl.
  split; apply guardedPercent_isPercentage; lia.
Qed.

Lemma processTiers_percentages host data :
  Forall (fun i => isPercentage (Tiers.percentage i) (Tiers.count i)
                     (Tiers.total (processTiers host data)))
    (Tiers.items (processTiers host data)).
Proof.
  unfold processTiers.
  destruct (fold_left _ data _) as [[top solid] mid]. simpl.
  repeat constructor; simpl; apply guardedPercent_isPercentage; lia.
Qed.

Lemma processColdPizza_percentages host data :
  Forall (fun i => isPercentage (ColdPizza.percentage i) (ColdPizza.count i)
                     (ColdPizza.total (processColdPizza host data)))
    (ColdPizza.items (processColdPizza host data)).
Proof.
  unfold processColdPizza.
  destruct (fold_left _ data _) as [[leftovers desperate] never]. simpl.
  repeat constructor; simpl; apply guardedPercent_isPercentage; lia.
Qed.

(** Every entry of the feelings dictionary has been counted at least once. *)
Lemma feelingsStep_counted host feelings value :
  Forall (fun e => (1 <= Feelings.entryCount (snd e))%nat) feelings ->
  Forall (fun e => (1 <= Feelings.entryCount (snd e))%nat) (feelingsStep host feelings value).
Proof.
  intros H. unfold feelingsStep. destruct (truthy value); [| exact H].
  destruct (assoc _ feelings) eqn:E.
  - apply (alterAssoc_Forall (fun f => (1 <= Feelings.entryCount f)%nat)); [| exact H].
    intros v Hv. simpl. lia.
  - destruct (inherited _).
    + apply (alterAssoc_Forall (fun f => (1 <= Feelings.entryCount f)%nat)); [| exact H].
      intros v Hv. simpl. lia.
    + rewrite alterAssoc_fresh by exact E.
      apply Forall_app. split; [exact H |]. constructor; [simpl; lia | constructor].
Qed.

Lemma feelings_counted host values feelings :
  Forall (fun e => (1 <= Feelings.entryCount (snd e))%nat) feelings ->
  Forall (fun e => (1 <= Feelings.entryCount (snd e))%nat)
    (fold_left (feelingsStep host) values feelings).
Proof.
  revert feelings. induction values as [| v values IH]; intros feelings H; simpl; [exact H |].
  apply IH, feelingsStep_counted, H.
Qed.

Lemma processFeelings_percentages host data :
  Forall (fun i => isPercentage (Feelings.percentage i) (Feelings.count i)
                     (Feelings.total (processFeelings host data)))
    (Feelings.items (processFeelings host data)).
Proof.
  unfold processFeelings. simpl.
  rewrite sortDesc_perm, fold_left_cells, fold_left_sum. simpl.
  set (dict := fold_left (feelingsStep host) _ []).
  assert (Hc : Forall (fun e => (1 <= Feelings.entryCount (snd e))%nat) (entries dict)).
  { rewrite entries_perm. apply feelings_counted; constructor. }
  rewrite Forall_map, Forall_map. rewrite Forall_forall in *.
  intros e He. simpl.
  assert (Hle : (Feelings.entryCount (snd e)
                 <= sum_list_with Feelings.entryCount (map snd (entries dict)))%nat).
  { apply (sum_list_with_in (snd e) Feelings.entryCount).
    apply list_elem_of_In, in_map, list_elem_of_In, He. }
  specialize (Hc e He). apply percent_isPercentage; lia.
Qed.

(** ** Ratings *)

Lemma retained_parsesInRange value :
  is_Some (retained (parseFloat value)) <-> parsesInRange value = true.
Proof.
  unfold retained, parsesInRange. destruct (parseFloat value) as [| s | q].
  - split; [intros [x H]; discriminate | discriminate].
  - split; [intros [x H]; discriminate | discriminate].
  - destruct (Qle_bool 1 q && Qle_bool q 10).
    + split; [reflexivity | eauto].
    + split; [intros [x H]; discriminate | discriminate].
Qed.

Lemma retained_range r q : retained r = Some q -> (1 <= q)%Q /\ (q <= 10)%Q.
Proof.
  unfold retained. destruct r as [| s | q']; try discriminate.
  destruct (Qle_bool 1 q' && Qle_bool q' 10) eqn:E; [| discriminate].
  intros [= ->]. apply andb_true_iff in E. destruct E as [E1 E2].
  split; now apply Qle_bool_iff.
Qed.

Lemma ratingsOf_range host data :
  Forall (fun q => (1 <= q)%Q /\ (q <= 10)%Q) (ratingsOf host data).
Proof.
  unfold ratingsOf. induction data as [| row data IH]; simpl; [constructor |].
  destruct (retained _) eqn:E; simpl; [| exact IH].
  constructor; [apply (retained_range _ _ E) | exact IH].
Qed.

Lemma ratingsOf_length host data :
  length (ratingsOf host data)
  = length (List.filter (fun row => parsesInRange (getValue host row Field.rating)) data).
Proof.
  unfold ratingsOf. induction data as [| row data IH]; simpl; [reflexivity |].
  pose proof (retained_parsesInRange (getValue host row Field.rating)) as H.
  destruct (retained _) eqn:E; destruct (parsesInRange _) eqn:F; simpl.
  - f_equal. exact IH.
  - destruct H as [H _]. discriminate H. eauto.
  - destruct H as [_ H]. destruct H as [x H]; [reflexivity | discriminate].
  - exact IH.
Qed.

Lemma filter_length_le {A : Type} (p : A -> bool) l : (length (List.filter p l) <= length l)%nat.
Proof.
  induction l as [| x l IH]; simpl; [lia |]. destruct (p x); simpl; lia.
Qed.

(** The running sum of [k] retained ratings lies between [k] and [10 k]. *)
Lemma sum_range ratings : forall acc k,
  Forall (fun q => (1 <= q)%Q /\ (q <= 10)%Q) ratings ->
  0 <= k -> 10 * (k + Z.of_nat (length ratings)) < 2 ^ 53 ->
  (inject_Z k <= acc)%Q -> (acc <= inject_Z (10 * k))%Q ->
  (inject_Z (k + Z.of_nat (length ratings)) <= fold_left fadd ratings acc)%Q /\
  (fold_left fadd ratings acc <= inject_Z (10 * (k + Z.of_nat (length ratings))))%Q.
Proof.
  induction ratings as [| q ratings IH]; intros acc k Hall Hk Hn Hlo Hhi.
  - cbn [length fold_left Z.of_nat]. rewrite Z.add_0_r. split; assumption.
  - apply Forall_cons in Hall. destruct Hall as [[Hq1 Hq10] Hall].
    simpl fold_left. rewrite length_cons in *.
    replace (k + Z.of_nat (S (length ratings)))
      with (k + 1 + Z.of_nat (length ratings)) in * by lia.
    assert (Hb : (inject_Z (k + 1) <= fadd acc q)%Q /\ (fadd acc q <= inject_Z (10 * (k + 1)))%Q).
    { unfold fadd. apply round53_between; [lia | lia | |].
      - rewrite inject_Z_plus. change (inject_Z 1) with 1%Q. lra.
      - replace (10 * (k + 1)) with (10 * k + 10) by lia.
        rewrite inject_Z_plus. change (inject_Z 10) with 10%Q. lra. }
    destruct Hb as [Hb1 Hb2]. apply IH; try assumption; lia.
Qed.

Lemma average_range s n :
  0 < n -> 10 * n < 2 ^ 53 ->
  (inject_Z n <= s)%Q -> (s <= inject_Z (10 * n))%Q ->
  let average := fdiv s (inject_Z n) in
  (1 <= fdiv (inject_Z (roundZ (fmul average 10))) 10)%Q /\
  (fdiv (inject_Z (roundZ (fmul average 10))) 10 <= 10)%Q.
Proof.
  intros Hn Hb Hlo Hhi average.
  assert (Hp : (0 < inject_Z n)%Q) by (change 0%Q with (inject_Z 0); rewrite <- Zlt_Qlt; lia).
  rewrite inject_Z_mult in Hhi. change (inject_Z 10) with 10%Q in Hhi.
  assert (Ha : (inject_Z 1 <= average)%Q /\ (average <= inject_Z 10)%Q).
  { unfold average, fdiv. apply round53_between; [lia | reflexivity | |].
    - change (inject_Z 1) with 1%Q. apply Qle_shift_div_l; [exact Hp | lra].
    - change (inject_Z 10) with 10%Q. apply Qle_shift_div_r; [exact Hp | lra]. }
  destruct Ha as [Ha1 Ha2].
  change (inject_Z 1) with 1%Q in Ha1. change (inject_Z 10) with 10%Q in Ha2.
  assert (Hm : (inject_Z 10 <= fmul average 10)%Q /\ (fmul average 10 <= inject_Z 100)%Q).
  { unfold fmul. apply round53_between; [lia | reflexivity | |].
    - change (inject_Z 10) with 10%Q. lra.
    - change (inject_Z 100) with 100%Q. lra. }
  destruct Hm as [Hm1 Hm2].
  pose proof (roundZ_between 10 100 _ Hm1 Hm2) as [Hz1 Hz2].
  set (z := roundZ (fmul average 10)) in *.
  rewrite Zle_Qle in Hz1, Hz2.
  change (inject_Z 10) with 10%Q in Hz1. change (inject_Z 100) with 100%Q in Hz2.
  unfold fdiv.
  destruct (round53_between 1 10 (inject_Z z / 10)%Q) as [R1 R2]; [lia | reflexivity | | |].
  - change (inject_Z 1) with 1%Q. apply Qle_shift_div_l; [reflexivity | lra].
  - change (inject_Z 10) with 10%Q. apply Qle_shift_div_r; [reflexivity | lra].
  - split; [exact R1 | exact R2].
Qed.

Lemma bucketSum_insert_fresh (d : gmap Z nat) k v :
  d !! k = None -> bucketSum (<[k := v]> d) = (v + bucketSum d)%nat.
Proof.
  intros H. unfold bucketSum. apply map_fold_insert_L; [| exact H].
  intros. lia.
Qed.

Lemma bucketSum_tally (d : gmap Z nat) r : bucketSum (tally d r) = S (bucketSum d).
Proof.
  unfold tally. set (k := roundZ r). destruct (d !! k) as [v |] eqn:E; simpl.
  - rewrite <- (insert_delete_eq d).
    rewrite bucketSum_insert_fresh by apply lookup_delete_eq.
    rewrite <- (insert_delete_id d k v E) at 2.
    rewrite bucketSum_insert_fresh by apply lookup_delete_eq. lia.
  - rewrite bucketSum_insert_fresh by exact E. lia.
Qed.

Lemma bucketSum_fold ratings : forall d,
  bucketSum (fold_left tally ratings d) = (bucketSum d + length ratings)%nat.
Proof.
  induction ratings as [| r ratings IH]; intros d; simpl; [lia |].
  rewrite IH, bucketSum_tally. lia.
Qed.

Lemma bucketSum_emptyBuckets : bucketSum emptyBuckets = 0%nat.
Proof.
  unfold emptyBuckets. simpl.
  repeat (rewrite bucketSum_insert_fresh by (vm_compute; reflexivity)).
  reflexivity.
Qed.

(** ** Substrings and column resolution *)

Lemma startsWith_spec s p : startsWith s p = true <-> exists post, s = p ++ post.
Proof.
  revert s. induction p as [| c p IH]; intros s; simpl.
  - split; [intros _; exists s; reflexivity | reflexivity].
  - destruct s as [| d s].
    + split; [discriminate | intros [post H]; discriminate].
    + rewrite andb_true_iff, Z.eqb_eq, IH. split.
      * intros [-> [post ->]]. exists post. reflexivity.
      * intros [post H]. injection H as -> ->. split; [reflexivity | exists post; reflexivity].
Qed.

Lemma includes_spec s sub : includes s sub = true <-> substring sub s.
Proof.
  unfold substring. induction s as [| d s IH]; simpl.
  - rewrite orb_false_r, startsWith_spec. split.
    + intros [post H]. exists [], post. exact H.
    + intros (pre & post & H). symmetry in H.
      apply app_eq_nil in H. destruct H as [-> H].
      apply app_eq_nil in H. destruct H as [-> ->]. exists []. reflexivity.
  - rewrite orb_true_iff, IH, startsWith_spec. split.
    + intros [[post H] | (pre & post & H)].
      * exists [], post. exact H.
      * exists (d :: pre), post. simpl. now rewrite H.
    + intros (pre & post & H). destruct pre as [| e pre].
      * left. exists post. exact H.
      * right. injection H as -> ->. exists pre, post. reflexivity.
Qed.

Lemma includes_refl s : includes s s = true.
Proof. apply includes_spec. exists [], []. simpl. now rewrite app_nil_r. Qed.

Lemma columnMatches_overlaps host alias column :
  columnMatches host alias column = true <-> overlaps host alias column.
Proof.
  unfold columnMatches, overlaps. now rewrite orb_true_iff, !includes_spec.
Qed.

Lemma columnMatches_refl host column : columnMatches host column column = true.
Proof. unfold columnMatches. now rewrite includes_refl. Qed.

Lemma findColumnIn_none host keys mappings :
  (forall alias column, In alias mappings -> In column keys ->
     columnMatches host alias column = false) ->
  findColumnIn host keys mappings = None.
Proof.
  induction mappings as [| mapping rest IH]; intros H; simpl; [reflexivity |].
  destruct (List.find _ keys) as [found |] eqn:E.
  - apply find_some in E. destruct E as [Hin Hm].
    rewrite (H mapping found) in Hm; [discriminate | now left | exact Hin].
  - apply IH. intros alias column Ha Hc. apply H; [now right | exact Hc].
Qed.

Lemma findColumnIn_only host keys mappings column :
  In column keys -> In column mappings -> truthy column = true ->
  (forall other alias, In other keys -> other <> column -> In alias mappings ->
     columnMatches host alias other = false) ->
  findColumnIn host keys mappings = Some column.
Proof.
  intros Hkey Hin Htruthy Honly.
  induction mappings as [| mapping rest IH]; [destruct Hin |].
  simpl. destruct (List.find _ keys) as [found |] eqn:E.
  - apply find_some in E. destruct E as [Hfound Hm].
    assert (found = column) as ->.
    { destruct (decide (found = column)) as [Heq | Hne]; [exact Heq |].
      rewrite (Honly found mapping Hfound Hne) in Hm; [discriminate | now left]. }
    now rewrite Htruthy.
  - destruct Hin as [-> | Hin].
    + pose proof (find_none _ _ E column Hkey) as Hn.
      now rewrite columnMatches_refl in Hn.
    + apply IH; [exact Hin |].
      intros other alias Ho Hne Ha. apply Honly; [exact Ho | exact Hne | now right].
Qed.

Lemma aliases_truthy field alias : In alias (COLUMN_MAPPINGS field) -> truthy alias = true.
Proof.
  intros H.
  assert (Hall : forallb truthy (COLUMN_MAPPINGS field) = true) by (destruct field; reflexivity).
  rewrite forallb_forall in Hall. apply Hall, H.
Qed.

(** ** The categorical classifier *)

Lemma classify_first_match {C : Type} host (rules : list (C * list jsstring)) text c :
  classify host rules text = Some c <->
  exists before keywords after,
    rules = before ++ (c, keywords) :: after /\
    ruleMatches (toLowerCase host text) (c, keywords) /\
    Forall (fun rule => ~ ruleMatches (toLowerCase host text) rule) before.
Proof.
  unfold classify, ruleMatches. set (lowered := toLowerCase host text).
  induction rules as [| [c' kws] rules IH]; simpl.
  - split; [discriminate |]. intros (before & keywords & after & H & _).
    destruct before; discriminate.
  - destruct (existsb (includes lowered) kws) eqn:E; simpl.
    + split.
      * intros [= ->]. exists [], kws, rules. split; [reflexivity |].
        split; [| constructor]. apply existsb_exists in E. exact E.
      * intros (before & keywords & after & H & Hm & Hb).
        destruct before as [| r before]; simpl in H.
        -- injection H as Hc Hk Ha. now subst.
        -- injection H as Hr Ha. subst r. apply Forall_cons in Hb. destruct Hb as [Hb _].
           exfalso. apply Hb. simpl. apply existsb_exists. exact E.
    + rewrite IH. split.
      * intros (before & keywords & after & -> & Hm & Hb).
        exists ((c', kws) :: before), keywords, after. split; [reflexivity |].
        split; [exact Hm |]. constructor; [| exact Hb].
        simpl. intros Hx. apply existsb_exists in Hx. congruence.
      * intros (before & keywords & after & H & Hm & Hb).
        destruct before as [| r before]; simpl in H.
        -- injection H as Hc Hk Ha. subst. simpl in Hm. apply existsb_exists in Hm. congruence.
        -- injection H as Hr Ha. subst r rules. apply Forall_cons in Hb. destruct Hb as [_ Hb].
           exists before, keywords, after. auto.
Qed.

Ltac split_chain :=
  repeat match goal with
         | |- context [if ?b then _ else _] => destruct b
         end; reflexivity.

Lemma orderAgainOf_classify host text :
  orderAgainOf (toLowerCase host text) = classify host orderAgainRules text.
Proof.
  unfold orderAgainOf, classify, orderAgainRules. simpl.
  rewrite !orb_false_r, !orb_assoc. split_chain.
Qed.

Lemma tierOf_classify host text :
  tierOf (toLowerCase host text) = classify host tierRules text.
Proof.
  unfold tierOf, classify, tierRules. simpl.
  rewrite !orb_false_r, !orb_assoc. split_chain.
Qed.

Lemma coldPizzaOf_classify host text :
  coldPizzaOf (toLowerCase host text) = classify host coldPizzaRules text.
Proof.
  unfold coldPizzaOf, classify, coldPizzaRules. simpl.
  rewrite !orb_false_r, !orb_assoc. split_chain.
Qed.

(** ** Pizza popularity *)

Lemma alterAssoc_succ key (counts : list (jsstring * nat)) c :
  assoc key counts = Some c ->
  sum_list_with snd (alterAssoc (fun c => (c + 1)%nat) key counts)
  = S (sum_list_with snd counts).
Proof.
  induction counts as [| [k v] counts IH]; simpl; [discriminate |].
  destruct (streq k key); simpl.
  - intros _. lia.
  - intros H. rewrite (IH H). lia.
Qed.

Lemma inherited_proto name :
  inherited name = false -> streq name (lit "__proto__") = false.
Proof.
  intros H. destruct (streq name (lit "__proto__")) eqn:E; [| reflexivity].
  apply streq_spec in E. subst name. discriminate H.
Qed.

(** The assignment of [bump] under a key that is no inherited member. *)
Lemma bump_own counts name :
  inherited name = false ->
  bump counts name
  = match assoc name counts with
    | Some _ => alterAssoc (fun c => (c + 1)%nat) name counts
    | None => counts ++ [(name, 1%nat)]
    end.
Proof.
  intros H. unfold bump. now rewrite (inherited_proto _ H).
Qed.

Lemma bump_total counts name :
  inherited name = false ->
  sum_list_with snd (bump counts name) = S (sum_list_with snd counts).
Proof.
  intros H. rewrite (bump_own _ _ H). destruct (assoc name counts) as [c |] eqn:E.
  - apply (alterAssoc_succ _ _ c E).
  - rewrite sum_list_with_app. simpl. lia.
Qed.

Lemma bump_fold_total (f : jsstring -> jsstring) pizzas : forall counts,
  Forall (fun name => inherited name = false) (map f pizzas) ->
  sum_list_with snd (fold_left (fun counts pizza => bump counts (f pizza)) pizzas counts)
  = (sum_list_with snd counts + length pizzas)%nat.
Proof.
  induction pizzas as [| p pizzas IH]; intros counts H; simpl; [lia |].
  simpl in H. apply Forall_cons in H. destruct H as [Hp H].
  rewrite (IH _ H), (bump_total _ _ Hp). lia.
Qed.

Lemma pizzasOf_blank : pizzasOf [] = [].
Proof. reflexivity. Qed.

Lemma popularityStep_total host counts value :
  Forall (fun name => inherited name = false)
    (map (normalizePizzaName host) (pizzasOf value)) ->
  sum_list_with snd (popularityStep host counts value)
  = (sum_list_with snd counts + length (pizzasOf value))%nat.
Proof.
  intros H. unfold popularityStep. destruct value as [| c value]; simpl truthy; cbv iota.
  - rewrite pizzasOf_blank. simpl. lia.
  - apply bump_fold_total, H.
Qed.

Lemma popularity_fold_total host data : forall counts,
  numericKeys host data ->
  sum_list_with snd
    (fold_left (fun counts row => popularityStep host counts (getValue host row Field.pizzaType))
       data counts)
  = (sum_list_with snd counts + sum_list_with (tokensOf host) data)%nat.
Proof.
  unfold numericKeys, pizzaNames.
  induction data as [| row data IH]; intros counts H; simpl; [lia |].
  simpl in H. apply Forall_app in H. destruct H as [Hrow H].
  rewrite (IH _ H), (popularityStep_total _ _ _ Hrow). unfold tokensOf. lia.
Qed.

Lemma processPizzaPopularity_total host data :
  numericKeys host data ->
  Popularity.total (processPizzaPopularity host data) = sum_list_with (tokensOf host) data.
Proof.
  intros Hkeys. unfold processPizzaPopularity. simpl.
  rewrite fold_left_sum. simpl.
  set (counts := fold_left _ data []).
  assert (E : sum_list_with Popularity.count
                (map (fun e => {| Popularity.name := fst e; Popularity.count := snd e |})
                   (sortDesc snd (entries counts)))
              = sum_list_with snd (sortDesc snd (entries counts))).
  { induction (sortDesc snd (entries counts)) as [| e l IH]; simpl;
      [reflexivity | now rewrite IH]. }
  rewrite E, sortDesc_perm, entries_perm. unfold counts.
  now rewrite popularity_fold_total.
Qed.

Lemma sum_list_with_ge {A : Type} (g : A -> nat) l :
  (forall x, In x l -> (1 <= g x)%nat) -> (length l <= sum_list_with g l)%nat.
Proof.
  induction l as [| x l IH]; intros H; simpl; [lia |].
  pose proof (H x (or_introl eq_refl)). specialize (IH (fun y Hy => H y (or_intror Hy))). lia.
Qed.

Lemma sum_list_with_ones {A : Type} (g : A -> nat) l :
  (forall x, In x l -> g x = 1%nat) -> sum_list_with g l = length l.
Proof.
  induction l as [| x l IH]; intros H; simpl; [reflexivity |].
  rewrite (H x (or_introl eq_refl)), (IH (fun y Hy => H y (or_intror Hy))). reflexivity.
Qed.

(** ** Rows an aggregate does not see *)

Lemma fold_left_skip {A : Type} (step : A -> jsstring -> A) (cell : Row -> jsstring)
  (row : Row) before after init :
  (forall acc, step acc (cell row) = acc) ->
  fold_left (fun acc r => step acc (cell r)) (before ++ row :: after) init
  = fold_left (fun acc r => step acc (cell r)) (before ++ after) init.
Proof.
  intros H. rewrite !fold_left_app. simpl. now rewrite H.
Qed.

Lemma ratingsOf_skip host row before after :
  parsesInRange (getValue host row Field.rating) = false ->
  ratingsOf host (before ++ row :: after) = ratingsOf host (before ++ after).
Proof.
  intros H. unfold ratingsOf. rewrite !map_app, !omap_app. simpl.
  destruct (retained _) eqn:E; [| reflexivity].
  assert (Hs : parsesInRange (getValue host row Field.rating) = true)
    by (apply retained_parsesInRange; eauto).
  congruence.
Qed.

Lemma processRating_skip host row :
  parsesInRange (getValue host row Field.rating) = false ->
  ignoresRow (processRating host) row.
Proof.
  intros H before after. unfold processRating. now rewrite ratingsOf_skip.
Qed.

Lemma processOrderAgain_skip host row :
  truthy (getValue host row Field.orderAgain) = false \/
  orderAgainOf (toLowerCase host (getValue host row Field.orderAgain)) = None ->
  ignoresRow (processOrderAgain host) row.
Proof.
  intros H before after. unfold processOrderAgain.
  rewrite (fold_left_skip (orderAgainStep host)); [reflexivity |].
  intros [yes meh]. unfold orderAgainStep.
  destruct H as [-> | ->]; [reflexivity | now destruct (truthy _)].
Qed.

Lemma processTiers_skip host row :
  truthy (getValue host row Field.tier) = false \/
  tierOf (toLowerCase host (getValue host row Field.tier)) = None ->
  ignoresRow (processTiers host) row.
Proof.
  intros H before after. unfold processTiers.
  rewrite (fold_left_skip (tiersStep host)); [reflexivity |].
  intros [[top solid] mid]. unfold tiersStep.
  destruct H as [-> | ->]; [reflexivity | now destruct (truthy _)].
Qed.

Lemma processColdPizza_skip host row :
  truthy (getValue host row Field.coldPizza) = false \/
  coldPizzaOf (toLowerCase host (getValue host row Field.coldPizza)) = None ->
  ignoresRow (processColdPizza host) row.
Proof.
  intros H before after. unfold processColdPizza.
  rewrite (fold_left_skip (coldPizzaStep host)); [reflexivity |].
  intros [[leftovers desperate] never]. unfold coldPizzaStep.
  destruct H as [-> | ->]; [reflexivity | now destruct (truthy _)].
Qed.

Lemma processPizzaPopularity_skip host row :
  getValue host row Field.pizzaType = [] -> ignoresRow (processPizzaPopularity host) row.
Proof.
  intros H before after. unfold processPizzaPopularity.
  rewrite (fold_left_skip (popularityStep host)); [reflexivity |].
  intros counts. now rewrite H.
Qed.

Lemma processFeelings_skip host row :
  getValue host row Field.feeling = [] -> ignoresRow (processFeelings host) row.
Proof.
  intros H before after. unfold processFeelings.
  rewrite (fold_left_skip (feelingsStep host)); [reflexivity |].
  intros feelings. now rewrite H.
Qed.

Lemma processWordCloud_skip host row :
  getValue host row Field.oneWord = [] -> ignoresRow (processWordCloud host) row.
Proof.
  intros H before after. unfold processWordCloud.
  rewrite (fold_left_skip (wordCloudStep host)); [reflexivity |].
  intros words. now rewrite H.
Qed.

Lemma uniqueComments_skip host row :
  truthy (getValue host row Field.comments) = false \/
  (length (trim (getValue host row Field.comments)) <= 10)%nat ->
  ignoresRow (uniqueComments host) row.
Proof.
  intros H before after. unfold uniqueComments.
  rewrite !map_app, !List.filter_app. simpl.
  assert (E : truthy (getValue host row Field.comments)
              && (10 <? length (trim (getValue host row Field.comments)))%nat = false).
  { destruct H as [-> | H]; [reflexivity |].
    apply andb_false_iff. right. now apply Nat.ltb_ge. }
  now rewrite E.
Qed.

(** [processSummary] in terms of the timestamps it keeps. *)
Lemma processSummary_timestamps host data :
  processSummary host data
  = match timestampsOf host data with
    | [] =>
        Return {| Summary.totalResponses := length data;
                  Summary.dateRange := lit "Unknown" |}
    | t :: ts =>
        if Z.of_nat (length (timestampsOf host data)) <=? maxArguments host then
          Return {| Summary.totalResponses := length data;
                    Summary.dateRange :=
                      formatDate host (fold_left Z.min ts t) ++ lit " - "
                      ++ formatDate host (fold_left Z.max ts t) |}
        else Throw (RangeError (tooManyArguments host))
    end.
Proof. reflexivity. Qed.

(** The date range depends on the input through the timestamps alone. *)
Lemma dateRangeOf_timestamps host data data' :
  timestampsOf host data = timestampsOf host data' ->
  dateRangeOf (processSummary host data) = dateRangeOf (processSummary host data').
Proof.
  intros H. rewrite !processSummary_timestamps, <- H.
  destruct (timestampsOf host data) as [| t ts]; [reflexivity |].
  destruct (_ <=? _); reflexivity.
Qed.

Lemma dateRange_skip host row :
  getValue host row Field.timestamp = [] ->
  ignoresRow (fun data => dateRangeOf (processSummary host data)) row.
Proof.
  intros H before after. apply dateRangeOf_timestamps. unfold timestampsOf.
  rewrite !map_app, !List.filter_app. simpl. now rewrite H.
Qed.

Lemma parsesInRange_blank : parsesInRange [] = false.
Proof. reflexivity. Qed.

(** Every reducer skips the empty value. *)
Lemma blank_excluded host field row :
  getValue host row field = [] -> excludedFrom host field row.
Proof.
  intros H. unfold excludedFrom. destruct field; simpl.
  - apply processRating_skip. now rewrite H.
  - apply processPizzaPopularity_skip, H.
  - apply processFeelings_skip, H.
  - apply processOrderAgain_skip. left. now rewrite H.
  - apply processTiers_skip. left. now rewrite H.
  - apply processWordCloud_skip, H.
  - apply processColdPizza_skip. left. now rewrite H.
  - apply uniqueComments_skip. left. now rewrite H.
  - apply dateRange_skip, H.
Qed.

Lemma getValue_missing host row field :
  findColumn host row field = None -> getValue host row field = [].
Proof. intros H. unfold getValue. now rewrite H. Qed.

Lemma unique_fold_In c l : forall seen,
  In c (fold_left (fun seen c => if existsb (streq c) seen then seen else seen ++ [c]) l seen)
  <-> In c seen \/ In c l.
Proof.
  induction l as [| d l IH]; intros seen; simpl; [tauto |].
  rewrite IH. destruct (existsb (streq d) seen) eqn:E.
  - apply existsb_exists in E. destruct E as (x & Hx & Hd).
    apply streq_spec in Hd. subst x. split; [tauto |].
    intros [H | [<- | H]]; tauto.
  - rewrite in_app_iff. simpl. tauto.
Qed.

Lemma unique_skip c before after :
  In c (unique before) -> unique (before ++ c :: after) = unique (before ++ after).
Proof.
  intros H. unfold unique in *. rewrite !fold_left_app. simpl.
  assert (E : existsb (streq c)
                (fold_left (fun seen c => if existsb (streq c) seen then seen else seen ++ [c])
                   before []) = true).
  { apply existsb_exists. exists c. split; [exact H | apply streq_refl]. }
  now rewrite E.
Qed.

Lemma uniqueComments_duplicate host row before after :
  In (trim (getValue host row Field.comments)) (uniqueComments host before) ->
  uniqueComments host (before ++ row :: after) = uniqueComments host (before ++ after).
Proof.
  intros H. unfold uniqueComments in *.
  rewrite !map_app, !List.filter_app, !map_app. simpl.
  destruct (truthy _ && _); simpl; [| reflexivity].
  now apply unique_skip.
Qed.

(** ** The feelings dictionary *)

Lemma assoc_alterAssoc_None {V : Type} (f : V -> V) key K (d : list (jsstring * V)) :
  assoc K d = None -> assoc K (alterAssoc f key d) = None.
Proof.
  induction d as [| [k v] d IH]; simpl; [reflexivity |].
  destruct (streq k K) eqn:E; [discriminate |].
  intros H. destruct (streq k key); simpl; rewrite E; auto.
Qed.

Lemma assoc_snoc_None {V : Type} K k (v : V) (d : list (jsstring * V)) :
  assoc K d = None -> k <> K -> assoc K (d ++ [(k, v)]) = None.
Proof.
  intros H Hne. induction d as [| [k' v'] d IH]; simpl in *.
  - destruct (streq k K) eqn:E; [| reflexivity].
    apply streq_spec in E. contradiction.
  - destruct (streq k' K); [discriminate | auto].
Qed.

Lemma In_alterAssoc {V : Type} (f : V -> V) key k (e : V) (d : list (jsstring * V)) :
  In (k, e) d -> In (k, e) (alterAssoc f key d) \/ In (k, f e) (alterAssoc f key d).
Proof.
  induction d as [| [k' v'] d IH]; simpl; [tauto |].
  intros [H | H].
  - injection H as -> ->. destruct (streq k key); simpl; tauto.
  - destruct (streq k' key); simpl; [tauto |]. destruct (IH H); tauto.
Qed.

(** A row with another feeling, or none, leaves the key of the scenario
    absent. *)
Lemma feelingsStep_absent host d value :
  assoc joyKey d = None ->
  value = [] \/ trim (toLowerCase host value) <> joyKey ->
  assoc joyKey (feelingsStep host d value) = None.
Proof.
  intros Habsent Hother. unfold feelingsStep.
  destruct value as [| c value]; [exact Habsent |].
  destruct Hother as [Hnil | Hne]; [discriminate |]. cbn [truthy].
  apply assoc_alterAssoc_None.
  destruct (assoc (trim _) d); [exact Habsent |].
  destruct (inherited _); [exact Habsent |].
  apply assoc_snoc_None; assumption.
Qed.

(** Later rows only count: the entry keeps what it displays. *)
Lemma feelingsStep_displays host d value :
  (exists e, In (joyKey, e) d /\ displaysJoy e) ->
  exists e, In (joyKey, e) (feelingsStep host d value) /\ displaysJoy e.
Proof.
  intros (e & Hin & He). unfold feelingsStep.
  destruct (truthy value); [| eauto].
  set (d' := match assoc _ d with Some _ => d | None => _ end).
  assert (Hin' : In (joyKey, e) d').
  { unfold d'. destruct (assoc _ d); [exact Hin |].
    destruct (inherited _); [exact Hin | apply in_or_app; now left]. }
  match goal with
  | |- context [alterAssoc ?f ?key d'] =>
      destruct (In_alterAssoc f key joyKey e d' Hin') as [H | H]
  end.
  - exists e. split; assumption.
  - eexists. split; [exact H |]. exact He.
Qed.

(** The first row with the text of the scenario creates the entry. *)
Lemma feelingsStep_joy host d :
  toLowerCase host joyText = joyKey ->
  assoc joyKey d = None ->
  exists e, In (joyKey, e) (feelingsStep host d joyText) /\ displaysJoy e.
Proof.
  intros Hlower Habsent. unfold feelingsStep.
  change (truthy joyText) with true. cbv iota. rewrite Hlower.
  change (trim joyKey) with joyKey. rewrite Habsent.
  change (inherited joyKey) with false. cbv iota.
  rewrite alterAssoc_fresh by exact Habsent.
  eexists. split; [apply in_or_app; right; left; reflexivity |].
  repeat split.
Qed.

Lemma feelings_fold_absent host values : forall d,
  assoc joyKey d = None ->
  Forall (fun value => value = [] \/ trim (toLowerCase host value) <> joyKey) values ->
  assoc joyKey (fold_left (feelingsStep host) values d) = None.
Proof.
  induction values as [| v values IH]; intros d Habsent Hall; simpl; [exact Habsent |].
  apply Forall_cons in Hall. destruct Hall as [Hv Hall].
  apply IH; [apply feelingsStep_absent; assumption | exact Hall].
Qed.

Lemma feelings_fold_displays host values : forall d,
  (exists e, In (joyKey, e) d /\ displaysJoy e) ->
  exists e, In (joyKey, e) (fold_left (feelingsStep host) values d) /\ displaysJoy e.
Proof.
  induction values as [| v values IH]; intros d H; simpl; [exact H |].
  apply IH, feelingsStep_displays, H.
Qed.

(** ** The entry point *)

Lemma processData_nonempty host random row data :
  processData host random (Some (row :: data))
  = match processSummary host (row :: data) with
    | Throw thrown => Throw thrown
    | Return summary =>
        Return
          {| summary := summary;
             rating := processRating host (row :: data);
             pizzaPopularity := processPizzaPopularity host (row :: data);
             feelings := processFeelings host (row :: data);
             orderAgain := processOrderAgain host (row :: data);
             tiers := processTiers host (row :: data);
             wordCloud := processWordCloud host (row :: data);
             coldPizza := processColdPizza host (row :: data);
             comments := processComments host random (row :: data) |}
    end.
Proof. reflexivity. Qed.

(** What [processData] returns is the summary and the eight aggregates of
    its input. *)
Lemma processData_returns host random data result :
  processData host random (Some data) = Return result ->
  exists summary,
    processSummary host data = Return summary /\
    result
    = {| summary := summary;
         rating := processRating host data;
         pizzaPopularity := processPizzaPopularity host data;
         feelings := processFeelings host data;
         orderAgain := processOrderAgain host data;
         tiers := processTiers host data;
         wordCloud := processWordCloud host data;
         coldPizza := processColdPizza host data;
         comments := processComments host random data |}.
Proof.
  destruct data as [| row data]; [discriminate |].
  rewrite processData_nonempty.
  destruct (processSummary host (row :: data)) as [s | thrown]; [| discriminate].
  intros [= <-]. exists s. split; reflexivity.
Qed.

(** The summary counts every row. *)
Lemma processSummary_totalResponses host data s :
  processSummary host data = Return s -> Summary.totalResponses s = length data.
Proof.
  rewrite processSummary_timestamps.
  destruct (timestampsOf host data) as [| t ts]; [now intros [= <-] |].
  destruct (_ <=? _); [now intros [= <-] | discriminate].
Qed.

(** ** Rows that agree on every field *)

Lemma sameValue_map {X : Type} host (f : jsstring -> X) field data1 data2 :
  Forall2 (sameValue host field) data1 data2 ->
  map (fun row => f (getValue host row field)) data1
  = map (fun row => f (getValue host row field)) data2.
Proof.
  induction 1 as [| r1 r2 d1 d2 Hr Hd IH]; simpl; [reflexivity |].
  unfold sameValue in Hr. now rewrite Hr, IH.
Qed.

Lemma sameValue_fold {A : Type} host (step : A -> jsstring -> A) field data1 data2 init :
  Forall2 (sameValue host field) data1 data2 ->
  fold_left (fun acc row => step acc (getValue host row field)) data1 init
  = fold_left (fun acc row => step acc (getValue host row field)) data2 init.
Proof.
  intros H. rewrite !fold_left_cells.
  now rewrite (sameValue_map host (fun v => v) field data1 data2 H).
Qed.

(** Each aggregate reads the rows through the values of its own field. *)
Lemma sameValue_sameAggregate host field data1 data2 :
  Forall2 (sameValue host field) data1 data2 -> sameAggregate host field data1 data2.
Proof.
  intros H. destruct field; simpl.
  - unfold processRating, ratingsOf.
    now rewrite (sameValue_map host parseFloat _ data1 data2 H).
  - unfold processPizzaPopularity.
    now rewrite (sameValue_fold host (popularityStep host) _ data1 data2 _ H).
  - unfold processFeelings.
    now rewrite (sameValue_fold host (feelingsStep host) _ data1 data2 _ H).
  - unfold processOrderAgain.
    now rewrite (sameValue_fold host (orderAgainStep host) _ data1 data2 _ H).
  - unfold processTiers.
    now rewrite (sameValue_fold host (tiersStep host) _ data1 data2 _ H).
  - unfold processWordCloud.
    now rewrite (sameValue_fold host (wordCloudStep host) _ data1 data2 _ H).
  - unfold processColdPizza.
    now rewrite (sameValue_fold host (coldPizzaStep host) _ data1 data2 _ H).
  - unfold uniqueComments.
    now rewrite (sameValue_map host (fun v => v) _ data1 data2 H).
  - apply dateRangeOf_timestamps. unfold timestampsOf.
    now rewrite (sameValue_map host (fun v => v) _ data1 data2 H).
Qed.

Lemma sameValues_field host field data1 data2 :
  Forall2 (sameValues host) data1 data2 -> Forall2 (sameValue host field) data1 data2.
Proof.
  induction 1 as [| r1 r2 d1 d2 Hr Hd IH]; constructor; [apply Hr | exact IH].
Qed.

Lemma sameValues_processData host random data1 data2 :
  Forall2 (sameValues host) data1 data2 ->
  processData host random (Some data1) = processData host random (Some data2).
Proof.
  intros H. pose proof (Forall2_length _ _ _ H) as Hlen.
  pose proof (fun field => sameValue_sameAggregate host field data1 data2
                             (sameValues_field host field data1 data2 H)) as Hagg.
  pose proof (sameValue_map host (fun v => v) Field.timestamp data1 data2
                (sameValues_field host Field.timestamp data1 data2 H)) as Hcells.
  destruct H as [| r1 r2 d1 d2 Hr Hd]; [reflexivity |].
  rewrite !processData_nonempty.
  set (data1 := r1 :: d1) in *. set (data2 := r2 :: d2) in *.
  pose proof (Hagg Field.rating) as H1. pose proof (Hagg Field.pizzaType) as H2.
  pose proof (Hagg Field.feeling) as H3. pose proof (Hagg Field.orderAgain) as H4.
  pose proof (Hagg Field.tier) as H5. pose proof (Hagg Field.oneWord) as H6.
  pose proof (Hagg Field.coldPizza) as H7. pose proof (Hagg Field.comments) as H8.
  pose proof (Hagg Field.timestamp) as H9.
  unfold sameAggregate in H1, H2, H3, H4, H5, H6, H7, H8, H9.
  rewrite H1, H2, H3, H4, H5, H6, H7. unfold processComments. rewrite H8.
  assert (Hs : processSummary host data1 = processSummary host data2).
  { unfold processSummary. rewrite Hlen. fold data1 data2 in Hcells.
    now rewrite Hcells. }
  rewrite Hs. reflexivity.
Qed.

(** * The claims *)

(** ** C1: the error surface *)

Lemma timestampsOf_repeat host row time n :
  truthy (getValue host row Field.timestamp) = true ->
  dateParse host (getValue host row Field.timestamp) = Some time ->
  timestampsOf host (repeat row n) = repeat time n.
Proof.
  intros Htruthy Hparse. unfold timestampsOf.
  induction n as [| n IH]; [reflexivity |].
  cbn [repeat map List.filter]. rewrite Htruthy, omap_cons, Hparse.
  f_equal. exact IH.
Qed.

(** The spread of more timestamps than a call takes arguments throws. *)
Lemma processSummary_spread_limit host data :
  0 <= maxArguments host ->
  maxArguments host < Z.of_nat (length (timestampsOf host data)) ->
  processSummary host data = Throw (RangeError (tooManyArguments host)).
Proof.
  intros Hmax Hlen. rewrite processSummary_timestamps.
  destruct (timestampsOf host data) as [| t ts] eqn:E; [simpl in Hlen; lia |].
  destruct (Z.leb_spec (Z.of_nat (length (t :: ts))) (maxArguments host)); [lia |].
  reflexivity.
Qed.

(** C1.  [processData] does not return a result for every non-empty input:
    when the rows hold more readable timestamps than a call of the host can
    take arguments, [Math.min(...timestamps)] in [processSummary] throws a
    [RangeError], and [processData] throws it instead of returning, although
    no row of the input is anomalous.  Such is a survey of 600000 rows that
    each hold the date 2025-01-05. *)
Theorem processData_spread_limit host random data :
  0 <= maxArguments host ->
  maxArguments host < Z.of_nat (length (timestampsOf host data)) ->
  data <> [] /\
  processData host random (Some data) = Throw (RangeError (tooManyArguments host)) /\
  processData host random (Some data) <> Throw (Error (lit "No data to process")) /\
  forall result, processData host random (Some data) <> Return result.
Proof.
  intros Hmax Hlen.
  assert (Hthrown : processData host random (Some data)
                    = Throw (RangeError (tooManyArguments host))).
  { destruct data as [| row data]; [simpl in Hlen; lia |].
    rewrite processData_nonempty.
    now rewrite (processSummary_spread_limit host (row :: data) Hmax Hlen). }
  split; [intros ->; simpl in Hlen; lia |].
  split; [exact Hthrown |]. rewrite Hthrown. split; [discriminate |].
  intros result. discriminate.
Qed.

Lemma processData_spread_limit_witness :
  largeSurvey <> [] /\
  processData isoHost alwaysZero (Some largeSurvey)
  = Throw (RangeError (lit "Maximum call stack size exceeded")) /\
  processData isoHost alwaysZero (Some largeSurvey)
  <> Throw (Error (lit "No data to process")) /\
  forall result, processData isoHost alwaysZero (Some largeSurvey) <> Return result.
Proof.
  apply (processData_spread_limit isoHost alwaysZero largeSurvey).
  - discriminate.
  - unfold largeSurvey.
    rewrite (timestampsOf_repeat isoHost datedRow 1736035200000)
      by (vm_compute; reflexivity).
    rewrite repeat_length, Z2Nat.id by lia. reflexivity.
Defined.

(** ** C2: percentages

    The percentages are treated at the end of the development, after the
    error bound of the rounding and the bounds of the totals that the proof
    rests on. *)

(** ** C3: column resolution

    When no alias of the field overlaps any column name of the row (neither
    contains the other, lower-cased), resolution returns not-found. *)
Lemma findColumn_not_found host row field :
  (forall alias column,
     In alias (COLUMN_MAPPINGS field) -> In column (map fst row) ->
     ~ overlaps host alias column) ->
  findColumn host row field = None.
Proof.
  intros H. apply findColumnIn_none. intros alias column Ha Hc.
  apply not_true_is_false. rewrite columnMatches_overlaps. now apply H.
Qed.

(** Aliases are tried in the order of the table: a row with the columns
    "Date" and "Timestamp", both aliases of the timestamp field, resolves it
    to "Timestamp", the alias listed first. *)
Example findColumn_alias_priority :
  findColumn asciiHost twoDateColumns Field.timestamp = Some (lit "Timestamp").
Proof. reflexivity. Qed.

(** A column with an empty name overlaps every alias: [find] returns it
    first, the truthiness test discards it, and the columns after it are
    never reached. *)
Example findColumn_empty_header :
  findColumn asciiHost [([], lit "0"); (lit "Rating", lit "8")] Field.rating = None /\
  findColumn asciiHost [(lit "Rating", lit "8"); ([], lit "0")] Field.rating
  = Some (lit "Rating").
Proof. split; reflexivity. Qed.

(** C3.  A column that is exactly an alias of the field is not always the
    column resolved.  In the row {Rating: "8", Pizza: "Cheese"} the column
    "Rating" is exactly an alias of the rating field, and the only such
    column of the row.  The field resolves to the column "Pizza": the test
    of [find] also accepts a column whose lower-cased name occurs in the
    alias, and "pizza" occurs in the first alias of the rating, "Rate the
    overall taste of the pizza:".  The rating is then read as "Cheese" and
    the row is left out of the ratings. *)
Theorem findColumn_alias_contains_column :
  In (lit "Rating") (map fst shortHeaders) /\
  In (lit "Rating") (COLUMN_MAPPINGS Field.rating) /\
  (forall column,
     In column (map fst shortHeaders) -> In column (COLUMN_MAPPINGS Field.rating) ->
     column = lit "Rating") /\
  head (COLUMN_MAPPINGS Field.rating) = Some (lit "Rate the overall taste of the pizza:") /\
  columnMatches asciiHost (lit "Rate the overall taste of the pizza:") (lit "Rating") = false /\
  includes (toLowerCase asciiHost (lit "Rate the overall taste of the pizza:"))
    (toLowerCase asciiHost (lit "Pizza")) = true /\
  findColumn asciiHost shortHeaders Field.rating = Some (lit "Pizza") /\
  findColumn asciiHost shortHeaders Field.rating <> Some (lit "Rating") /\
  getValue asciiHost shortHeaders Field.rating = lit "Cheese" /\
  processRating asciiHost [shortHeaders] = processRating asciiHost [].
Proof.
  split; [now left |]. split; [right; right; now left |].
  split.
  { intros column [<- | [<- | []]] Halias; [reflexivity |].
    exfalso. revert Halias. apply (bool_decide_unpack _). reflexivity. }
  split; [reflexivity |]. split; [reflexivity |]. split; [reflexivity |].
  split; [reflexivity |]. split; [discriminate |]. split; reflexivity.
Qed.

(** ** C4: ordered keyword rules

    C4.  Each closed-set classifier (order again, tiers, cold pizza) tries
    its rules in a fixed order and assigns the first category one of whose
    keywords occurs in the lower-cased text: its chain of tests is the
    specification's [classify] on its rule list, and [classify] returns the
    category of the first rule that matches.  In particular, of two rules
    that both match, the earlier one classifies the text when no rule before
    it matches, and "Sometimes, if desperate" is classified "If Desperate". *)
Theorem classifiers_first_match host :
  (forall text,
     orderAgainOf (toLowerCase host text) = classify host orderAgainRules text /\
     tierOf (toLowerCase host text) = classify host tierRules text /\
     coldPizzaOf (toLowerCase host text) = classify host coldPizzaRules text) /\
  (forall (C : Type) (rules : list (C * list jsstring)) text c,
     classify host rules text = Some c <->
     exists before keywords after,
       rules = before ++ (c, keywords) :: after /\
       ruleMatches (toLowerCase host text) (c, keywords) /\
       Forall (fun rule => ~ ruleMatches (toLowerCase host text) rule) before) /\
  (forall (C : Type) (before between after : list (C * list jsstring)) earlier later text,
     Forall (fun rule => ~ ruleMatches (toLowerCase host text) rule) before ->
     ruleMatches (toLowerCase host text) earlier ->
     ruleMatches (toLowerCase host text) later ->
     classify host (before ++ earlier :: between ++ later :: after) text
     = Some (fst earlier)) /\
  coldPizzaOf (toLowerCase asciiHost (lit "Sometimes, if desperate")) = Some IfDesperate /\
  coldPizzaStep asciiHost (0, 0, 0)%nat (lit "Sometimes, if desperate") = (0, 1, 0)%nat /\
  map ColdPizza.count (ColdPizza.items (processColdPizza asciiHost coldPizzaScenario))
  = [0; 1; 0]%nat.
Proof.
  split; [| split; [| split]].
  - intros text. split; [apply orderAgainOf_classify |].
    split; [apply tierOf_classify | apply coldPizzaOf_classify].
  - intros C rules text c. apply classify_first_match.
  - intros C before between after [c keywords] later text Hb He _.
    apply classify_first_match. exists before, keywords, (between ++ later :: after).
    split; [reflexivity |]. split; assumption.
  - split; [reflexivity |]. split; reflexivity.
Qed.

Lemma classifiers_first_match_witness :
  classify asciiHost coldPizzaRules (lit "Sometimes, if desperate") = Some IfDesperate /\
  classify asciiHost orderAgainRules (lit "Yes... no, maybe") = Some Yes.
Proof.
  destruct (classifiers_first_match asciiHost) as (_ & Hfirst & Hearlier & _).
  split.
  - apply Hfirst.
    exists [(LeftoversPlease, [lit "leftover"; lit "please"; lit "love"; lit "yes"])],
      [lit "desperate"; lit "maybe"; lit "sometimes"],
      [(Never, [lit "never"; lit "no"; lit "chance"])].
    split; [reflexivity |]. split.
    + exists (lit "desperate"). split; [now left | reflexivity].
    + constructor; [| constructor].
      intros (keyword & Hin & Hm). simpl in Hin.
      destruct Hin as [<- | [<- | [<- | [<- | []]]]]; discriminate Hm.
  - apply (Hearlier orderAgainCategory [] [] []
             (Yes, [lit "yes"; lit "absolutely"; lit "definitely"])
             (Meh, [lit "meh"; lit "maybe"; lit "no"])).
    + constructor.
    + exists (lit "yes"). split; [now left | reflexivity].
    + exists (lit "maybe"). split; [right; now left | reflexivity].
Defined.

(** ** C5: the rating reducer

    C5.  The rating count is the number of rows whose rating cell parses as
    a number of the closed range [1,10].  When the count is positive the
    average (the mean rounded to one decimal) lies in [1,10] and the buckets
    of the distribution sum to the count; when no rating is retained the
    result is [{average: 0, count: 0, distribution: {}}].  The input is a
    JavaScript array, which has fewer than 2^32 elements. *)
Theorem processRating_properties host data :
  Z.of_nat (length data) < 2 ^ 32 ->
  let r := processRating host data in
  Rating.count r
  = length (List.filter (fun row => parsesInRange (getValue host row Field.rating)) data) /\
  ((0 < Rating.count r)%nat ->
   (1 <= Rating.average r)%Q /\ (Rating.average r <= 10)%Q /\
   bucketSum (Rating.distribution r) = Rating.count r) /\
  (List.filter (fun row => parsesInRange (getValue host row Field.rating)) data = [] ->
   r = {| Rating.average := 0; Rating.count := 0; Rating.distribution := ∅ |}).
Proof.
  intros Hlen r.
  pose proof (ratingsOf_length host data) as Hcount.
  pose proof (ratingsOf_range host data) as Hrange.
  pose proof (filter_length_le (fun row => parsesInRange (getValue host row Field.rating)) data)
    as Hle.
  subst r. unfold processRating.
  destruct (ratingsOf host data) as [| q ratings] eqn:E.
  - simpl in *. split; [exact Hcount |]. split; [lia | reflexivity].
  - set (rs := q :: ratings) in *. cbn [Rating.count Rating.average Rating.distribution].
    split; [exact Hcount |]. split.
    + intros _.
      assert (Hn : 0 < Z.of_nat (length rs)) by (unfold rs; simpl; lia).
      assert (Hb : 10 * (0 + Z.of_nat (length rs)) < 2 ^ 53) by lia.
      destruct (sum_range rs 0%Q 0 Hrange (Z.le_refl 0) Hb) as [Hs1 Hs2];
        [apply Qle_refl | apply Qle_refl |].
      rewrite Z.add_0_l in Hs1, Hs2.
      destruct (average_range (fold_left fadd rs 0%Q) (Z.of_nat (length rs)) Hn
                  ltac:(lia) Hs1 Hs2) as [Ha1 Ha2].
      split; [exact Ha1 |]. split; [exact Ha2 |].
      rewrite bucketSum_fold, bucketSum_emptyBuckets. reflexivity.
    + intros Hnone. rewrite Hnone in Hcount. discriminate Hcount.
Qed.

Lemma processRating_properties_witness :
  let r := processRating asciiHost surveySample in
  Z.of_nat (length surveySample) < 2 ^ 32 /\
  (0 < Rating.count r)%nat /\
  (1 <= Rating.average r)%Q /\ (Rating.average r <= 10)%Q /\
  bucketSum (Rating.distribution r) = Rating.count r.
Proof.
  assert (Hlen : Z.of_nat (length surveySample) < 2 ^ 32) by reflexivity.
  destruct (processRating_properties asciiHost surveySample Hlen) as (_ & Hpos & _).
  assert (Hcount : (0 < Rating.count (processRating asciiHost surveySample))%nat)
    by (vm_compute; lia).
  split; [exact Hlen |]. split; [exact Hcount |]. exact (Hpos Hcount).
Defined.

(** ** C6: the popularity total

    One row gives two tokens and two rows give none: the total, 2, is below
    the row count, 3, although a row holds a multi-select value. *)
Lemma pizzaPopularity_total_counterexample :
  (exists row,
     In row multiSelectAmongBlanks /\
     In 44 (getValue asciiHost row Field.pizzaType) /\
     (1 < tokensOf asciiHost row)%nat) /\
  Popularity.total (processPizzaPopularity asciiHost multiSelectAmongBlanks) = 2%nat /\
  length multiSelectAmongBlanks = 3%nat /\
  ~ (length multiSelectAmongBlanks
     <= Popularity.total (processPizzaPopularity asciiHost multiSelectAmongBlanks))%nat.
Proof.
  split; [| split; [reflexivity | split; [reflexivity | vm_compute; lia]]].
  exists [(lit "Pizza", lit "Cheese, Pepperoni")].
  split; [now left |]. split; [vm_compute; tauto | vm_compute; lia].
Qed.

(** C6, amended.  When no pizza is counted under the name of a member of
    [Object.prototype], the popularity total is the number of tokens the
    rows contribute, all rows together.  It is at least the row count
    whenever every row contributes at least one token, and it equals the row
    count when all rows contribute exactly one token. *)
Theorem pizzaPopularity_total host data :
  numericKeys host data ->
  let total := Popularity.total (processPizzaPopularity host data) in
  total = sum_list_with (tokensOf host) data /\
  ((forall row, In row data -> (1 <= tokensOf host row)%nat) -> (length data <= total)%nat) /\
  ((forall row, In row data -> tokensOf host row = 1%nat) -> total = length data).
Proof.
  intros Hkeys total. subst total.
  rewrite (processPizzaPopularity_total host data Hkeys).
  split; [reflexivity |]. split.
  - apply sum_list_with_ge.
  - apply sum_list_with_ones.
Qed.

Lemma pizzaPopularity_total_witness :
  numericKeys asciiHost (firstn 2 surveySample) /\
  numericKeys asciiHost onePizza /\
  (length (firstn 2 surveySample)
   <= Popularity.total (processPizzaPopularity asciiHost (firstn 2 surveySample)))%nat /\
  Popularity.total (processPizzaPopularity asciiHost onePizza) = length onePizza.
Proof.
  assert (Hsample : numericKeys asciiHost (firstn 2 surveySample))
    by (vm_compute; repeat constructor).
  assert (Hone : numericKeys asciiHost onePizza) by (vm_compute; repeat constructor).
  split; [exact Hsample |]. split; [exact Hone |]. split.
  - apply (pizzaPopularity_total asciiHost (firstn 2 surveySample) Hsample).
    intros row [<- | [<- | []]]; vm_compute; lia.
  - apply (pizzaPopularity_total asciiHost onePizza Hone).
    intros row [<- | []]. reflexivity.
Defined.

(** ** C7: the rating scenario

    The histogram of the scenario is not the two-entry mapping: bucket 1 is
    present, with count 0. *)
Lemma ratingScenario_distribution_counterexample :
  Rating.distribution (processRating asciiHost ratingScenario)
  <> <[8 := 1%nat]> (<[10 := 1%nat]> ∅).
Proof.
  intros H. apply (f_equal (fun d : gmap Z nat => d !! 1)) in H.
  vm_compute in H. discriminate H.
Qed.

(** C7, amended.  On rows = [{rating: "8"}, {rating: "10"}, {rating: "bad"}]
    the rating reducer yields average 9.0 and count 2, and a distribution
    with every bucket from 1 to 10: buckets 8 and 10 hold 1 and the eight
    others hold 0. *)
Theorem ratingScenario_result :
  processRating asciiHost ratingScenario
  = {| Rating.average := 9;
       Rating.count := 2;
       Rating.distribution :=
         list_to_map [(1, 0%nat); (2, 0%nat); (3, 0%nat); (4, 0%nat); (5, 0%nat);
                      (6, 0%nat); (7, 0%nat); (8, 1%nat); (9, 0%nat); (10, 1%nat)] |}.
Proof. vm_compute. reflexivity. Qed.

(** ** C8: the feelings scenario

    C8.  For a row whose feeling value is "😍 Joy", the feelings reducer
    produces an item with display label "Joy" (the emoji stripped), emoji
    "😍" (found by the scan of the emoji ranges) and color "#F1C40F" (the
    keyword "joy").  The row may stand anywhere in the input, provided that
    no row before it holds the same text in another spelling (the label is
    the one of the first row of a group); on its own it yields that item
    alone, with count 1 and percentage 100. *)
Theorem feelingScenario_item host before row after :
  toLowerCase host joyText = joyKey ->
  getValue host row Field.feeling = joyText ->
  (forall earlier, In earlier before ->
     getValue host earlier Field.feeling = [] \/
     trim (toLowerCase host (getValue host earlier Field.feeling)) <> joyKey) ->
  (exists item,
     In item (Feelings.items (processFeelings host (before ++ row :: after))) /\
     joyItem item) /\
  Feelings.items (processFeelings host [row])
  = [{| Feelings.feeling := lit "Joy";
        Feelings.count := 1;
        Feelings.percentage := Finite 100;
        Feelings.emoji := [55357; 56845];
        Feelings.color := lit "#F1C40F" |}].
Proof.
  intros Hlower Hvalue Hbefore. split.
  - unfold processFeelings. cbn [Feelings.items].
    rewrite fold_left_cells, map_app, fold_left_app. cbn [map fold_left]. rewrite Hvalue.
    set (d := fold_left (feelingsStep host) (map _ before) []).
    assert (Habsent : assoc joyKey d = None).
    { apply feelings_fold_absent; [reflexivity |].
      apply Forall_forall. intros value Hin. apply list_elem_of_In, in_map_iff in Hin.
      destruct Hin as (earlier & <- & Hin). apply Hbefore, Hin. }
    destruct (feelings_fold_displays host (map (fun r => getValue host r Field.feeling) after)
                _ (feelingsStep_joy host d Hlower Habsent)) as (e & Hin & Ho & Hem & Hc).
    eexists. split.
    + apply list_elem_of_In. rewrite sortDesc_perm. apply list_elem_of_In.
      apply in_map, in_map. apply list_elem_of_In. rewrite entries_perm.
      apply list_elem_of_In, Hin.
    + cbn [snd]. unfold joyItem. cbn [Feelings.feeling Feelings.emoji Feelings.color].
      rewrite Ho, Hem, Hc. repeat split.
  - unfold processFeelings. cbn [fold_left]. rewrite Hvalue.
    unfold feelingsStep. change (truthy joyText) with true. cbv iota. rewrite Hlower.
    vm_compute. reflexivity.
Qed.

Lemma feelingScenario_item_witness :
  toLowerCase asciiHost joyText = joyKey /\
  getValue asciiHost [(lit "feeling", joyText)] Field.feeling = joyText /\
  (exists item,
     In item (Feelings.items (processFeelings asciiHost (unratedRow :: feelingScenario))) /\
     joyItem item) /\
  Feelings.items (processFeelings asciiHost feelingScenario)
  = [{| Feelings.feeling := lit "Joy";
        Feelings.count := 1;
        Feelings.percentage := Finite 100;
        Feelings.emoji := [55357; 56845];
        Feelings.color := lit "#F1C40F" |}].
Proof.
  split; [reflexivity |]. split; [reflexivity |].
  apply (feelingScenario_item asciiHost [unratedRow] [(lit "feeling", joyText)] []);
    try reflexivity.
  intros earlier [<- | []]. left. reflexivity.
Defined.

(** The label is the one of the first row of a group: after a row that
    shouts, the item is labelled "JOY". *)
Example feelingScenario_first_spelling :
  map Feelings.feeling
    (Feelings.items
       (processFeelings asciiHost
          [[(lit "feeling", [55357; 56845] ++ lit " JOY")]; [(lit "feeling", joyText)]]))
  = [lit "JOY"].
Proof. vm_compute. reflexivity. Qed.

(** ** C9: determinism apart from the shuffle

    C9.  Two runs of [processData] on the same rows, whatever [Math.random]
    returns in each, produce the same summary, rating, pizza popularity,
    feelings, order-again, tiers, word cloud and cold-pizza fields; the
    comments field alone depends on the random draws, and it can differ
    between two runs. *)
Theorem processData_deterministic_but_comments host random1 random2 rawData r1 r2 :
  processData host random1 rawData = Return r1 ->
  processData host random2 rawData = Return r2 ->
  (summary r1 = summary r2 /\ rating r1 = rating r2 /\
   pizzaPopularity r1 = pizzaPopularity r2 /\ feelings r1 = feelings r2 /\
   orderAgain r1 = orderAgain r2 /\ tiers r1 = tiers r2 /\
   wordCloud r1 = wordCloud r2 /\ coldPizza r1 = coldPizza r2) /\
  (exists s1 s2,
     processData asciiHost alwaysZero (Some twoComments) = Return s1 /\
     processData asciiHost alwaysHalf (Some twoComments) = Return s2 /\
     comments s1 <> comments s2).
Proof.
  intros H1 H2. split.
  - destruct rawData as [data |]; [| discriminate].
    destruct (processData_returns _ _ _ _ H1) as (s1 & Hs1 & ->).
    destruct (processData_returns _ _ _ _ H2) as (s2 & Hs2 & ->).
    rewrite Hs1 in Hs2. injection Hs2 as <-. cbn. repeat split.
  - eexists. eexists. split; [reflexivity |]. split; [reflexivity |].
    vm_compute. discriminate.
Qed.

Lemma processData_deterministic_but_comments_witness :
  exists r1 r2,
    processData asciiHost alwaysZero (Some twoComments) = Return r1 /\
    processData asciiHost alwaysHalf (Some twoComments) = Return r2 /\
    wordCloud r1 = wordCloud r2 /\ rating r1 = rating r2 /\
    comments r1 <> comments r2.
Proof.
  eexists. eexists. split; [reflexivity |]. split; [reflexivity |].
  destruct (processData_deterministic_but_comments asciiHost alwaysZero alwaysHalf
              (Some twoComments) _ _ eq_refl eq_refl)
    as ((_ & Hrating & _ & _ & _ & _ & Hwords & _) & _).
  split; [exact Hwords |]. split; [exact Hrating |].
  vm_compute. discriminate.
Defined.

(** ** C10: a missing column and an empty cell

    C10.  A row that lacks a column does not always contribute as the row
    that holds the column blank.  The row {Rating: "8"} has no pizza column
    and the row {Rating: "8", Pizza: ""} holds it blank: the pizza type of
    both is the empty string.  Yet in the second row the rating resolves to
    the column "Pizza", whose lower-cased name occurs in the first alias of
    the rating, and is read as the empty string: the first input has one
    rating, the second has none, and the two results differ. *)
Theorem blank_column_changes_rating :
  findColumn asciiHost ratingOnly Field.pizzaType = None /\
  findColumn asciiHost ratingWithBlankPizza Field.pizzaType = Some (lit "Pizza") /\
  assoc (lit "Pizza") ratingWithBlankPizza = Some [] /\
  getValue asciiHost ratingOnly Field.pizzaType
  = getValue asciiHost ratingWithBlankPizza Field.pizzaType /\
  findColumn asciiHost ratingOnly Field.rating = Some (lit "Rating") /\
  findColumn asciiHost ratingWithBlankPizza Field.rating = Some (lit "Pizza") /\
  getValue asciiHost ratingOnly Field.rating = lit "8" /\
  getValue asciiHost ratingWithBlankPizza Field.rating = [] /\
  Rating.count (processRating asciiHost [ratingOnly]) = 1%nat /\
  Rating.count (processRating asciiHost [ratingWithBlankPizza]) = 0%nat /\
  processData asciiHost alwaysZero (Some [ratingOnly])
  <> processData asciiHost alwaysZero (Some [ratingWithBlankPizza]).
Proof.
  repeat (split; [reflexivity |]).
  vm_compute. discriminate.
Qed.

(** * Further properties of the code *)

(** ** Column resolution *)

Lemma assoc_of_key {V : Type} key (obj : list (jsstring * V)) :
  In key (map fst obj) -> exists v, assoc key obj = Some v /\ In (key, v) obj.
Proof.
  induction obj as [| [k w] obj IH]; simpl; [tauto |].
  intros H. destruct (streq k key) eqn:E.
  - apply streq_spec in E. subst k. exists w. split; [reflexivity | now left].
  - destruct H as [H | H]; [subst k; now rewrite streq_refl in E |].
    destruct (IH H) as (v & Hv & Hin). exists v. split; [exact Hv | now right].
Qed.

Lemma findColumnIn_sound host keys mappings column :
  findColumnIn host keys mappings = Some column ->
  In column keys /\ truthy column = true /\
  exists alias, In alias mappings /\ columnMatches host alias column = true.
Proof.
  induction mappings as [| mapping rest IH]; simpl; [discriminate |].
  destruct (List.find _ keys) as [found |] eqn:E.
  - destruct (truthy found) eqn:T.
    + intros [= <-]. apply find_some in E. destruct E as [Hin Hm].
      split; [exact Hin |]. split; [exact T |]. exists mapping. split; [now left | exact Hm].
    + intros H. destruct (IH H) as (H1 & H2 & alias & Ha & Hm).
      split; [exact H1 |]. split; [exact H2 |]. exists alias. split; [now right | exact Hm].
  - intros H. destruct (IH H) as (H1 & H2 & alias & Ha & Hm).
    split; [exact H1 |]. split; [exact H2 |]. exists alias. split; [now right | exact Hm].
Qed.

(** X1.  What [findColumn] returns is a column of the row, with a name that is
    not empty and overlaps an alias of the field; and [getValue] is then the
    cell of the row under that column. *)
Theorem findColumn_sound host row field column :
  findColumn host row field = Some column ->
  In column (map fst row) /\ column <> [] /\
  (exists alias, In alias (COLUMN_MAPPINGS field) /\ overlaps host alias column) /\
  (exists cell, In (column, cell) row /\ getValue host row field = cell).
Proof.
  intros H. unfold getValue. rewrite H. unfold findColumn in H.
  apply findColumnIn_sound in H. destruct H as (Hin & Ht & alias & Ha & Hm).
  split; [exact Hin |]. split; [intros ->; discriminate |]. split.
  - exists alias. split; [exact Ha | now apply columnMatches_overlaps].
  - destruct (assoc_of_key column row Hin) as (v & Hv & Hrow).
    exists v. rewrite Hv. split; [exact Hrow | reflexivity].
Qed.

Lemma findColumn_sound_witness :
  findColumn asciiHost twoDateColumns Field.timestamp = Some (lit "Timestamp") /\
  getValue asciiHost twoDateColumns Field.timestamp = lit "2025-01-01" /\
  lit "Timestamp" <> [].
Proof.
  split; [reflexivity |]. split; [reflexivity |].
  apply (findColumn_sound asciiHost twoDateColumns Field.timestamp). reflexivity.
Defined.

Lemma findColumnIn_complete host keys mappings :
  (forall key, In key keys -> key <> []) ->
  (exists alias key, In alias mappings /\ In key keys /\ columnMatches host alias key = true) ->
  exists column, findColumnIn host keys mappings = Some column.
Proof.
  intros Hne (alias & key & Ha & Hk & Hm).
  induction mappings as [| mapping rest IH]; [destruct Ha |].
  simpl. destruct (List.find _ keys) as [found |] eqn:E.
  - apply find_some in E. destruct E as [Hin _].
    destruct found as [| c found]; [now destruct (Hne [] Hin) |]. simpl. eauto.
  - destruct Ha as [-> | Ha]; [| now apply IH].
    pose proof (find_none _ _ E key Hk) as Hn. simpl in Hn. congruence.
Qed.

(** X2.  In a row without an empty column name, a field is resolved exactly when
    one of its aliases overlaps one of the columns. *)
Theorem findColumn_found_iff host row field :
  (forall key, In key (map fst row) -> key <> []) ->
  ((exists column, findColumn host row field = Some column) <->
   (exists alias key,
      In alias (COLUMN_MAPPINGS field) /\ In key (map fst row) /\ overlaps host alias key)).
Proof.
  intros Hne. split.
  - intros [column H]. unfold findColumn in H. apply findColumnIn_sound in H.
    destruct H as (Hin & _ & alias & Ha & Hm).
    exists alias, column. split; [exact Ha |]. split; [exact Hin |].
    now apply columnMatches_overlaps.
  - intros (alias & key & Ha & Hk & Ho). apply findColumnIn_complete; [exact Hne |].
    exists alias, key. split; [exact Ha |]. split; [exact Hk |].
    now apply columnMatches_overlaps.
Qed.

Lemma findColumn_found_iff_witness :
  (exists column, findColumn asciiHost unratedRow Field.rating = Some column) /\
  ~ (exists alias key,
       In alias (COLUMN_MAPPINGS Field.comments) /\ In key (map fst unratedRow) /\
       overlaps asciiHost alias key).
Proof.
  assert (Hne : forall key, In key (map fst unratedRow) -> key <> []).
  { intros key [<- | []]. discriminate. }
  split.
  - apply (findColumn_found_iff asciiHost unratedRow Field.rating Hne).
    exists (lit "Rating"), (lit "Rating"). split; [right; right; now left |].
    split; [now left |]. apply columnMatches_overlaps. reflexivity.
  - intros H. apply (findColumn_found_iff asciiHost unratedRow Field.comments Hne) in H.
    destruct H as [column H]. discriminate H.
Defined.

(** ** The shuffle and the comments *)

Lemma swap_perm {A : Type} i j (arr : list A) : swap i j arr ≡ₚ arr.
Proof.
  unfold swap. destruct (arr !! i) as [ai |] eqn:Ei; [| reflexivity].
  destruct (arr !! j) as [aj |] eqn:Ej; [| reflexivity].
  now apply Permutation_insert_swap.
Qed.

Lemma shuffleLoop_perm {A : Type} random i : forall k (arr : list A),
  shuffleLoop random k i arr ≡ₚ arr.
Proof.
  induction i as [| i IH]; intros k arr; simpl; [reflexivity |].
  rewrite IH. apply swap_perm.
Qed.

Lemma shuffleArray_rearranges {A : Type} random (array : list A) :
  shuffleArray random array ≡ₚ array.
Proof. apply shuffleLoop_perm. Qed.

(** X3.  Whatever [Math.random] returns, [shuffleArray] returns a rearrangement
    of its argument: nothing is lost and nothing is duplicated. *)
Theorem shuffleArray_permutation {A : Type} random (array : list A) :
  shuffleArray random array ≡ₚ array.
Proof. apply shuffleLoop_perm. Qed.

Lemma unique_fold_NoDup l : forall seen,
  NoDup seen ->
  NoDup (fold_left (fun seen c => if existsb (streq c) seen then seen else seen ++ [c]) l seen).
Proof.
  induction l as [| c l IH]; intros seen H; simpl; [exact H |].
  apply IH. destruct (existsb (streq c) seen) eqn:E; [exact H |].
  apply NoDup_app. split; [exact H |]. split; [| apply NoDup_singleton].
  intros x Hx Hc. apply list_elem_of_In in Hx, Hc. destruct Hc as [<- | []].
  assert (existsb (streq c) seen = true); [| congruence].
  apply existsb_exists. exists c. split; [exact Hx | apply streq_refl].
Qed.

Lemma unique_NoDup l : NoDup (unique l).
Proof. apply unique_fold_NoDup. constructor. Qed.

Lemma unique_In c l : In c (unique l) <-> In c l.
Proof. unfold unique. rewrite unique_fold_In. simpl. tauto. Qed.

Lemma firstn_In {A : Type} (x : A) n l : In x (firstn n l) -> In x l.
Proof.
  revert n. induction l as [| y l IH]; intros [| n]; simpl; try tauto.
  intros [H | H]; [now left | right; eapply IH, H].
Qed.

Lemma firstn_NoDup {A : Type} n (l : list A) : NoDup l -> NoDup (firstn n l).
Proof.
  revert n. induction l as [| x l IH]; intros [| n] H; simpl; try constructor.
  - apply NoDup_cons in H. destruct H as [Hx _]. intros Hin. apply Hx.
    apply list_elem_of_In. apply list_elem_of_In in Hin. eapply firstn_In, Hin.
  - apply IH. apply NoDup_cons in H. tauto.
Qed.

Lemma uniqueComments_In host data c :
  In c (uniqueComments host data) <->
  exists row, In row data /\ c = trim (getValue host row Field.comments) /\
              getValue host row Field.comments <> [] /\ (10 < length c)%nat.
Proof.
  unfold uniqueComments. rewrite unique_In, in_map_iff. split.
  - intros (v & <- & Hv). apply List.filter_In in Hv. destruct Hv as [Hv Hk].
    apply in_map_iff in Hv. destruct Hv as (row & <- & Hrow).
    apply andb_true_iff in Hk. destruct Hk as [Ht Hl]. apply Nat.ltb_lt in Hl.
    exists row. split; [exact Hrow |]. split; [reflexivity |].
    split; [intros E; rewrite E in Ht; discriminate | exact Hl].
  - intros (row & Hrow & -> & Hne & Hl). exists (getValue host row Field.comments).
    split; [reflexivity |]. apply List.filter_In.
    split; [apply (in_map (fun row => getValue host row Field.comments)), Hrow |].
    apply andb_true_iff. split; [| now apply Nat.ltb_lt].
    destruct (getValue host row Field.comments); [contradiction | reflexivity].
Qed.

(** X4.  The carousel gets at most ten comments, all different, each the trimmed
    comment of some row and longer than ten code units; when there are at
    most ten such comments it gets every one of them. *)
Theorem processComments_kept host random data :
  let shown := processComments host random data in
  (length shown <= 10)%nat /\ NoDup shown /\
  (forall c, In c shown ->
     exists row, In row data /\ c = trim (getValue host row Field.comments) /\
                 (10 < length c)%nat) /\
  ((length (uniqueComments host data) <= 10)%nat ->
   forall row, In row data ->
     getValue host row Field.comments <> [] ->
     (10 < length (trim (getValue host row Field.comments)))%nat ->
     In (trim (getValue host row Field.comments)) shown).
Proof.
  intros shown. subst shown. unfold processComments.
  pose proof (shuffleArray_rearranges random (uniqueComments host data)) as Hperm.
  split; [apply firstn_le_length |]. split.
  - apply firstn_NoDup. rewrite Hperm. apply unique_NoDup.
  - split.
    + intros c Hc. apply firstn_In in Hc. apply (Permutation_in _ Hperm) in Hc.
      apply uniqueComments_In in Hc. destruct Hc as (row & Hrow & Hc & _ & Hl). eauto.
    + intros Hlen row Hrow Hne Hl.
      rewrite firstn_all2 by (rewrite (Permutation_length Hperm); exact Hlen).
      apply (Permutation_in _ (Permutation_sym Hperm)).
      apply uniqueComments_In. eauto 6.
Qed.

Lemma processComments_kept_witness :
  (length (uniqueComments asciiHost twoComments) <= 10)%nat /\
  In (lit "I dream about this pizza at night.")
     (processComments asciiHost alwaysZero twoComments).
Proof.
  assert (Hlen : (length (uniqueComments asciiHost twoComments) <= 10)%nat)
    by (vm_compute; lia).
  split; [exact Hlen |].
  destruct (processComments_kept asciiHost alwaysZero twoComments) as (_ & _ & _ & H).
  apply (H Hlen [(lit "Comments", lit "I dream about this pizza at night.")]).
  - right. now left.
  - discriminate.
  - vm_compute. lia.
Defined.

(** ** The tallies *)

Lemma streq_sym s t : streq s t = streq t s.
Proof.
  destruct (streq s t) eqn:E, (streq t s) eqn:F; try reflexivity.
  - apply streq_spec in E. subst. now rewrite streq_refl in F.
  - apply streq_spec in F. subst. now rewrite streq_refl in E.
Qed.

Lemma assoc_alterAssoc {V : Type} (f : V -> V) key k (obj : list (jsstring * V)) :
  assoc k (alterAssoc f key obj)
  = if streq key k then option_map f (assoc k obj) else assoc k obj.
Proof.
  induction obj as [| [k0 v] obj IH]; simpl.
  - now destruct (streq key k).
  - destruct (streq k0 key) eqn:E.
    + apply streq_spec in E. subst k0. simpl. now destruct (streq key k).
    + simpl. destruct (streq k0 k) eqn:F; [| exact IH].
      apply streq_spec in F. subst k0. now rewrite streq_sym, E.
Qed.

Lemma assoc_snoc {V : Type} k n (v : V) (obj : list (jsstring * V)) :
  assoc k (obj ++ [(n, v)])
  = match assoc k obj with
    | Some x => Some x
    | None => if streq n k then Some v else None
    end.
Proof.
  induction obj as [| [k0 v0] obj IH]; simpl; [reflexivity |].
  now destruct (streq k0 k).
Qed.

Lemma alterAssoc_keys {V : Type} (f : V -> V) key (obj : list (jsstring * V)) :
  map fst (alterAssoc f key obj) = map fst obj.
Proof.
  induction obj as [| [k0 v] obj IH]; simpl; [reflexivity |].
  destruct (streq k0 key); simpl; [reflexivity | now rewrite IH].
Qed.

Lemma snoc_keys_NoDup {V : Type} key (v : V) (obj : list (jsstring * V)) :
  assoc key obj = None -> NoDup (map fst obj) -> NoDup (map fst (obj ++ [(key, v)])).
Proof.
  intros E H. rewrite List.map_app. simpl. apply NoDup_app.
  split; [exact H |]. split; [| apply NoDup_singleton].
  intros x Hx Hn. apply list_elem_of_In in Hx, Hn. destruct Hn as [<- | []].
  destruct (assoc_of_key _ _ Hx) as (w & Hw & _). congruence.
Qed.

Lemma assoc_NoDup_In {V : Type} k (v : V) (obj : list (jsstring * V)) :
  NoDup (map fst obj) -> In (k, v) obj -> assoc k obj = Some v.
Proof.
  induction obj as [| [k0 v0] obj IH]; simpl; intros Hnd H; [destruct H |].
  apply NoDup_cons in Hnd. destruct Hnd as [Hx Hnd]. destruct H as [H | H].
  - inversion H. subst. now rewrite streq_refl.
  - destruct (streq k0 k) eqn:E; [| now apply IH].
    apply streq_spec in E. subst k0. exfalso. apply Hx. apply list_elem_of_In.
    apply in_map_iff. now exists (k, v).
Qed.

Lemma occurrences_app s l1 l2 :
  occurrences s (l1 ++ l2) = (occurrences s l1 + occurrences s l2)%nat.
Proof. unfold occurrences. now rewrite List.filter_app, length_app. Qed.

Lemma counted_add before a b : counted (counted before a) b = counted before (a + b).
Proof. destruct a, b; simpl; try reflexivity; f_equal; lia. Qed.

(** A dictionary of counters, read through [view], that every step
    increments at one key: after a fold, each key has been incremented as
    often as it occurs. *)
Lemma tally_fold {St : Type} (P : jsstring -> Prop) (view : St -> jsstring -> option nat)
  (step : St -> jsstring -> St) :
  (forall s n k,
     P n ->
     view (step s n) k
     = if streq n k then Some (S (default 0%nat (view s k))) else view s k) ->
  forall names s k,
    Forall P names ->
    view (fold_left step names s) k = counted (view s k) (occurrences k names).
Proof.
  intros Hstep names. induction names as [| n names IH]; intros s k Hall; [reflexivity |].
  apply Forall_cons in Hall. destruct Hall as [Hn Hall].
  simpl fold_left. rewrite (IH _ _ Hall), (Hstep _ _ _ Hn).
  change (n :: names) with ([n] ++ names). rewrite occurrences_app, <- counted_add.
  f_equal. unfold occurrences. simpl. rewrite (streq_sym k n).
  destruct (streq n k); simpl; [f_equal; lia | reflexivity].
Qed.

Lemma fold_left_mapped {A B C : Type} (f : A -> C -> A) (g : B -> C) l : forall a,
  fold_left (fun a x => f a (g x)) l a = fold_left f (map g l) a.
Proof. induction l as [| x l IH]; intros a; simpl; [reflexivity | apply IH]. Qed.

Lemma insertDesc_descending {A : Type} (key : A -> nat) x l :
  descending key l -> descending key (insertDesc key x l).
Proof.
  induction l as [| y l IH]; simpl; intros H; [split; [constructor | exact I] |].
  destruct H as [Hy Hl]. destruct (key x <? key y)%nat eqn:E.
  - simpl. split; [| apply IH, Hl]. rewrite insertDesc_perm.
    constructor; [apply Nat.ltb_lt in E; lia | exact Hy].
  - apply Nat.ltb_ge in E. simpl. split; [| split; assumption].
    constructor; [exact E |]. eapply List.Forall_impl; [| exact Hy]. simpl. intros. lia.
Qed.

Lemma sortDesc_descending {A : Type} (key : A -> nat) l : descending key (sortDesc key l).
Proof.
  induction l as [| x l IH]; simpl; [exact I | now apply insertDesc_descending].
Qed.

Lemma descending_map {A B : Type} (key : B -> nat) (f : A -> B) l :
  descending (fun x => key (f x)) l -> descending key (map f l).
Proof.
  induction l as [| x l IH]; simpl; [tauto |]. intros [Hx Hl].
  split; [| now apply IH]. apply List.Forall_map. exact Hx.
Qed.

Lemma descending_firstn {A : Type} (key : A -> nat) n l :
  descending key l -> descending key (firstn n l).
Proof.
  revert n. induction l as [| x l IH]; intros [| n]; simpl; try tauto.
  intros [Hx Hl]. split; [| now apply IH].
  apply List.Forall_forall. intros y Hy. apply firstn_In in Hy.
  revert y Hy. now apply List.Forall_forall.
Qed.

Lemma sum_insertDesc {A : Type} (key g : A -> nat) x l :
  sum_list_with g (insertDesc key x l) = (g x + sum_list_with g l)%nat.
Proof.
  induction l as [| y l IH]; simpl; [reflexivity |].
  destruct (key x <? key y)%nat; simpl; [rewrite IH; lia | reflexivity].
Qed.

Lemma sum_sortDesc {A : Type} (key g : A -> nat) l :
  sum_list_with g (sortDesc key l) = sum_list_with g l.
Proof.
  induction l as [| x l IH]; simpl; [reflexivity |]. now rewrite sum_insertDesc, IH.
Qed.

(** *** Pizza popularity *)

Lemma bump_assoc counts n k :
  inherited n = false ->
  assoc k (bump counts n)
  = if streq n k then Some (S (default 0%nat (assoc k counts))) else assoc k counts.
Proof.
  intros Hn. rewrite (bump_own _ _ Hn). destruct (assoc n counts) as [c |] eqn:E.
  - rewrite assoc_alterAssoc. destruct (streq n k) eqn:F; [| reflexivity].
    apply streq_spec in F. subst k. rewrite E. simpl. f_equal. lia.
  - rewrite assoc_snoc. destruct (streq n k) eqn:F.
    + apply streq_spec in F. subst k. now rewrite E.
    + now destruct (assoc k counts).
Qed.

Lemma bump_keys_NoDup counts n : NoDup (map fst counts) -> NoDup (map fst (bump counts n)).
Proof.
  intros H. unfold bump. destruct (assoc n counts) eqn:E.
  - now rewrite alterAssoc_keys.
  - destruct (streq n (lit "__proto__")); [exact H | now apply snoc_keys_NoDup].
Qed.

Lemma bump_fold_keys_NoDup names : forall counts,
  NoDup (map fst counts) -> NoDup (map fst (fold_left bump names counts)).
Proof.
  induction names as [| n names IH]; intros counts H; simpl; [exact H |].
  apply IH. now apply bump_keys_NoDup.
Qed.

Lemma popularity_fold_names host data : forall counts,
  fold_left (fun counts row => popularityStep host counts (getValue host row Field.pizzaType))
    data counts
  = fold_left bump (pizzaNames host data) counts.
Proof.
  induction data as [| row data IH]; intros counts; [reflexivity |].
  simpl fold_left. rewrite IH. unfold pizzaNames. simpl flat_map. rewrite fold_left_app.
  f_equal. unfold popularityStep.
  destruct (getValue host row Field.pizzaType) as [| c v]; [reflexivity |].
  simpl truthy. cbv iota. apply fold_left_mapped.
Qed.

Lemma popularity_entries host data :
  numericKeys host data ->
  let counts := fold_left bump (pizzaNames host data) [] in
  Popularity.items (processPizzaPopularity host data)
  = map (fun e => {| Popularity.name := fst e; Popularity.count := snd e |})
      (sortDesc snd (entries counts)) /\
  NoDup (map fst counts) /\
  forall name, assoc name counts = counted None (occurrences name (pizzaNames host data)).
Proof.
  intros Hkeys counts. split; [| split].
  - unfold processPizzaPopularity. cbn [Popularity.items].
    now rewrite popularity_fold_names.
  - apply bump_fold_keys_NoDup. constructor.
  - intros name.
    apply (tally_fold (fun n => inherited n = false) (fun s k => assoc k s) bump);
      [intros s n k Hn; now apply bump_assoc | exact Hkeys].
Qed.

Lemma popularity_item_iff host data name n :
  numericKeys host data ->
  In {| Popularity.name := name; Popularity.count := n |}
    (Popularity.items (processPizzaPopularity host data)) <->
  n = occurrences name (pizzaNames host data) /\ (0 < n)%nat.
Proof.
  intros Hkeys. destruct (popularity_entries host data Hkeys) as (-> & Hnd & Hview).
  set (counts := fold_left bump (pizzaNames host data) []) in *.
  assert (Hperm : sortDesc snd (entries counts) ≡ₚ counts)
    by (rewrite sortDesc_perm; apply entries_perm).
  rewrite in_map_iff. split.
  - intros ([k c] & Heq & Hin). simpl in Heq. inversion Heq. subst k c.
    apply (Permutation_in _ Hperm) in Hin.
    apply (assoc_NoDup_In _ _ _ Hnd) in Hin. rewrite Hview in Hin.
    destruct (occurrences name (pizzaNames host data)); [discriminate |].
    simpl in Hin. inversion Hin. split; lia.
  - intros [-> Hpos]. exists (name, occurrences name (pizzaNames host data)).
    split; [reflexivity |].
    apply (Permutation_in _ (Permutation_sym Hperm)).
    apply assoc_In. rewrite Hview.
    destruct (occurrences name (pizzaNames host data)); [lia | reflexivity].
Qed.

(** X5.  When no pizza is counted under the name of a member of
    [Object.prototype], the popularity items come in descending order of
    count, carry pairwise different names, and list exactly the names
    answered at least once, each with the number of answers that normalise
    to it. *)
Theorem pizzaPopularity_items host data :
  numericKeys host data ->
  let items := Popularity.items (processPizzaPopularity host data) in
  descending Popularity.count items /\
  NoDup (map Popularity.name items) /\
  forall name n,
    In {| Popularity.name := name; Popularity.count := n |} items <->
    n = occurrences name (pizzaNames host data) /\ (0 < n)%nat.
Proof.
  intros Hkeys items. subst items. split; [| split].
  - destruct (popularity_entries host data Hkeys) as (-> & _ & _).
    apply descending_map. simpl. apply sortDesc_descending.
  - destruct (popularity_entries host data Hkeys) as (-> & Hnd & _).
    rewrite map_map. simpl.
    assert (P : map (fun x => fst x)
                  (sortDesc snd (entries (fold_left bump (pizzaNames host data) [])))
                ≡ₚ map fst (fold_left bump (pizzaNames host data) [])).
    { apply Permutation_map. rewrite sortDesc_perm. apply entries_perm. }
    rewrite P. exact Hnd.
  - intros name n. now apply popularity_item_iff.
Qed.

Lemma pizzaPopularity_items_witness :
  numericKeys asciiHost surveySample /\
  In {| Popularity.name := lit "Pepperoni"; Popularity.count := 2 |}
    (Popularity.items (processPizzaPopularity asciiHost surveySample)).
Proof.
  assert (Hkeys : numericKeys asciiHost surveySample) by (vm_compute; repeat constructor).
  split; [exact Hkeys |].
  destruct (pizzaPopularity_items asciiHost surveySample Hkeys) as (_ & _ & Hitems).
  apply Hitems. vm_compute. split; [reflexivity | lia].
Defined.

(** A pizza named "constructor" is looked up in the alias table, where the
    lookup finds the function [Object]: the pizza is counted under the
    source text of that function. *)
Example pizzaPopularity_constructor :
  processPizzaPopularity asciiHost [[(lit "Pizza", lit "constructor, pep")]]
  = {| Popularity.items :=
         [{| Popularity.name := lit "function Object() { [native code] }";
             Popularity.count := 1 |};
          {| Popularity.name := lit "Pepperoni"; Popularity.count := 1 |}];
       Popularity.total := 2 |}.
Proof. vm_compute. reflexivity. Qed.

(** A pizza named "42" is listed before the pizzas counted as often, though
    it was answered last: its name is an array index. *)
Example pizzaPopularity_array_index :
  map Popularity.name
    (Popularity.items
       (processPizzaPopularity asciiHost [[(lit "Pizza", lit "pep, cheese, 42")]]))
  = [lit "42"; lit "Pepperoni"; lit "Cheese"].
Proof. vm_compute. reflexivity. Qed.

(** *** Dictionaries that group the answers

    [processFeelings] and [processWordCloud] keep one entry per key: the
    first answer under a key creates the entry and every answer under the
    key increments it, unless the key names a member of [Object.prototype]. *)

Lemma sum_list_with_Permutation {A : Type} (g : A -> nat) l l' :
  l ≡ₚ l' -> sum_list_with g l = sum_list_with g l'.
Proof.
  induction 1 as [| x l l' _ IH | x y l | l l' l'' _ IH1 _ IH2].
  - reflexivity.
  - simpl. now rewrite IH.
  - simpl. lia.
  - now transitivity (sum_list_with g l').
Qed.

Lemma alterAssoc_sum_succ {V : Type} (c : V -> nat) f key (obj : list (jsstring * V)) v :
  assoc key obj = Some v -> (forall v, c (f v) = S (c v)) ->
  sum_list_with (fun e => c (snd e)) (alterAssoc f key obj)
  = S (sum_list_with (fun e => c (snd e)) obj).
Proof.
  intros E Hf. induction obj as [| [k0 v0] obj IH]; simpl in *; [discriminate |].
  destruct (streq k0 key); simpl; [rewrite Hf; lia |]. rewrite IH by exact E. lia.
Qed.

Section Grouping.

Context {V X : Type}.
Context (keyOf : X -> option jsstring) (create : X -> V) (increment : V -> V).
Context (step : list (jsstring * V) -> X -> list (jsstring * V)).

Hypothesis step_spec : forall d x,
  step d x
  = match keyOf x with
    | None => d
    | Some key =>
        alterAssoc increment key
          (match assoc key d with
           | Some _ => d
           | None => if inherited key then d else d ++ [(key, create x)]
           end)
    end.

Lemma group_step_keys_NoDup d x : NoDup (map fst d) -> NoDup (map fst (step d x)).
Proof.
  intros H. rewrite step_spec. destruct (keyOf x) as [key |]; [| exact H].
  rewrite alterAssoc_keys. destruct (assoc key d) eqn:E; [exact H |].
  destruct (inherited key); [exact H | now apply snoc_keys_NoDup].
Qed.

Lemma group_fold_keys_NoDup xs : forall d,
  NoDup (map fst d) -> NoDup (map fst (fold_left step xs d)).
Proof.
  induction xs as [| x xs IH]; intros d H; simpl; [exact H |].
  apply IH, group_step_keys_NoDup, H.
Qed.

Lemma group_step_assoc d x k :
  assoc k (step d x)
  = match keyOf x with
    | Some key =>
        if streq key k
        then match assoc k d with
             | Some v => Some (increment v)
             | None => if inherited k then None else Some (increment (create x))
             end
        else assoc k d
    | None => assoc k d
    end.
Proof.
  rewrite step_spec. destruct (keyOf x) as [key |]; [| reflexivity].
  rewrite assoc_alterAssoc. destruct (streq key k) eqn:F.
  - apply streq_spec in F. subst k. destruct (assoc key d) as [v |] eqn:E.
    + now rewrite E.
    + destruct (inherited key); [now rewrite E |].
      now rewrite assoc_snoc, E, streq_refl.
  - destruct (assoc key d) eqn:E; [reflexivity |].
    destruct (inherited key); [reflexivity |].
    rewrite assoc_snoc. destruct (assoc k d); [reflexivity | now rewrite F].
Qed.

(** After the loop, the entry of a key is the one its first answer created,
    incremented once per answer under the key. *)
Lemma group_fold_assoc xs : forall d k,
  assoc k (fold_left step xs d)
  = match assoc k d with
    | Some v => Some (Nat.iter (occurrences k (omap keyOf xs)) increment v)
    | None =>
        if inherited k then None
        else match firstWith keyOf k xs with
             | Some x => Some (Nat.iter (occurrences k (omap keyOf xs)) increment (create x))
             | None => None
             end
    end.
Proof.
  induction xs as [| x xs IH]; intros d k.
  - simpl. destruct (assoc k d); [reflexivity | now destruct (inherited k)].
  - simpl fold_left. rewrite IH, group_step_assoc, omap_cons.
    unfold firstWith. cbn [List.find]. fold (firstWith keyOf k xs).
    destruct (keyOf x) as [key |]; [| reflexivity].
    destruct (streq key k) eqn:F.
    + assert (Hocc : occurrences k (key :: omap keyOf xs)
                     = S (occurrences k (omap keyOf xs))).
      { unfold occurrences. cbn [List.filter]. rewrite streq_sym, F. reflexivity. }
      rewrite Hocc. destruct (assoc k d) as [v |].
      * now rewrite Nat.iter_succ_r.
      * destruct (inherited k); [reflexivity | now rewrite Nat.iter_succ_r].
    + assert (Hocc : occurrences k (key :: omap keyOf xs) = occurrences k (omap keyOf xs)).
      { unfold occurrences. cbn [List.filter]. rewrite streq_sym, F. reflexivity. }
      now rewrite Hocc.
Qed.

Lemma firstWith_key k xs x : firstWith keyOf k xs = Some x -> In x xs /\ keyOf x = Some k.
Proof.
  intros H. apply find_some in H. destruct H as [Hin Hk]. split; [exact Hin |].
  destruct (keyOf x) as [key |]; [| discriminate].
  apply streq_spec in Hk. now subst.
Qed.

Lemma firstWith_found k xs : In k (omap keyOf xs) -> exists x, firstWith keyOf k xs = Some x.
Proof.
  intros H. destruct (firstWith keyOf k xs) as [x |] eqn:E; [eauto |].
  exfalso. induction xs as [| y xs IH]; [destruct H |].
  rewrite omap_cons in H. unfold firstWith in E. cbn [List.find] in E.
  destruct (keyOf y) as [key |].
  - destruct (streq key k) eqn:F; [discriminate |].
    destruct H as [-> | H]; [now rewrite streq_refl in F | now apply IH].
  - now apply IH.
Qed.

(** The keys of the dictionary are the keys answered, without the names of
    the members of [Object.prototype]. *)
Lemma group_fold_keys xs k :
  In k (map fst (fold_left step xs [])) <-> In k (ownKeys (omap keyOf xs)).
Proof.
  unfold ownKeys. rewrite List.filter_In, negb_true_iff. split.
  - intros H. destruct (assoc_of_key _ _ H) as (v & Hv & _).
    rewrite group_fold_assoc in Hv. simpl in Hv.
    destruct (inherited k); [discriminate |].
    destruct (firstWith keyOf k xs) as [x |] eqn:E; [| discriminate].
    apply firstWith_key in E. destruct E as [Hin Hk]. split; [| reflexivity].
    clear -Hin Hk. induction xs as [| y xs IH]; [destruct Hin |].
    rewrite omap_cons. destruct Hin as [-> | Hin].
    + rewrite Hk. now left.
    + destruct (keyOf y); [right |]; now apply IH.
  - intros [Hin Hown]. destruct (firstWith_found k xs Hin) as [x Hx].
    pose proof (group_fold_assoc xs [] k) as H. simpl in H. rewrite Hown, Hx in H.
    apply assoc_In in H. apply in_map_iff. eexists. split; [| exact H]. reflexivity.
Qed.

(** An entry of the dictionary is what the first answer under its key
    created, incremented once per answer under the key. *)
Lemma group_fold_entry xs k v :
  In (k, v) (fold_left step xs []) ->
  inherited k = false /\
  exists x,
    firstWith keyOf k xs = Some x /\
    v = Nat.iter (occurrences k (omap keyOf xs)) increment (create x).
Proof.
  intros H.
  apply (assoc_NoDup_In _ _ _ (group_fold_keys_NoDup xs [] NoDup_nil_2)) in H.
  rewrite group_fold_assoc in H. simpl in H.
  destruct (inherited k); [discriminate |]. split; [reflexivity |].
  destruct (firstWith keyOf k xs) as [x |]; [| discriminate].
  injection H as <-. eauto.
Qed.

Lemma group_step_own d x :
  Forall (fun e => inherited (fst e) = false) d ->
  Forall (fun e => inherited (fst e) = false) (step d x).
Proof.
  intros H. rewrite step_spec. destruct (keyOf x) as [key |]; [| exact H].
  assert (Halter : forall d', Forall (fun e => inherited (fst e) = false) d' ->
                     Forall (fun e => inherited (fst e) = false)
                       (alterAssoc increment key d')).
  { induction 1 as [| [k0 v0] d' Hk Hd IH]; simpl; [constructor |].
    destruct (streq k0 key); constructor; assumption. }
  apply Halter. destruct (assoc key d); [exact H |].
  destruct (inherited key) eqn:E; [exact H |].
  apply Forall_app. split; [exact H |]. constructor; [exact E | constructor].
Qed.

(** The counters of the dictionary add up to the number of answers under a
    key that is no member of [Object.prototype]. *)
Lemma group_fold_sum (count : V -> nat) xs :
  (forall v, count (increment v) = S (count v)) ->
  (forall x, count (create x) = 0%nat) ->
  forall d,
    Forall (fun e => inherited (fst e) = false) d ->
    sum_list_with (fun e => count (snd e)) (fold_left step xs d)
    = (sum_list_with (fun e => count (snd e)) d + length (ownKeys (omap keyOf xs)))%nat.
Proof.
  intros Hincrement Hcreate. induction xs as [| x xs IH]; intros d Hown; [simpl; lia |].
  cbn [fold_left]. rewrite (IH _ (group_step_own d x Hown)), omap_cons, step_spec.
  destruct (keyOf x) as [key |]; [| reflexivity].
  unfold ownKeys. cbn [List.filter].
  destruct (assoc key d) as [v |] eqn:E.
  - assert (Hkey : inherited key = false).
    { apply assoc_In in E. rewrite Forall_forall in Hown.
      apply (Hown (key, v)), list_elem_of_In, E. }
    rewrite Hkey. cbn [negb length].
    rewrite (alterAssoc_sum_succ count increment key d v E Hincrement). lia.
  - destruct (inherited key) eqn:Hkey; cbn [negb length].
    + assert (Hsame : alterAssoc increment key d = d).
      { clear -E. induction d as [| [k0 v0] d IH]; [reflexivity |]. simpl in *.
        destruct (streq k0 key); [discriminate | now rewrite IH]. }
      rewrite Hsame. lia.
    + rewrite alterAssoc_fresh by exact E. rewrite !sum_list_with_app. simpl.
      rewrite Hincrement, Hcreate. lia.
Qed.

End Grouping.

Lemma insertDesc_map {A B : Type} (f : A -> B) (key : B -> nat) x l :
  map f (insertDesc (fun a => key (f a)) x l) = insertDesc key (f x) (map f l).
Proof.
  induction l as [| y l IH]; simpl; [reflexivity |].
  destruct (key (f x) <? key (f y))%nat; simpl; [now rewrite IH | reflexivity].
Qed.

Lemma sortDesc_map {A B : Type} (f : A -> B) (key : B -> nat) l :
  map f (sortDesc (fun a => key (f a)) l) = sortDesc key (map f l).
Proof.
  induction l as [| x l IH]; simpl; [reflexivity |].
  now rewrite insertDesc_map, IH.
Qed.

Lemma occurrences_In s l : (0 < occurrences s l)%nat <-> In s l.
Proof.
  unfold occurrences. induction l as [| x l IH]; simpl; [split; [lia | tauto] |].
  destruct (streq s x) eqn:E.
  - apply streq_spec in E. subst x. simpl. split; [now left | lia].
  - rewrite IH. split; [now right |]. intros [-> | H]; [| exact H].
    now rewrite streq_refl in E.
Qed.

Lemma occurrences_ownKeys key keys :
  inherited key = false -> occurrences key (ownKeys keys) = occurrences key keys.
Proof.
  intros Hkey. unfold occurrences, ownKeys.
  induction keys as [| k keys IH]; [reflexivity |]. cbn [List.filter].
  destruct (streq key k) eqn:E.
  - apply streq_spec in E. subst k. rewrite Hkey. cbn [negb List.filter].
    rewrite streq_refl. cbn [length]. now rewrite IH.
  - destruct (inherited k); cbn [negb List.filter]; [exact IH |]. now rewrite E.
Qed.

Lemma sum_list_with_map {A B : Type} (g : B -> nat) (h : A -> B) l :
  sum_list_with g (map h l) = sum_list_with (fun x => g (h x)) l.
Proof. induction l as [| x l IH]; simpl; [reflexivity | now rewrite IH]. Qed.

(** *** Word cloud *)

Lemma wordStep_spec host d (answer : jsstring * jsstring) :
  wordStep host (fst answer) d (snd answer)
  = match wordOf answer with
    | None => d
    | Some key =>
        alterAssoc
          (fun w => {| WordCloud.text := WordCloud.text w;
                       WordCloud.count := S (WordCloud.count w) |})
          key
          (match assoc key d with
           | Some _ => d
           | None =>
               if inherited key then d
               else d ++ [(key, {| WordCloud.text :=
                                     trim (displayWord host (fst answer) (snd answer));
                                   WordCloud.count := 0 |})]
           end)
    end.
Proof. reflexivity. Qed.

Lemma wordCloud_fold_pairs host data : forall words,
  fold_left (fun words row => wordCloudStep host words (getValue host row Field.oneWord))
    data words
  = fold_left (fun words answer => wordStep host (fst answer) words (snd answer))
      (cloudPairs host data) words.
Proof.
  induction data as [| row data IH]; intros words; [reflexivity |].
  simpl fold_left. rewrite IH. unfold cloudPairs. simpl flat_map. rewrite fold_left_app.
  f_equal. unfold wordCloudStep.
  destruct (truthy (getValue host row Field.oneWord)); [| reflexivity].
  exact (fold_left_mapped
           (fun words answer => wordStep host (fst answer) words (snd answer))
           (pair (getValue host row Field.oneWord)) _ words).
Qed.

Lemma cloudWords_pairs host data : omap wordOf (cloudPairs host data) = cloudWords host data.
Proof.
  unfold cloudPairs, cloudWords. induction data as [| row data IH]; [reflexivity |].
  simpl flat_map. rewrite omap_app, IH. f_equal.
  destruct (truthy (getValue host row Field.oneWord)); [| reflexivity].
  induction (wordListOf host (getValue host row Field.oneWord)) as [| w l IHl];
    [reflexivity |].
  rewrite map_cons, omap_cons. simpl. now rewrite IHl.
Qed.

Lemma iter_count_word n text :
  Nat.iter n
    (fun w => {| WordCloud.text := WordCloud.text w;
                 WordCloud.count := S (WordCloud.count w) |})
    {| WordCloud.text := text; WordCloud.count := 0 |}
  = {| WordCloud.text := text; WordCloud.count := n |}.
Proof. induction n as [| n IH]; [reflexivity |]. simpl. now rewrite IH. Qed.

(** X6.  The word cloud is the first fifty of a ranking that holds one item
    for every word kept from the answers, apart from the words that name a
    member of [Object.prototype]: the ranking is in descending order of
    count, the count of a word is the number of times it was kept, whatever
    the case it was written in, and its text is its spelling in the first
    answer that holds it. *)
Theorem wordCloud_items host data :
  let items := processWordCloud host data in
  (length items <= 50)%nat /\
  descending WordCloud.count items /\
  exists ranked : list (jsstring * WordCloud.item),
    items = firstn 50 (map snd ranked) /\
    NoDup (map fst ranked) /\
    descending (fun entry => WordCloud.count (snd entry)) ranked /\
    (forall word,
       In word (map fst ranked) <->
       In word (cloudWords host data) /\ inherited word = false) /\
    (forall word item,
       In (word, item) ranked ->
       WordCloud.count item = occurrences word (cloudWords host data) /\
       exists value,
         firstWith wordOf word (cloudPairs host data) = Some (value, word) /\
         WordCloud.text item = trim (displayWord host value word)).
Proof.
  intros items. subst items. unfold processWordCloud.
  rewrite wordCloud_fold_pairs.
  set (step := fun words (answer : jsstring * jsstring) =>
                 wordStep host (fst answer) words (snd answer)).
  set (words := fold_left step (cloudPairs host data) []).
  split; [apply firstn_le_length |].
  split; [apply descending_firstn, sortDesc_descending |].
  exists (sortDesc (fun entry => WordCloud.count (snd entry)) (entries words)).
  assert (Hperm : sortDesc (fun entry => WordCloud.count (snd entry)) (entries words)
                  ≡ₚ words)
    by (rewrite sortDesc_perm; apply entries_perm).
  split; [now rewrite (sortDesc_map snd WordCloud.count) |].
  split.
  { rewrite Hperm. apply (group_fold_keys_NoDup wordOf _ _ step (wordStep_spec host)).
    constructor. }
  split; [apply sortDesc_descending |].
  split.
  - intros word.
    assert (Hkeys : In word
                      (map fst (sortDesc (fun entry => WordCloud.count (snd entry))
                                  (entries words)))
                    <-> In word (map fst words)).
    { split; apply Permutation_in, Permutation_map;
        [exact Hperm | exact (Permutation_sym Hperm)]. }
    rewrite Hkeys. unfold words.
    rewrite (group_fold_keys wordOf _ _ step (wordStep_spec host)), cloudWords_pairs.
    unfold ownKeys. rewrite List.filter_In, negb_true_iff. reflexivity.
  - intros word item Hin. apply (Permutation_in _ Hperm) in Hin.
    destruct (group_fold_entry wordOf _ _ step (wordStep_spec host) _ _ _ Hin)
      as (_ & [value word'] & Hfirst & ->).
    destruct (firstWith_key wordOf _ _ _ Hfirst) as [_ Hword].
    injection Hword as Hword. simpl in Hword. subst word'.
    rewrite cloudWords_pairs, iter_count_word. cbn [WordCloud.count WordCloud.text fst snd].
    split; [reflexivity |]. exists value. split; [exact Hfirst | reflexivity].
Qed.

(** The word "constructor" finds the function [Object] in the dictionary:
    it gets no item. *)
Example wordCloud_constructor :
  processWordCloud asciiHost [[(lit "One Word", lit "Constructor crispy")]]
  = [{| WordCloud.text := lit "crispy"; WordCloud.count := 1 |}].
Proof. vm_compute. reflexivity. Qed.

(** *** Feelings *)

Lemma feelingKeys_omap host data :
  feelingKeys host data
  = omap (feelingKey host) (map (fun row => getValue host row Field.feeling) data).
Proof.
  unfold feelingKeys, feelingKey. induction data as [| row data IH]; [reflexivity |].
  rewrite !map_cons, omap_cons. simpl List.filter.
  destruct (truthy (getValue host row Field.feeling)); [rewrite map_cons |]; now rewrite IH.
Qed.

Lemma feelingsStep_spec host d value :
  feelingsStep host d value
  = match feelingKey host value with
    | None => d
    | Some key =>
        alterAssoc
          (fun f => {| Feelings.original := Feelings.original f;
                       Feelings.entryEmoji := Feelings.entryEmoji f;
                       Feelings.entryColor := Feelings.entryColor f;
                       Feelings.entryCount := S (Feelings.entryCount f) |})
          key
          (match assoc key d with
           | Some _ => d
           | None =>
               if inherited key then d
               else d ++ [(key,
                           {| Feelings.original := trim value;
                              Feelings.entryEmoji :=
                                match matchEmoji value with
                                | Some (first :: _) => first
                                | _ => fallbackEmoji
                                end;
                              Feelings.entryColor :=
                                feelingColor (trim (toLowerCase host value));
                              Feelings.entryCount := 0 |})]
           end)
    end.
Proof. unfold feelingsStep, feelingKey. now destruct (truthy value). Qed.

Lemma iter_count_feeling n original emoji color :
  Nat.iter n
    (fun f => {| Feelings.original := Feelings.original f;
                 Feelings.entryEmoji := Feelings.entryEmoji f;
                 Feelings.entryColor := Feelings.entryColor f;
                 Feelings.entryCount := S (Feelings.entryCount f) |})
    {| Feelings.original := original; Feelings.entryEmoji := emoji;
       Feelings.entryColor := color; Feelings.entryCount := 0 |}
  = {| Feelings.original := original; Feelings.entryEmoji := emoji;
       Feelings.entryColor := color; Feelings.entryCount := n |}.
Proof. induction n as [| n IH]; [reflexivity |]. simpl. now rewrite IH. Qed.

(** The feelings total counts the non-empty answers whose key is no member
    of [Object.prototype]. *)
Lemma processFeelings_total host data :
  Feelings.total (processFeelings host data) = length (ownKeys (feelingKeys host data)).
Proof.
  unfold processFeelings. cbn [Feelings.total].
  rewrite fold_left_cells, fold_left_sum, sum_list_with_map. simpl.
  rewrite (sum_list_with_Permutation _ _ _ (entries_perm _)).
  rewrite (group_fold_sum (feelingKey host) _ _ (feelingsStep host) (feelingsStep_spec host)
             Feelings.entryCount);
    [| reflexivity | reflexivity | constructor].
  simpl. now rewrite feelingKeys_omap.
Qed.

(** X7.  The feelings total counts every non-empty answer, apart from those
    that name a member of [Object.prototype], and is the sum of the item
    counts.  The items come in descending order of count, one for each group
    of answers that agree up to case and surrounding white space: the count
    of an item is the number of answers of its group, its percentage is
    taken against the total, its colour is that of the group's key, and its
    label and emoji are those of the first answer of the group. *)
Theorem feelings_items host data :
  let result := processFeelings host data in
  let keys := ownKeys (feelingKeys host data) in
  Feelings.total result = length keys /\
  sum_list_with Feelings.count (Feelings.items result) = Feelings.total result /\
  descending Feelings.count (Feelings.items result) /\
  exists ranked : list (jsstring * Feelings.item),
    Feelings.items result = map snd ranked /\
    NoDup (map fst ranked) /\
    (forall key, In key (map fst ranked) <-> In key keys) /\
    (forall key item,
       In (key, item) ranked ->
       Feelings.count item = occurrences key keys /\
       Feelings.percentage item = percent (Feelings.count item) (Feelings.total result) /\
       Feelings.color item = feelingColor key /\
       exists value,
         firstWith (feelingKey host) key
           (map (fun row => getValue host row Field.feeling) data) = Some value /\
         Feelings.feeling item = trim (removeEmoji (trim value)) /\
         Feelings.emoji item
         = match matchEmoji value with
           | Some (first :: _) => first
           | _ => fallbackEmoji
           end).
Proof.
  intros result keys. subst result keys.
  split; [apply processFeelings_total |].
  pose proof (processFeelings_total host data) as Htotal.
  unfold processFeelings in *. cbn [Feelings.total Feelings.items] in *.
  rewrite fold_left_cells in *.
  set (values := map (fun row => getValue host row Field.feeling) data) in *.
  set (dict := fold_left (feelingsStep host) values []) in *.
  set (total := fold_left _ (map snd (entries dict)) 0%nat) in *.
  set (itemOf := fun f : Feelings.entry =>
                   {| Feelings.feeling := trim (removeEmoji (Feelings.original f));
                      Feelings.count := Feelings.entryCount f;
                      Feelings.percentage := percent (Feelings.entryCount f) total;
                      Feelings.emoji := Feelings.entryEmoji f;
                      Feelings.color := Feelings.entryColor f |}).
  split.
  { rewrite sum_sortDesc, !sum_list_with_map. unfold total.
    now rewrite fold_left_sum, sum_list_with_map. }
  split; [apply sortDesc_descending |].
  set (ranked := sortDesc (fun entry : jsstring * Feelings.item => Feelings.count (snd entry))
                   (map (fun e => (fst e, itemOf (snd e))) (entries dict))).
  assert (Hperm : ranked ≡ₚ map (fun e => (fst e, itemOf (snd e))) dict).
  { unfold ranked. rewrite sortDesc_perm. apply Permutation_map, entries_perm. }
  assert (Hkeys : forall key, In key (map fst ranked) <-> In key (map fst dict)).
  { intros key.
    assert (E : map fst (map (fun e : jsstring * Feelings.entry => (fst e, itemOf (snd e))) dict)
                = map fst dict) by (rewrite map_map; reflexivity).
    rewrite <- E. split; apply Permutation_in, Permutation_map;
      [exact Hperm | exact (Permutation_sym Hperm)]. }
  exists ranked. split.
  { unfold ranked. rewrite (sortDesc_map snd Feelings.count), !map_map. reflexivity. }
  split.
  { assert (E : map fst ranked ≡ₚ map fst dict).
    { rewrite Hperm, map_map. reflexivity. }
    rewrite E.
    apply (group_fold_keys_NoDup (feelingKey host) _ _ (feelingsStep host)
             (feelingsStep_spec host)).
    constructor. }
  split.
  - intros key. rewrite Hkeys. unfold dict.
    rewrite (group_fold_keys (feelingKey host) _ _ (feelingsStep host)
               (feelingsStep_spec host)).
    unfold values. now rewrite feelingKeys_omap.
  - intros key item Hin. apply (Permutation_in _ Hperm) in Hin.
    apply in_map_iff in Hin. destruct Hin as ([key' entry] & Heq & Hin).
    simpl in Heq. injection Heq as -> <-.
    destruct (group_fold_entry (feelingKey host) _ _ (feelingsStep host)
                (feelingsStep_spec host) _ _ _ Hin) as (Hown & value & Hfirst & ->).
    destruct (firstWith_key (feelingKey host) _ _ _ Hfirst) as [_ Hkey].
    rewrite iter_count_feeling. unfold itemOf.
    cbn [Feelings.count Feelings.percentage Feelings.color Feelings.feeling Feelings.emoji
         Feelings.original Feelings.entryCount Feelings.entryEmoji Feelings.entryColor].
    rewrite (occurrences_ownKeys _ _ Hown), feelingKeys_omap. fold values.
    split; [reflexivity |]. split; [now rewrite Htotal |]. split.
    + unfold feelingKey in Hkey. destruct (truthy value); [| discriminate].
      now injection Hkey as ->.
    + exists value. split; [exact Hfirst |]. split; reflexivity.
Qed.

(** The answer "constructor" finds the function [Object] in the dictionary:
    it makes no item and is not counted in the total. *)
Example feelings_constructor :
  let result :=
    processFeelings asciiHost
      [[(lit "Feeling", lit "constructor")]; [(lit "Feeling", lit "Joy")]] in
  Feelings.total result = 1%nat /\ map Feelings.feeling (Feelings.items result) = [lit "Joy"].
Proof. vm_compute. split; reflexivity. Qed.

(** *** The closed categories *)

Lemma answers_cons {C : Type} `{EqDecision C} host field (rules : list (C * list jsstring))
  category row data :
  answers host field rules category (row :: data)
  = ((if truthy (getValue host row field)
         && bool_decide (classify host rules (getValue host row field) = Some category)
      then 1 else 0)
     + answers host field rules category data)%nat.
Proof.
  unfold answers. simpl.
  destruct (truthy (getValue host row field)
            && bool_decide (classify host rules (getValue host row field) = Some category));
    reflexivity.
Qed.

Lemma answers_distinct {C : Type} `{EqDecision C} host field (rules : list (C * list jsstring))
  (categories : list C) data :
  NoDup categories ->
  (sum_list_with (fun category => answers host field rules category data) categories
   <= length data)%nat.
Proof.
  intros Hnd. induction data as [| row data IH].
  - unfold answers. simpl. induction categories; simpl; [lia |].
    apply NoDup_cons in Hnd. destruct Hnd as [_ Hnd]. specialize (IHcategories Hnd). lia.
  - assert (Hone : (sum_list_with
                      (fun category =>
                         if truthy (getValue host row field)
                            && bool_decide (classify host rules (getValue host row field)
                                            = Some category)
                         then 1 else 0) categories <= 1)%nat).
    { clear IH. induction categories as [| c categories IHc]; simpl; [lia |].
      apply NoDup_cons in Hnd. destruct Hnd as [Hc Hnd]. specialize (IHc Hnd).
      destruct (truthy (getValue host row field)); simpl; [| simpl in IHc; lia].
      simpl in IHc. destruct (bool_decide_reflect
                  (classify host rules (getValue host row field) = Some c)) as [E |]; [| lia].
      assert (Hz : sum_list_with
                (fun category =>
                   if bool_decide (classify host rules (getValue host row field) = Some category)
                   then 1%nat else 0%nat) categories = 0%nat).
      { clear IHc Hnd. induction categories as [| c' categories IHc']; simpl; [reflexivity |].
        rewrite IHc' by set_solver.
        destruct (bool_decide_reflect
                    (classify host rules (getValue host row field) = Some c')) as [E' |];
          [| reflexivity].
        assert (c = c') by congruence. set_solver. }
      lia. }
    assert (Hsplit : sum_list_with
               (fun category => answers host field rules category (row :: data)) categories
             = (sum_list_with
                  (fun category =>
                     if truthy (getValue host row field)
                        && bool_decide (classify host rules (getValue host row field)
                                        = Some category)
                     then 1 else 0) categories
                + sum_list_with (fun category => answers host field rules category data)
                    categories)%nat).
    { clear. induction categories as [| c categories IHc]; simpl; [reflexivity |].
      rewrite IHc, answers_cons. lia. }
    rewrite Hsplit. simpl length. lia.
Qed.

Ltac pairwise :=
  repeat match goal with |- (_, _) = (_, _) => apply f_equal2 end; lia.

Ltac count_decided :=
  repeat first
    [ rewrite bool_decide_eq_true_2 by reflexivity
    | rewrite bool_decide_eq_false_2 by discriminate ].

Lemma orderAgain_fold host data : forall yes meh,
  fold_left (fun acc row => orderAgainStep host acc (getValue host row Field.orderAgain))
    data (yes, meh)
  = ((yes + answers host Field.orderAgain orderAgainRules Yes data)%nat,
     (meh + answers host Field.orderAgain orderAgainRules Meh data)%nat).
Proof.
  induction data as [| row data IH]; intros; [unfold answers; simpl; pairwise |].
  simpl fold_left. rewrite !answers_cons.
  set (value := getValue host row Field.orderAgain).
  rewrite orderAgainOf_classify.
  destruct (truthy value); simpl andb; cbv iota.
  - destruct (classify host orderAgainRules value) as [[|] |]; rewrite IH;
      count_decided; pairwise.
  - rewrite IH. pairwise.
Qed.

(** X8.  Each counter of [processOrderAgain] is the number of rows whose
    non-empty answer the keyword rules send to its category, the total is
    their sum, and no more than the number of rows: an answer is counted at
    most once. *)
Theorem processOrderAgain_counts host data :
  let result := processOrderAgain host data in
  OrderAgain.count (OrderAgain.yes result)
    = answers host Field.orderAgain orderAgainRules Yes data /\
  OrderAgain.count (OrderAgain.meh result)
    = answers host Field.orderAgain orderAgainRules Meh data /\
  OrderAgain.total result
    = (OrderAgain.count (OrderAgain.yes result)
       + OrderAgain.count (OrderAgain.meh result))%nat /\
  (OrderAgain.total result <= length data)%nat.
Proof.
  intros result. subst result. unfold processOrderAgain. rewrite orderAgain_fold. simpl.
  split; [reflexivity |]. split; [reflexivity |]. split; [reflexivity |].
  pose proof (answers_distinct host Field.orderAgain orderAgainRules [Yes; Meh] data) as H.
  simpl in H. rewrite Nat.add_0_r in H. apply H.
  apply (bool_decide_unpack _). reflexivity.
Qed.

Lemma tiers_fold host data : forall top solid mid,
  fold_left (fun acc row => tiersStep host acc (getValue host row Field.tier))
    data (top, solid, mid)
  = ((top + answers host Field.tier tierRules TopTier data)%nat,
     (solid + answers host Field.tier tierRules SolidChoice data)%nat,
     (mid + answers host Field.tier tierRules Mid data)%nat).
Proof.
  induction data as [| row data IH]; intros; [unfold answers; simpl; pairwise |].
  simpl fold_left. rewrite !answers_cons.
  set (value := getValue host row Field.tier).
  rewrite tierOf_classify.
  destruct (truthy value); simpl andb; cbv iota.
  - destruct (classify host tierRules value) as [[| |] |]; rewrite IH;
      count_decided; pairwise.
  - rewrite IH. pairwise.
Qed.

(** X9.  The tier items are always Top Tier, Solid Choice and Mid, in this order;
    each count is the number of rows whose non-empty answer the keyword
    rules send to that tier, the total is their sum, and no more than the
    number of rows. *)
Theorem processTiers_counts host data :
  let result := processTiers host data in
  map (fun item => (Tiers.name item, Tiers.count item)) (Tiers.items result)
    = [(lit "Top Tier", answers host Field.tier tierRules TopTier data);
       (lit "Solid Choice", answers host Field.tier tierRules SolidChoice data);
       (lit "Mid", answers host Field.tier tierRules Mid data)] /\
  Tiers.total result = sum_list_with Tiers.count (Tiers.items result) /\
  (Tiers.total result <= length data)%nat.
Proof.
  intros result. subst result. unfold processTiers. rewrite tiers_fold. simpl.
  split; [reflexivity |]. split; [lia |].
  pose proof (answers_distinct host Field.tier tierRules [TopTier; SolidChoice; Mid] data) as H.
  simpl in H. rewrite Nat.add_0_r, Nat.add_assoc in H. apply H.
  apply (bool_decide_unpack _). reflexivity.
Qed.

Lemma coldPizza_fold host data : forall leftovers desperate never,
  fold_left (fun acc row => coldPizzaStep host acc (getValue host row Field.coldPizza))
    data (leftovers, desperate, never)
  = ((leftovers + answers host Field.coldPizza coldPizzaRules LeftoversPlease data)%nat,
     (desperate + answers host Field.coldPizza coldPizzaRules IfDesperate data)%nat,
     (never + answers host Field.coldPizza coldPizzaRules Never data)%nat).
Proof.
  induction data as [| row data IH]; intros; [unfold answers; simpl; pairwise |].
  simpl fold_left. rewrite !answers_cons.
  set (value := getValue host row Field.coldPizza).
  rewrite coldPizzaOf_classify.
  destruct (truthy value); simpl andb; cbv iota.
  - destruct (classify host coldPizzaRules value) as [[| |] |]; rewrite IH;
      count_decided; pairwise.
  - rewrite IH. pairwise.
Qed.

(** X10.  The cold pizza items are always Leftovers Please!, If Desperate and
    Never!, in this order; each count is the number of rows whose non-empty
    answer the keyword rules send to that preference, the total is their
    sum, and no more than the number of rows. *)
Theorem processColdPizza_counts host data :
  let result := processColdPizza host data in
  map (fun item => (ColdPizza.label item, ColdPizza.count item)) (ColdPizza.items result)
    = [(lit "Leftovers Please!",
        answers host Field.coldPizza coldPizzaRules LeftoversPlease data);
       (lit "If Desperate", answers host Field.coldPizza coldPizzaRules IfDesperate data);
       (lit "Never!", answers host Field.coldPizza coldPizzaRules Never data)] /\
  ColdPizza.total result = sum_list_with ColdPizza.count (ColdPizza.items result) /\
  (ColdPizza.total result <= length data)%nat.
Proof.
  intros result. subst result. unfold processColdPizza. rewrite coldPizza_fold. simpl.
  split; [reflexivity |]. split; [lia |].
  pose proof (answers_distinct host Field.coldPizza coldPizzaRules
                [LeftoversPlease; IfDesperate; Never] data) as H.
  simpl in H. rewrite Nat.add_0_r, Nat.add_assoc in H. apply H.
  apply (bool_decide_unpack _). reflexivity.
Qed.

(** ** The share link *)

Lemma round53_canonical x : Qred (round53 x) = round53 x.
Proof.
  unfold round53. destruct (x ?= 0)%Q; [reflexivity | |]; apply Qred_involutive.
Qed.

Lemma orZero_canonical x : Qred x = x -> orZero x = x.
Proof.
  intros H. unfold orZero. destruct (Qeq_bool x 0) eqn:E; [| reflexivity].
  apply Qeq_bool_eq in E. apply Qred_complete in E. rewrite H in E. now rewrite E.
Qed.

Lemma orZero_idempotent x : orZero (orZero x) = orZero x.
Proof.
  unfold orZero. destruct (Qeq_bool x 0) eqn:E; [reflexivity | now rewrite E].
Qed.

Lemma firstn_idempotent {A : Type} n (l : list A) : firstn n (firstn n l) = firstn n l.
Proof. rewrite firstn_firstn. now rewrite Nat.min_id. Qed.

Lemma map_inverse {A B : Type} (g : B -> A) (h : A -> B) l :
  (forall x, g (h x) = x) -> map g (map h l) = l.
Proof.
  intros H. induction l as [| x l IH]; simpl; [reflexivity | now rewrite H, IH].
Qed.

Lemma reshare {I P : Type} (pair : I -> P) (mk : P -> I) n (l : list I) :
  (forall e, pair (mk e) = e) ->
  map pair (firstn n (map mk (map pair (firstn n l)))) = map pair (firstn n l).
Proof.
  intros H. rewrite firstn_all2 by (rewrite !length_map; apply firstn_le_length).
  now apply map_inverse.
Qed.

Lemma pair_eta {A B : Type} (e : A * B) : (fst e, snd e) = e.
Proof. now destruct e. Qed.

(** X11.  Sharing the page a link has opened gives the link again: minifying
    what [expandMinifiedData] rebuilt from a minified object returns that
    object. *)
Theorem share_link_idempotent data :
  minifyDataForSharing (received data) = minifyDataForSharing data.
Proof.
  unfold received.
  set (mini := minifyDataForSharing data).
  assert (Hpp : Mini.pp mini
                = map (fun i => (Popularity.name i, Popularity.count i))
                    (firstn 6 (Popularity.items (Shown.pizzaPopularity data))))
    by reflexivity.
  assert (Hf : Mini.f mini
               = map (fun i => (Feelings.feeling i, Feelings.count i))
                   (firstn 4 (Feelings.items (Shown.feelings data))))
    by reflexivity.
  assert (Hw : Mini.w mini
               = map (fun i => (WordCloud.text i, WordCloud.count i))
                   (firstn 15 (Shown.wordCloud data)))
    by reflexivity.
  assert (Hcm : Mini.cm mini = firstn 3 (Shown.comments data)) by reflexivity.
  assert (Ha : Mini.a (Mini.r mini) = orZero (Shown.average (Shown.rating data)))
    by reflexivity.
  destruct mini as [p d [a c] pp [yes meh] f t w cp cm]. simpl in Hpp, Hf, Hw, Hcm, Ha.
  unfold minifyDataForSharing, expandMinifiedData.
  cbn [Shown.pizzaInfo Shown.rating Shown.average Shown.count Shown.pizzaPopularity
       Shown.orderAgain Shown.feelings Shown.tiers Shown.wordCloud Shown.coldPizza
       Shown.comments PizzaInfo.place PizzaInfo.date Popularity.items OrderAgain.yes
       OrderAgain.meh OrderAgain.count Feelings.items Tiers.items ColdPizza.items
       Mini.p Mini.d Mini.r Mini.a Mini.c Mini.pp Mini.oa Mini.f Mini.t Mini.w Mini.cp
       Mini.cm fst snd].
  f_equal.
  - f_equal. subst a. apply orZero_idempotent.
  - subst pp. apply (reshare (fun i => (Popularity.name i, Popularity.count i))). apply pair_eta.
  - subst f. apply (reshare (fun i => (Feelings.feeling i, Feelings.count i))). apply pair_eta.
  - apply (map_inverse (fun i => (Tiers.name i, Tiers.count i))). apply pair_eta.
  - subst w. apply (reshare (fun i => (WordCloud.text i, WordCloud.count i))). apply pair_eta.
  - apply (map_inverse (fun i => (ColdPizza.label i, ColdPizza.count i))). apply pair_eta.
  - subst cm. apply firstn_idempotent.
Qed.

Lemma sharedPercent_guarded count total :
  sharedPercent count total = guardedPercent count total.
Proof. now destruct total. Qed.

Lemma processRating_average_canonical host data :
  Qred (Rating.average (processRating host data)) = Rating.average (processRating host data).
Proof.
  unfold processRating. destruct (ratingsOf host data); [reflexivity |].
  apply round53_canonical.
Qed.

Lemma sumCounts_sum arr : sumCounts arr = sum_list_with snd arr.
Proof. unfold sumCounts. now rewrite fold_left_sum. Qed.

Lemma COLD_PREFS_colors :
  match assoc (lit "Leftovers Please!") COLD_PREFS with
  | Some known => snd known
  | None => lit "#999"
  end = lit "#27AE60" /\
  match assoc (lit "If Desperate") COLD_PREFS with
  | Some known => snd known
  | None => lit "#999"
  end = lit "#F39C12" /\
  match assoc (lit "Never!") COLD_PREFS with
  | Some known => snd known
  | None => lit "#999"
  end = lit "#C0392B".
Proof. repeat split. Qed.

Lemma TIER_INFO_colors :
  match assoc (lit "Top Tier") TIER_INFO with
  | Some known => snd known
  | None => lit "#999"
  end = lit "#FFD700" /\
  match assoc (lit "Solid Choice") TIER_INFO with
  | Some known => snd known
  | None => lit "#999"
  end = lit "#C0C0C0" /\
  match assoc (lit "Mid") TIER_INFO with
  | Some known => snd known
  | None => lit "#999"
  end = lit "#CD7F32".
Proof. repeat split. Qed.

(** X12.  What the visitor of a share link sees of the sender's result: the pizza
    info, the rating average and count, the order-again and cold pizza
    blocks unchanged, the tiers unchanged but for their icons, the first
    six pizzas, fifteen words and three comments; and, as the number of
    responses, the number of valid ratings. *)
Theorem share_link_keeps host random data info result :
  processData host random (Some data) = Return result ->
  let seen := received (withPizzaInfo (Some info) result) in
  Shown.pizzaInfo seen = Some info /\
  Shown.average (Shown.rating seen) = Rating.average (rating result) /\
  Shown.count (Shown.rating seen) = Rating.count (rating result) /\
  Summary.totalResponses (Shown.summary seen) = Rating.count (rating result) /\
  Shown.orderAgain seen = orderAgain result /\
  Shown.coldPizza seen = coldPizza result /\
  map withoutIcon (Tiers.items (Shown.tiers seen))
    = map withoutIcon (Tiers.items (tiers result)) /\
  Tiers.total (Shown.tiers seen) = Tiers.total (tiers result) /\
  Popularity.items (Shown.pizzaPopularity seen)
    = firstn 6 (Popularity.items (pizzaPopularity result)) /\
  Shown.wordCloud seen = firstn 15 (wordCloud result) /\
  Shown.comments seen = firstn 3 (comments result).
Proof.
  intros Hrun seen. subst seen. destruct data as [| row data]; [discriminate |].
  destruct (processData_returns _ _ _ _ Hrun) as (kept & Hsummary & ->).
  unfold received, expandMinifiedData, minifyDataForSharing, withPizzaInfo.
  cbn [Shown.pizzaInfo Shown.rating Shown.average Shown.count Shown.pizzaPopularity
       Shown.orderAgain Shown.feelings Shown.tiers Shown.wordCloud Shown.coldPizza
       Shown.comments Shown.summary Summary.totalResponses
       PizzaInfo.place PizzaInfo.date Popularity.items
       Tiers.items Tiers.total ColdPizza.items
       Mini.p Mini.d Mini.r Mini.a Mini.c Mini.pp Mini.oa Mini.f Mini.t Mini.w Mini.cp
       Mini.cm fst snd
       rating orderAgain coldPizza tiers pizzaPopularity wordCloud comments].
  split; [now destruct info |].
  split; [apply orZero_canonical, processRating_average_canonical |].
  split; [reflexivity |]. split; [reflexivity |].
  split.
  { unfold processOrderAgain. destruct (fold_left _ (row :: data) _) as [yes meh].
    cbn [OrderAgain.yes OrderAgain.meh OrderAgain.count].
    now rewrite !sharedPercent_guarded. }
  split.
  { unfold processColdPizza.
    destruct (fold_left _ (row :: data) _) as [[leftovers desperate] never].
    unfold sumCounts.
    cbn [ColdPizza.items ColdPizza.label ColdPizza.count map fold_left fst snd].
    rewrite !sharedPercent_guarded.
    destruct COLD_PREFS_colors as (-> & -> & ->). reflexivity. }
  split.
  { unfold processTiers. destruct (fold_left _ (row :: data) _) as [[top solid] mid].
    unfold sumCounts, withoutIcon.
    cbn [Tiers.items Tiers.name Tiers.count Tiers.percentage Tiers.color
         map fold_left fst snd].
    rewrite !sharedPercent_guarded.
    destruct TIER_INFO_colors as (-> & -> & ->). reflexivity. }
  split.
  { unfold processTiers. destruct (fold_left _ (row :: data) _) as [[top solid] mid].
    reflexivity. }
  split.
  { apply (map_inverse (fun e : jsstring * nat =>
                          {| Popularity.name := fst e; Popularity.count := snd e |})
             (fun i => (Popularity.name i, Popularity.count i))).
    now intros []. }
  split; [| reflexivity].
  apply (map_inverse (fun e : jsstring * nat =>
                        {| WordCloud.text := fst e; WordCloud.count := snd e |})
           (fun i => (WordCloud.text i, WordCloud.count i))).
  now intros [].
Qed.

Lemma share_link_keeps_witness :
  exists result,
    processData asciiHost alwaysZero (Some surveySample) = Return result /\
    Shown.orderAgain (received (withPizzaInfo (Some tonysPizzeria) result))
    = orderAgain result.
Proof.
  eexists. split; [reflexivity |].
  apply (share_link_keeps asciiHost alwaysZero surveySample tonysPizzeria). reflexivity.
Defined.

Lemma sumCounts_ge e arr : In e arr -> (snd e <= sumCounts arr)%nat.
Proof.
  intros H. rewrite sumCounts_sum.
  apply (sum_list_with_in e snd). now apply list_elem_of_In.
Qed.

(** X13.  Whatever minified object a link carries, the percentages of the page
    rebuilt from it are whole numbers from 0 to 100, and 0 for an empty
    total: the page never prints NaN or Infinity. *)
Theorem expandMinifiedData_percentages mini :
  shownPercentagesWellFormed (expandMinifiedData mini).
Proof.
  unfold shownPercentagesWellFormed, expandMinifiedData.
  cbn [Shown.orderAgain Shown.tiers Shown.coldPizza Shown.feelings
       OrderAgain.yes OrderAgain.meh OrderAgain.count OrderAgain.percentage OrderAgain.total
       Tiers.items Tiers.total ColdPizza.items ColdPizza.total Feelings.items Feelings.total].
  rewrite !sharedPercent_guarded.
  split; [apply guardedPercent_isPercentage; lia |].
  split; [apply guardedPercent_isPercentage; lia |].
  repeat split; apply List.Forall_map, List.Forall_forall; intros e He; simpl;
    rewrite sharedPercent_guarded; apply guardedPercent_isPercentage;
    now apply sumCounts_ge.
Qed.

(** ** The charts *)

Lemma ofNat_nonzero t : (0 < t)%nat -> Qeq_bool (ofNat t) 0 = false.
Proof.
  intros Ht. apply not_true_is_false. intros H. apply Qeq_bool_iff in H.
  pose proof (ofNat_pos t Ht). lra.
Qed.

Lemma round53_exact n x : 0 <= n < 2 ^ 53 -> (x == inject_Z n)%Q -> (round53 x == inject_Z n)%Q.
Proof.
  intros Hn Hx.
  destruct (round53_between n n x) as [H1 H2]; try lia; try (rewrite Hx; apply Qle_refl).
  now apply Qle_antisym.
Qed.

Lemma fdiv_whole t : (0 < t)%nat -> (fdiv (ofNat t) (ofNat t) == 1)%Q.
Proof.
  intros Ht. pose proof (ofNat_pos t Ht) as Hp. unfold fdiv.
  apply (round53_exact 1); [lia |]. change (inject_Z 1) with 1%Q. field. lra.
Qed.

Lemma fdiv_part_pos c t : (0 < c)%nat -> (0 < t)%nat -> (0 < fdiv (ofNat c) (ofNat t))%Q.
Proof.
  intros Hc Ht. pose proof (ofNat_pos c Hc). pose proof (ofNat_pos t Ht).
  unfold fdiv. apply round53_pos. apply Qlt_shift_div_l; lra.
Qed.

(** [(count / maxCount) * 100] *)
Lemma share_of_max c m :
  (c <= m)%nat -> (0 < m)%nat ->
  exists w,
    nmul (ndiv (Finite (ofNat c)) (Finite (ofNat m))) (Finite 100) = Finite w /\
    (0 <= w)%Q /\ (w <= 100)%Q /\ ((0 < c)%nat -> (0 < w)%Q) /\ (c = m -> (w == 100)%Q).
Proof.
  intros Hc Hm. unfold ndiv. rewrite (ofNat_nonzero m Hm). simpl nmul.
  eexists. split; [reflexivity |].
  destruct (fdiv_part_whole c m Hm Hc) as [H0 H1].
  assert (Hb : (inject_Z 0 <= fmul (fdiv (ofNat c) (ofNat m)) 100)%Q /\
               (fmul (fdiv (ofNat c) (ofNat m)) 100 <= inject_Z 100)%Q).
  { unfold fmul. apply (round53_between 0 100); try lia; try reflexivity.
    - change (inject_Z 0) with 0%Q. lra.
    - change (inject_Z 100) with 100%Q. lra. }
  destruct Hb as [Hb0 Hb1]. split; [exact Hb0 |]. split; [exact Hb1 |]. split.
  - intros Hpos. pose proof (fdiv_part_pos c m Hpos Hm). unfold fmul at 1.
    apply round53_pos. lra.
  - intros ->. pose proof (fdiv_whole m Hm) as Hw. unfold fmul.
    apply (round53_exact 100); [lia |]. rewrite Hw. reflexivity.
Qed.

(** [minHeight + (maxHeight - minHeight) * (count / maxCount)] *)
Lemma bar_height c m :
  (c <= m)%nat -> (0 < m)%nat ->
  exists h,
    nadd (Finite 60) (nmul (Finite (fsub 150 60)) (ndiv (Finite (ofNat c)) (Finite (ofNat m))))
    = Finite h /\
    (60 <= h)%Q /\ (h <= 150)%Q /\ (c = m -> (h == 150)%Q).
Proof.
  intros Hc Hm. unfold ndiv. rewrite (ofNat_nonzero m Hm). simpl nmul. simpl nadd.
  eexists. split; [reflexivity |].
  assert (E : fsub 150 60 = 90%Q) by reflexivity. rewrite E.
  destruct (fdiv_part_whole c m Hm Hc) as [H0 H1].
  assert (Hb : (inject_Z 0 <= fmul 90 (fdiv (ofNat c) (ofNat m)))%Q /\
               (fmul 90 (fdiv (ofNat c) (ofNat m)) <= inject_Z 90)%Q).
  { unfold fmul. apply (round53_between 0 90); try lia; try reflexivity.
    - change (inject_Z 0) with 0%Q. lra.
    - change (inject_Z 90) with 90%Q. lra. }
  destruct Hb as [Hb0 Hb1].
  change (inject_Z 0) with 0%Q in Hb0. change (inject_Z 90) with 90%Q in Hb1.
  assert (Hh : (inject_Z 60 <= fadd 60 (fmul 90 (fdiv (ofNat c) (ofNat m))))%Q /\
               (fadd 60 (fmul 90 (fdiv (ofNat c) (ofNat m))) <= inject_Z 150)%Q).
  { unfold fadd. apply (round53_between 60 150); try lia; try reflexivity.
    - change (inject_Z 60) with 60%Q. lra.
    - change (inject_Z 150) with 150%Q. lra. }
  destruct Hh as [Hh0 Hh1]. split; [exact Hh0 |]. split; [exact Hh1 |].
  intros ->. pose proof (fdiv_whole m Hm) as Hw.
  assert (Hm90 : (fmul 90 (fdiv (ofNat m) (ofNat m)) == 90)%Q).
  { unfold fmul. apply (round53_exact 90); [lia |]. rewrite Hw. reflexivity. }
  unfold fadd. apply (round53_exact 150); [lia |]. rewrite Hm90. reflexivity.
Qed.

Lemma fold_max_ge l : forall a x,
  (x = a \/ In x l) -> (x <= fold_left Nat.max l a)%nat.
Proof.
  induction l as [| y l IH]; intros a x H; simpl.
  - destruct H as [-> | []]. lia.
  - destruct H as [-> | [-> | H]].
    + transitivity (Nat.max a y); [lia | apply IH; now left].
    + transitivity (Nat.max a x); [lia | apply IH; now left].
    + apply IH. now right.
Qed.

Lemma getBarHeight_bounds tier allTiers :
  In tier allTiers ->
  exists h,
    getBarHeight tier allTiers = Finite h /\ (60 <= h)%Q /\ (h <= 150)%Q /\
    ((forall other, In other allTiers -> (Tiers.count other <= Tiers.count tier)%nat) ->
     (0 < Tiers.count tier)%nat -> (h == 150)%Q) /\
    ((forall other, In other allTiers -> Tiers.count other = 0%nat) -> (h == 60)%Q).
Proof.
  intros Hin. unfold getBarHeight.
  destruct allTiers as [| first rest]; [destruct Hin |].
  simpl map. unfold Math_max.
  set (m := fold_left Nat.max (map Tiers.count rest) (Tiers.count first)).
  assert (Hle : forall other, In other (first :: rest) -> (Tiers.count other <= m)%nat).
  { intros other [<- | H]; apply fold_max_ge; [now left |]. right. now apply in_map. }
  destruct (Nat.eq_dec m 0%nat) as [Hz | Hnz].
  - rewrite Hz. simpl isZero. exists 60%Q. split; [reflexivity |].
    split; [lra |]. split; [lra |]. split; [| reflexivity].
    intros _ Hpos. specialize (Hle tier Hin). lia.
  - unfold isZero. rewrite (ofNat_nonzero m) by lia.
    destruct (bar_height (Tiers.count tier) m (Hle tier Hin)) as (h & Hh & H0 & H1 & Hmax);
      [lia |].
    exists h. split; [exact Hh |]. split; [exact H0 |]. split; [exact H1 |]. split.
    + intros Htop _. apply Hmax. apply Nat.le_antisymm; [now apply Hle |].
      unfold m. clear -Htop Hin.
      assert (G : forall l a, (a <= Tiers.count tier)%nat ->
                  Forall (fun x => (x <= Tiers.count tier)%nat) l ->
                  (fold_left Nat.max l a <= Tiers.count tier)%nat).
      { induction l as [| y l IH]; intros a Ha Hl; simpl; [exact Ha |].
        apply Forall_cons in Hl. destruct Hl as [Hy Hl]. apply IH; [lia | exact Hl]. }
      apply G; [apply Htop; now left |].
      apply List.Forall_map, List.Forall_forall. intros other Ho. apply Htop. now right.
    + intros Hall. exfalso. apply Hnz. unfold m.
      assert (G : forall l a, a = 0%nat -> Forall (fun x => x = 0%nat) l ->
                  fold_left Nat.max l a = 0%nat).
      { induction l as [| y l IH]; intros a Ha Hl; simpl; [exact Ha |].
        apply Forall_cons in Hl. destruct Hl as [Hy Hl]. apply IH; [lia | exact Hl]. }
      apply G; [apply Hall; now left |].
      apply List.Forall_map, List.Forall_forall. intros other Ho. apply Hall. now right.
Qed.

(** X14.  The bar of a tier of the podium is between 60 and 150 pixels high; it
    is 150 for a tier chosen at least once and no less often than the
    others, and 60 when no tier was chosen at all. *)
Theorem getBarHeight_range tier allTiers :
  In tier allTiers ->
  exists h,
    getBarHeight tier allTiers = Finite h /\ (60 <= h)%Q /\ (h <= 150)%Q /\
    ((forall other, In other allTiers -> (Tiers.count other <= Tiers.count tier)%nat) ->
     (0 < Tiers.count tier)%nat -> (h == 150)%Q) /\
    ((forall other, In other allTiers -> Tiers.count other = 0%nat) -> (h == 60)%Q).
Proof. apply getBarHeight_bounds. Qed.

Lemma getBarHeight_range_witness :
  exists h,
    getBarHeight
      {| Tiers.name := lit "Solid Choice"; Tiers.count := 2%nat;
         Tiers.percentage := Finite 40; Tiers.icon := [55358; 56648];
         Tiers.color := lit "#C0C0C0" |} samplePodium = Finite h /\
    (60 <= h)%Q /\ (h <= 150)%Q.
Proof.
  destruct (getBarHeight_range
              {| Tiers.name := lit "Solid Choice"; Tiers.count := 2%nat;
                 Tiers.percentage := Finite 40; Tiers.icon := [55358; 56648];
                 Tiers.color := lit "#C0C0C0" |} samplePodium)
    as (h & Hh & H0 & H1 & _).
  - simpl. now left.
  - exists h. split; [exact Hh |]. split; [exact H0 | exact H1].
Defined.

Lemma reorderForPodium_named top solid mid :
  Tiers.name top = lit "Top Tier" -> Tiers.name solid = lit "Solid Choice" ->
  Tiers.name mid = lit "Mid" ->
  reorderForPodium [top; solid; mid] = [solid; top; mid].
Proof.
  intros Ht Hs Hm. unfold reorderForPodium. cbn [List.find]. rewrite Ht, Hs, Hm.
  reflexivity.
Qed.

(** X15.  On the tiers [processTiers] returns, the podium shows Solid Choice,
    Top Tier and Mid in this order, each tier once, with bars between 60
    and 150 pixels high. *)
Theorem podium_of_processTiers host data :
  let tierData := processTiers host data in
  let podium := podiumHeights tierData in
  map (fun bar => Tiers.name (fst bar)) podium
    = [lit "Solid Choice"; lit "Top Tier"; lit "Mid"] /\
  map fst podium ≡ₚ Tiers.items tierData /\
  Forall (fun bar => within 60 150 (snd bar)) podium.
Proof.
  intros tierData podium. subst podium tierData. unfold podiumHeights, processTiers.
  destruct (fold_left _ data _) as [[top solid] mid]. cbn [Tiers.items].
  rewrite reorderForPodium_named by reflexivity.
  split; [reflexivity |]. split; [apply perm_swap |].
  apply List.Forall_map, List.Forall_forall. intros tier Hin. cbn [snd].
  destruct (getBarHeight_bounds tier _ Hin) as (h & Hh & H0 & H1 & _).
  exists h. split; [exact Hh |]. split; [exact H0 | exact H1].
Qed.

Lemma bump_counted counts n :
  Forall (fun e => (1 <= snd e)%nat) counts ->
  Forall (fun e => (1 <= snd e)%nat) (bump counts n).
Proof.
  intros H. unfold bump. destruct (assoc n counts).
  - apply (alterAssoc_Forall (fun c => (1 <= c)%nat)); [intros; lia | exact H].
  - destruct (streq n (lit "__proto__")); [exact H |].
    apply Forall_app. split; [exact H |]. constructor; [simpl; lia | constructor].
Qed.

Lemma bump_fold_counted names : forall counts,
  Forall (fun e => (1 <= snd e)%nat) counts ->
  Forall (fun e => (1 <= snd e)%nat) (fold_left bump names counts).
Proof.
  induction names as [| n names IH]; intros counts H; simpl; [exact H |].
  apply IH. now apply bump_counted.
Qed.

Lemma popularity_counts host data :
  let popularity := processPizzaPopularity host data in
  Forall (fun item => (1 <= Popularity.count item <= Popularity.total popularity)%nat)
    (Popularity.items popularity).
Proof.
  intros popularity. subst popularity. unfold processPizzaPopularity.
  cbn [Popularity.items Popularity.total]. rewrite popularity_fold_names, fold_left_sum.
  set (counts := fold_left bump (pizzaNames host data) []).
  assert (Hc : Forall (fun e => (1 <= snd e)%nat) counts)
    by (apply bump_fold_counted; constructor).
  apply List.Forall_forall. intros item Hin. split.
  - apply in_map_iff in Hin. destruct Hin as (e & <- & He). simpl.
    apply (Permutation_in _ (sortDesc_perm snd (entries counts))) in He.
    apply (Permutation_in _ (entries_perm counts)) in He.
    revert e He. now apply List.Forall_forall.
  - simpl. apply (sum_list_with_in item Popularity.count). now apply list_elem_of_In.
Qed.

Lemma descending_head_max {A : Type} (key : A -> nat) x l :
  descending key (x :: l) -> fold_left Nat.max (map key l) (key x) = key x.
Proof.
  intros [Hx _]. revert Hx. generalize (key x) as m. intros m Hx.
  induction l as [| y l IH]; simpl; [reflexivity |].
  apply Forall_cons in Hx. destruct Hx as [Hy Hl].
  rewrite Nat.max_l by exact Hy. now apply IH.
Qed.

(** X16.  When no pizza is counted under the name of a member of
    [Object.prototype], the legend prints whole percentages from 0 to 100 on
    the pizzas [processPizzaPopularity] returns, and the horizontal bars are
    more than 0 and at most 100 per cent wide, the first one 100: no NaN
    and no Infinity reaches the page. *)
Theorem popularity_chart_percentages host data :
  numericKeys host data ->
  let popularity := processPizzaPopularity host data in
  Forall (fun shown => exists z, shown = Finite (inject_Z z) /\ 0 <= z <= 100)
    (createCustomLegend (Popularity.items popularity) (Popularity.total popularity)) /\
  Forall (fun bar =>
            (exists w, fst bar = Finite w /\ (0 < w)%Q /\ (w <= 100)%Q) /\
            (exists z, snd bar = Finite (inject_Z z) /\ 0 <= z <= 100))
    (createHorizontalBarChart popularity) /\
  (forall bar rest,
     createHorizontalBarChart popularity = bar :: rest ->
     exists w, fst bar = Finite w /\ (w == 100)%Q).
Proof.
  intros _ popularity. pose proof (popularity_counts host data) as Hc.
  fold popularity in Hc. cbv zeta in Hc.
  assert (Hdesc : descending Popularity.count (Popularity.items popularity)).
  { unfold popularity, processPizzaPopularity. cbn [Popularity.items].
    apply descending_map. simpl. apply sortDesc_descending. }
  assert (Hpct : forall item, In item (Popularity.items popularity) ->
            exists z, percent (Popularity.count item) (Popularity.total popularity)
                      = Finite (inject_Z z) /\ 0 <= z <= 100).
  { intros item Hin. pose proof (proj1 (List.Forall_forall _ _) Hc item Hin) as [H1 H2].
    destruct (percent_isPercentage (Popularity.count item) (Popularity.total popularity))
      as (z & Hz & Hr & _); [lia | lia |]. eauto. }
  unfold createCustomLegend, createHorizontalBarChart.
  destruct (Popularity.items popularity) as [| first rest] eqn:Eitems.
  { split; [constructor |]. split; [constructor |]. intros bar rest H. discriminate H. }
  rewrite ?Eitems in Hc, Hpct, Hdesc.
  change (map Popularity.count (first :: rest))
    with (Popularity.count first :: map Popularity.count rest).
  unfold Math_max.
  rewrite (descending_head_max Popularity.count first rest Hdesc).
  pose proof (proj1 (List.Forall_forall _ _) Hc) as Hall. cbv beta in Hall.
  destruct Hdesc as [Hmax _].
  assert (Hle : forall item, In item (first :: rest) ->
            (Popularity.count item <= Popularity.count first)%nat).
  { intros item [<- | Hin]; [lia |]. revert item Hin. now apply List.Forall_forall. }
  assert (Hfirst : (0 < Popularity.count first)%nat)
    by (specialize (Hall first (or_introl eq_refl)); lia).
  split; [| split].
  - apply List.Forall_map, List.Forall_forall. intros item Hin. now apply Hpct.
  - apply List.Forall_map, List.Forall_forall. intros item Hin. cbn [fst snd].
    split; [| now apply Hpct].
    destruct (share_of_max (Popularity.count item) (Popularity.count first)
                (Hle item Hin) Hfirst) as (w & Hw & _ & H1 & Hpos & _).
    exists w. split; [exact Hw |]. split; [| exact H1].
    apply Hpos. specialize (Hall item Hin). lia.
  - intros bar others Hbars. rewrite map_cons in Hbars. injection Hbars as <- _. cbn [fst].
    destruct (share_of_max (Popularity.count first) (Popularity.count first)
                (Nat.le_refl _) Hfirst) as (w & Hw & _ & _ & _ & Hfull).
    exists w. split; [exact Hw | now apply Hfull].
Qed.

Lemma popularity_chart_percentages_witness :
  numericKeys asciiHost surveySample /\
  Forall (fun shown => exists z, shown = Finite (inject_Z z) /\ 0 <= z <= 100)
    (createCustomLegend
       (Popularity.items (processPizzaPopularity asciiHost surveySample))
       (Popularity.total (processPizzaPopularity asciiHost surveySample))).
Proof.
  assert (Hkeys : numericKeys asciiHost surveySample) by (vm_compute; repeat constructor).
  split; [exact Hkeys |].
  destruct (popularity_chart_percentages asciiHost surveySample Hkeys) as (Hlegend & _).
  exact Hlegend.
Defined.

(** *** The stack of boxes *)

Lemma Array_integer k :
  0 <= k <= 10 -> Array_ (Finite (inject_Z k)) = Return (Z.to_nat k).
Proof.
  intros Hk. unfold Array_. rewrite Qfloor_Z.
  assert (E1 : Qeq_bool (inject_Z k) (inject_Z k) = true)
    by (apply Qeq_bool_iff; reflexivity).
  assert (E2 : Qle_bool 0 (inject_Z k) = true)
    by (apply Qle_bool_iff; change 0%Q with (inject_Z 0); rewrite <- Zle_Qle; lia).
  assert (E3 : Qle_bool (inject_Z k) (inject_Z (2 ^ 32 - 1)) = true)
    by (apply Qle_bool_iff; rewrite <- Zle_Qle; lia).
  now rewrite E1, E2, E3.
Qed.

Lemma boxes_of_percentage p c t :
  isPercentage p c t ->
  exists n,
    Array_ (Math_round (nmul (ndiv p (Finite 100)) (Finite 10))) = Return n /\ (n <= 10)%nat.
Proof.
  intros (z & -> & Hz & _). unfold ndiv.
  assert (E : Qeq_bool 100 0 = false) by reflexivity. rewrite E. simpl nmul. simpl Math_round.
  assert (Hr : (inject_Z 0 <= fdiv (inject_Z z) 100)%Q /\ (fdiv (inject_Z z) 100 <= inject_Z 1)%Q).
  { unfold fdiv. apply (round53_between 0 1); try lia; try reflexivity.
    - change (inject_Z 0) with 0%Q. apply Qle_shift_div_l; [lra |].
      rewrite Qmult_0_l. change 0%Q with (inject_Z 0). rewrite <- Zle_Qle. lia.
    - change (inject_Z 1) with 1%Q. apply Qle_shift_div_r; [lra |].
      rewrite Qmult_1_l. change 100%Q with (inject_Z 100). rewrite <- Zle_Qle. lia. }
  destruct Hr as [Hr0 Hr1].
  change (inject_Z 0) with 0%Q in Hr0. change (inject_Z 1) with 1%Q in Hr1.
  assert (Hk : 0 <= roundZ (fmul (fdiv (inject_Z z) 100) 10) <= 10).
  { apply roundZ_between; unfold fmul;
      apply (round53_between 0 10); try lia; try reflexivity;
      try (change (inject_Z 0) with 0%Q; lra);
      change (inject_Z 10) with 10%Q; lra. }
  rewrite (Array_integer _ Hk). eexists. split; [reflexivity | lia].
Qed.

(** X17.  On what [processOrderAgain] returns, [createPizzaBoxStack] draws at
    most ten boxes in each stack: [Array(n)] gets a whole number from 0 to
    10 and throws no RangeError. *)
Theorem createPizzaBoxStack_draws host data :
  exists yesBoxes mehBoxes,
    createPizzaBoxStack (processOrderAgain host data) = Return (yesBoxes, mehBoxes) /\
    (yesBoxes <= 10)%nat /\ (mehBoxes <= 10)%nat.
Proof.
  destruct (processOrderAgain_percentages host data) as [Hyes Hmeh].
  destruct (boxes_of_percentage _ _ _ Hyes) as (y & Hy & Hy10).
  destruct (boxes_of_percentage _ _ _ Hmeh) as (m & Hm & Hm10).
  exists y, m. unfold createPizzaBoxStack. cbv zeta. rewrite Hy, Hm. auto.
Qed.

(** ** The carousel *)

Lemma nextIndex_range n st :
  0 < n -> 0 <= Carousel.currentSlide st < n -> 0 <= Carousel.nextIndex n st < n.
Proof. intros Hn Hc. unfold Carousel.nextIndex. apply Z.rem_bound_pos; lia. Qed.

Lemma prevIndex_range n st :
  0 < n -> 0 <= Carousel.currentSlide st < n -> 0 <= Carousel.prevIndex n st < n.
Proof. intros Hn Hc. unfold Carousel.prevIndex. apply Z.rem_bound_pos; lia. Qed.

Lemma goToSlide_consistent n index st :
  0 <= index < n -> Carousel.consistent n st ->
  Carousel.consistent n (Carousel.goToSlide index st).
Proof. intros Hi (_ & Hh & Ht). split; [exact Hi |]. split; [exact Hh | exact Ht]. Qed.

Lemma startAutoplay_consistent n st :
  Carousel.consistent n st -> Carousel.consistent n (Carousel.startAutoplay n st).
Proof.
  intros (Hc & Hh & Ht). unfold Carousel.startAutoplay.
  destruct (Carousel.autoplayInterval st) as [h |] eqn:E.
  - destruct Ht as [Hpos Hi]. simpl.
    assert (Hnz : (h =? 0) = false) by (apply Z.eqb_neq; lia).
    rewrite Hnz. simpl. unfold Carousel.consistent. rewrite E. auto.
  - simpl. unfold Carousel.consistent. simpl. rewrite Ht.
    split; [exact Hc |]. split; [lia |]. split; [lia | reflexivity].
Qed.

Lemma clearAutoplay_consistent n st :
  Carousel.consistent n st -> Carousel.consistent n (Carousel.clearAutoplay st).
Proof.
  intros (Hc & Hh & Ht). unfold Carousel.clearAutoplay.
  destruct (Carousel.autoplayInterval st) as [h |] eqn:E.
  - destruct Ht as [Hpos Hi]. simpl.
    assert (Hnz : (h =? 0) = false) by (apply Z.eqb_neq; lia).
    rewrite Hnz. simpl. unfold Carousel.consistent. simpl. rewrite Hi. simpl.
    rewrite Z.eqb_refl. simpl. auto.
  - unfold Carousel.consistent. rewrite E. auto.
Qed.

Lemma clearAutoplay_stops n st :
  Carousel.consistent n st ->
  Carousel.intervals (Carousel.clearAutoplay st) = [] /\
  Carousel.autoplayInterval (Carousel.clearAutoplay st) = None /\
  Carousel.currentSlide (Carousel.clearAutoplay st) = Carousel.currentSlide st.
Proof.
  intros (Hc & Hh & Ht). unfold Carousel.clearAutoplay.
  destruct (Carousel.autoplayInterval st) as [h |] eqn:E.
  - destruct Ht as [Hpos Hi]. simpl.
    assert (Hnz : (h =? 0) = false) by (apply Z.eqb_neq; lia).
    rewrite Hnz. simpl. rewrite Hi. simpl. rewrite Z.eqb_refl. auto.
  - auto.
Qed.

Lemma resetAutoplay_consistent n st :
  Carousel.consistent n st -> Carousel.consistent n (Carousel.resetAutoplay n st).
Proof.
  intros H. unfold Carousel.resetAutoplay.
  now apply startAutoplay_consistent, clearAutoplay_consistent.
Qed.

Lemma dispatch_consistent n st e :
  0 < n -> Carousel.wellFormed n e -> Carousel.consistent n st ->
  Carousel.consistent n (Carousel.dispatch n st e).
Proof.
  intros Hn He H. pose proof H as (Hc & Hh & Ht).
  pose proof (nextIndex_range n st Hn Hc) as Hnext.
  pose proof (prevIndex_range n st Hn Hc) as Hprev.
  destruct e as [| | index | key | x | x | | | handle]; simpl.
  - now apply resetAutoplay_consistent, goToSlide_consistent.
  - now apply resetAutoplay_consistent, goToSlide_consistent.
  - now apply resetAutoplay_consistent, goToSlide_consistent.
  - destruct (streq key (lit "ArrowLeft"));
      [now apply resetAutoplay_consistent, goToSlide_consistent |].
    destruct (streq key (lit "ArrowRight"));
      [now apply resetAutoplay_consistent, goToSlide_consistent | exact H].
  - split; [exact Hc |]. split; [exact Hh | exact Ht].
  - unfold Carousel.handleSwipe. apply resetAutoplay_consistent.
    destruct (negb (Qle_bool _ _)); [now apply goToSlide_consistent |].
    destruct (negb (Qle_bool _ _)); [now apply goToSlide_consistent | exact H].
  - now apply clearAutoplay_consistent.
  - now apply startAutoplay_consistent.
  - destruct (Carousel.autoplayInterval st) as [h |] eqn:E.
    + destruct Ht as [Hpos Hi]. rewrite Hi. simpl.
      destruct (h =? handle); [now apply goToSlide_consistent | exact H].
    + rewrite Ht. exact H.
Qed.

Lemma run_consistent n events : forall st,
  0 < n -> Forall (Carousel.wellFormed n) events -> Carousel.consistent n st ->
  Carousel.consistent n (Carousel.run n events st).
Proof.
  induction events as [| e events IH]; intros st Hn He H; [exact H |].
  apply Forall_cons in He. destruct He as [He Hes].
  unfold Carousel.run. simpl. apply IH; [exact Hn | exact Hes |].
  now apply dispatch_consistent.
Qed.

Lemma initCarousel_consistent n st :
  0 < n -> Carousel.autoplayInterval st = None -> Carousel.intervals st = [] ->
  0 < Carousel.nextHandle st ->
  Carousel.consistent n (Carousel.initCarousel n st).
Proof.
  intros Hn Ha Hi Hh. unfold Carousel.initCarousel. apply startAutoplay_consistent.
  unfold Carousel.consistent. simpl. rewrite Ha. split; [lia |]. split; [exact Hh | exact Hi].
Qed.

(** X18.  From a module without a running interval, whatever the visitor does
    after [initCarousel], the slide shown is one of the slides, and exactly
    the interval the module remembers is running, or none: no click, key,
    swipe or hover leaks a timer.  [destroyCarousel] then leaves no interval
    running and the first slide current. *)
Theorem carousel_consistent totalSlides events st :
  0 < totalSlides ->
  Carousel.autoplayInterval st = None -> Carousel.intervals st = [] ->
  0 < Carousel.nextHandle st ->
  Forall (Carousel.wellFormed totalSlides) events ->
  let st' := Carousel.run totalSlides events (Carousel.initCarousel totalSlides st) in
  Carousel.consistent totalSlides st' /\
  Carousel.intervals (Carousel.destroyCarousel st') = [] /\
  Carousel.autoplayInterval (Carousel.destroyCarousel st') = None /\
  Carousel.currentSlide (Carousel.destroyCarousel st') = 0.
Proof.
  intros Hn Ha Hi Hh He st'.
  assert (H : Carousel.consistent totalSlides st').
  { apply run_consistent; [exact Hn | exact He |]. now apply initCarousel_consistent. }
  split; [exact H |].
  destruct (clearAutoplay_stops totalSlides st' H) as (H1 & H2 & _).
  unfold Carousel.destroyCarousel. simpl. auto.
Qed.

Lemma carousel_consistent_witness :
  Carousel.consistent 3
    (Carousel.run 3
       [Carousel.NextClick; Carousel.MouseEnter; Carousel.DotClick 2; Carousel.Timer 2;
        Carousel.TouchStart 300; Carousel.TouchEnd 120; Carousel.MouseLeave]
       (Carousel.initCarousel 3
          {| Carousel.currentSlide := 0; Carousel.autoplayInterval := None;
             Carousel.touchStartX := 0; Carousel.intervals := [];
             Carousel.nextHandle := 1 |})).
Proof.
  apply (carousel_consistent 3
           [Carousel.NextClick; Carousel.MouseEnter; Carousel.DotClick 2; Carousel.Timer 2;
            Carousel.TouchStart 300; Carousel.TouchEnd 120; Carousel.MouseLeave]
           {| Carousel.currentSlide := 0; Carousel.autoplayInterval := None;
              Carousel.touchStartX := 0; Carousel.intervals := [];
              Carousel.nextHandle := 1 |}); try reflexivity.
  repeat constructor; simpl; lia.
Defined.

(** X19.  While the pointer is over the carousel no interval runs, so that the
    slide stays: after [mouseenter] a timer callback changes nothing. *)
Theorem carousel_hover_pauses totalSlides st handle :
  Carousel.consistent totalSlides st ->
  let hovered := Carousel.dispatch totalSlides st Carousel.MouseEnter in
  Carousel.intervals hovered = [] /\
  Carousel.dispatch totalSlides hovered (Carousel.Timer handle) = hovered /\
  Carousel.currentSlide hovered = Carousel.currentSlide st.
Proof.
  intros H hovered. subst hovered. simpl.
  destruct (clearAutoplay_stops totalSlides st H) as (H1 & H2 & H3).
  split; [exact H1 |]. split; [now rewrite H1 | exact H3].
Qed.

Lemma carousel_hover_pauses_witness :
  Carousel.consistent 3
    (Carousel.initCarousel 3
       {| Carousel.currentSlide := 0; Carousel.autoplayInterval := None;
          Carousel.touchStartX := 0; Carousel.intervals := [];
          Carousel.nextHandle := 1 |}) /\
  Carousel.intervals
    (Carousel.dispatch 3
       (Carousel.initCarousel 3
          {| Carousel.currentSlide := 0; Carousel.autoplayInterval := None;
             Carousel.touchStartX := 0; Carousel.intervals := [];
             Carousel.nextHandle := 1 |})
       Carousel.MouseEnter) = [].
Proof.
  assert (Hc : Carousel.consistent 3
    (Carousel.initCarousel 3
       {| Carousel.currentSlide := 0; Carousel.autoplayInterval := None;
          Carousel.touchStartX := 0; Carousel.intervals := [];
          Carousel.nextHandle := 1 |})).
  { vm_compute. repeat split; try discriminate; reflexivity. }
  split; [exact Hc |].
  apply (carousel_hover_pauses 3 _ 1 Hc).
Defined.

Lemma resetAutoplay_slide n st :
  Carousel.currentSlide (Carousel.resetAutoplay n st) = Carousel.currentSlide st.
Proof.
  unfold Carousel.resetAutoplay, Carousel.startAutoplay, Carousel.clearAutoplay.
  destruct (Carousel.autoplayInterval st) as [h |] eqn:E; simpl.
  - destruct (h =? 0) eqn:Z0; simpl; rewrite ?E; simpl; rewrite ?Z0; reflexivity.
  - rewrite E. reflexivity.
Qed.

Lemma rem_shift a n : 0 <= a < n -> Z.rem (a + n) n = a.
Proof.
  intros H. rewrite Z.rem_mod_nonneg by lia.
  replace (a + n) with (a + 1 * n) by lia. rewrite Z_mod_plus_full. apply Z.mod_small. lia.
Qed.

Lemma rem_cycle c n :
  0 < n -> 0 <= c < n ->
  Z.rem (Z.rem (c + 1) n - 1 + n) n = c /\ Z.rem (Z.rem (c - 1 + n) n + 1) n = c.
Proof.
  intros Hn Hc. split.
  - destruct (Z.eq_dec (c + 1) n) as [E | E].
    + rewrite E, Z.rem_same by lia. replace (0 - 1 + n) with c by lia.
      apply Z.rem_small. lia.
    + rewrite (Z.rem_small (c + 1)) by lia.
      replace (c + 1 - 1 + n) with (c + n) by lia. now apply rem_shift.
  - destruct (Z.eq_dec c 0) as [E | E].
    + subst c. replace (0 - 1 + n) with (n - 1) by lia.
      rewrite (Z.rem_small (n - 1)) by lia.
      replace (n - 1 + 1) with n by lia. apply Z.rem_same. lia.
    + rewrite (rem_shift (c - 1)) by lia.
      replace (c - 1 + 1) with c by lia. apply Z.rem_small. lia.
Qed.

(** X20.  The previous button undoes the next button and the next button undoes
    the previous one: the slides are walked in a circle. *)
Theorem carousel_next_prev totalSlides st :
  0 < totalSlides -> 0 <= Carousel.currentSlide st < totalSlides ->
  Carousel.currentSlide
    (Carousel.run totalSlides [Carousel.NextClick; Carousel.PrevClick] st)
    = Carousel.currentSlide st /\
  Carousel.currentSlide
    (Carousel.run totalSlides [Carousel.PrevClick; Carousel.NextClick] st)
    = Carousel.currentSlide st.
Proof.
  intros Hn Hc. unfold Carousel.run. simpl fold_left.
  rewrite !resetAutoplay_slide. unfold Carousel.prevIndex, Carousel.nextIndex. simpl.
  rewrite !resetAutoplay_slide. simpl.
  apply rem_cycle; assumption.
Qed.

Lemma carousel_next_prev_witness :
  Carousel.currentSlide
    (Carousel.run 3 [Carousel.NextClick; Carousel.PrevClick]
       {| Carousel.currentSlide := 2; Carousel.autoplayInterval := Some 1;
          Carousel.touchStartX := 0; Carousel.intervals := [(1, 3)];
          Carousel.nextHandle := 2 |}) = 2.
Proof.
  apply (carousel_next_prev 3
           {| Carousel.currentSlide := 2; Carousel.autoplayInterval := Some 1;
              Carousel.touchStartX := 0; Carousel.intervals := [(1, 3)];
              Carousel.nextHandle := 2 |}); simpl; lia.
Defined.

(** ** The rating histogram *)

Lemma counted_succ before n :
  counted (Some (default 0%nat before + 1)%nat) n = counted before (S n).
Proof. destruct n; simpl; f_equal; lia. Qed.

Lemma tally_fold_lookup ratings : forall (d : gmap Z nat) k,
  fold_left tally ratings d !! k = counted (d !! k) (roundedTo k ratings).
Proof.
  induction ratings as [| r ratings IH]; intros d k; [reflexivity |].
  simpl fold_left. rewrite IH. unfold tally. rewrite lookup_insert.
  unfold roundedTo. simpl List.filter.
  destruct (decide (roundZ r = k)) as [E | E].
  - rewrite E, Z.eqb_refl. simpl length. apply counted_succ.
  - apply Z.eqb_neq in E. now rewrite E.
Qed.

Lemma emptyBuckets_lookup k :
  emptyBuckets !! k = if (1 <=? k) && (k <=? 10) then Some 0%nat else None.
Proof.
  unfold emptyBuckets. simpl fold_left. rewrite !lookup_insert, lookup_empty.
  repeat (destruct (decide _) as [<- | ?]; [reflexivity |]).
  destruct (Z.leb_spec 1 k), (Z.leb_spec k 10); simpl; try reflexivity. lia.
Qed.

Lemma roundedTo_outside k ratings :
  Forall (fun q => (1 <= q)%Q /\ (q <= 10)%Q) ratings ->
  (1 <=? k) && (k <=? 10) = false -> roundedTo k ratings = 0%nat.
Proof.
  intros H Hk. unfold roundedTo. induction H as [| q ratings [H1 H10] _ IH]; [reflexivity |].
  simpl. assert (Hr : 1 <= roundZ q <= 10) by (now apply roundZ_between).
  assert (E : (roundZ q =? k) = false).
  { apply Z.eqb_neq. intros <-.
    destruct (Z.leb_spec 1 (roundZ q)), (Z.leb_spec (roundZ q) 10); simpl in Hk;
      try discriminate; lia. }
  now rewrite E.
Qed.

Lemma distribution_lookup host data k :
  ratingsOf host data <> [] ->
  Rating.distribution (processRating host data) !! k
  = if (1 <=? k) && (k <=? 10) then Some (roundedTo k (ratingsOf host data)) else None.
Proof.
  intros Hne. pose proof (ratingsOf_range host data) as Hrange. unfold processRating.
  destruct (ratingsOf host data) as [| r ratings] eqn:E; [contradiction |].
  cbn [Rating.distribution]. rewrite tally_fold_lookup, emptyBuckets_lookup.
  destruct ((1 <=? k) && (k <=? 10)) eqn:Hk.
  - destruct (roundedTo k (r :: ratings)); simpl; f_equal; lia.
  - now rewrite (roundedTo_outside k _ Hrange Hk).
Qed.

(** X21.  When a rating was retained, the histogram has the ten buckets 1 to 10
    and no other, and the bucket [k] holds the number of retained ratings
    that [Math.round] sends to [k]. *)
Theorem processRating_distribution host data k :
  ratingsOf host data <> [] ->
  Rating.distribution (processRating host data) !! k
  = if (1 <=? k) && (k <=? 10) then Some (roundedTo k (ratingsOf host data)) else None.
Proof. apply distribution_lookup. Qed.

Lemma processRating_distribution_witness :
  ratingsOf asciiHost ratingScenario <> [] /\
  Rating.distribution (processRating asciiHost ratingScenario) !! 8 = Some 1%nat /\
  Rating.distribution (processRating asciiHost ratingScenario) !! 11 = None.
Proof.
  assert (Hne : ratingsOf asciiHost ratingScenario <> []) by (vm_compute; discriminate).
  split; [exact Hne |]. split.
  - rewrite (processRating_distribution asciiHost ratingScenario 8 Hne). reflexivity.
  - rewrite (processRating_distribution asciiHost ratingScenario 11 Hne). reflexivity.
Defined.

(** ** The order of the rows *)

Lemma filter_Permutation {A : Type} (keep : A -> bool) l l' :
  l ≡ₚ l' -> List.filter keep l ≡ₚ List.filter keep l'.
Proof.
  induction 1 as [| x l l' _ IH | x y l | l l' l'' _ IH1 _ IH2]; simpl.
  - reflexivity.
  - destruct (keep x); [now constructor | exact IH].
  - destruct (keep x), (keep y); try reflexivity. apply perm_swap.
  - now transitivity (List.filter keep l').
Qed.

Lemma answers_Permutation {C : Type} `{EqDecision C} host field
  (rules : list (C * list jsstring)) category data data' :
  data ≡ₚ data' ->
  answers host field rules category data = answers host field rules category data'.
Proof. intros H. unfold answers. apply Permutation_length. now apply filter_Permutation. Qed.

Lemma fold_min_in l : forall a, In (fold_left Z.min l a) (a :: l).
Proof.
  induction l as [| x l IH]; intros a; simpl; [now left |].
  destruct (IH (Z.min a x)) as [H | H]; [| now right; right].
  rewrite <- H. destruct (Z.min_spec a x) as [[_ ->] | [_ ->]]; [now left | right; now left].
Qed.

Lemma fold_min_le l : forall a x, In x (a :: l) -> fold_left Z.min l a <= x.
Proof.
  induction l as [| y l IH]; intros a x H; simpl.
  - destruct H as [-> | []]. lia.
  - destruct H as [-> | [-> | H]].
    + transitivity (Z.min x y); [apply IH; now left | lia].
    + transitivity (Z.min a x); [apply IH; now left | lia].
    + apply IH. now right.
Qed.

Lemma fold_max_in l : forall a, In (fold_left Z.max l a) (a :: l).
Proof.
  induction l as [| x l IH]; intros a; simpl; [now left |].
  destruct (IH (Z.max a x)) as [H | H]; [| now right; right].
  rewrite <- H. destruct (Z.max_spec a x) as [[_ ->] | [_ ->]]; [right; now left | now left].
Qed.

Lemma fold_max_le l : forall a x, In x (a :: l) -> x <= fold_left Z.max l a.
Proof.
  induction l as [| y l IH]; intros a x H; simpl.
  - destruct H as [-> | []]. lia.
  - destruct H as [-> | [-> | H]].
    + transitivity (Z.max x y); [lia | apply IH; now left].
    + transitivity (Z.max a x); [lia | apply IH; now left].
    + apply IH. now right.
Qed.

Lemma processSummary_Permutation host data data' :
  data ≡ₚ data' -> processSummary host data = processSummary host data'.
Proof.
  intros H. rewrite !processSummary_timestamps, (Permutation_length H).
  assert (P : timestampsOf host data ≡ₚ timestampsOf host data').
  { unfold timestampsOf. apply omap_Permutation, filter_Permutation, Permutation_map, H. }
  pose proof (Permutation_length P) as Hlen.
  destruct (timestampsOf host data) as [| t ts];
    destruct (timestampsOf host data') as [| t' ts'].
  - reflexivity.
  - apply Permutation_nil_cons in P. destruct P.
  - symmetry in P. apply Permutation_nil_cons in P. destruct P.
  - assert (Emin : fold_left Z.min ts t = fold_left Z.min ts' t').
    { apply Z.le_antisymm.
      - apply fold_min_le. apply (Permutation_in _ (Permutation_sym P)), fold_min_in.
      - apply fold_min_le. apply (Permutation_in _ P), fold_min_in. }
    assert (Emax : fold_left Z.max ts t = fold_left Z.max ts' t').
    { apply Z.le_antisymm.
      - apply fold_max_le. apply (Permutation_in _ P), fold_max_in.
      - apply fold_max_le. apply (Permutation_in _ (Permutation_sym P)), fold_max_in. }
    now rewrite Hlen, Emin, Emax.
Qed.

Lemma ratingsOf_Permutation host data data' :
  data ≡ₚ data' -> ratingsOf host data ≡ₚ ratingsOf host data'.
Proof. intros H. unfold ratingsOf. apply omap_Permutation, Permutation_map, H. Qed.

Lemma pizzaNames_Permutation host data data' :
  data ≡ₚ data' -> pizzaNames host data ≡ₚ pizzaNames host data'.
Proof. intros H. unfold pizzaNames. now apply Permutation_flat_map. Qed.

Lemma occurrences_Permutation s l l' : l ≡ₚ l' -> occurrences s l = occurrences s l'.
Proof. intros H. unfold occurrences. apply Permutation_length. now apply filter_Permutation. Qed.

(** X22.  The order of the rows of the survey is immaterial to the summary, to
    the number of ratings and their histogram, to the order-again, tier
    and cold pizza blocks, to the feelings total and, when no pizza is
    counted under the name of a member of [Object.prototype], to the pizzas
    listed, their counts and their total.  (The rating average is left out:
    it adds doubles in the order of the rows.) *)
Theorem rows_reordered host data data' :
  data ≡ₚ data' ->
  processSummary host data = processSummary host data' /\
  Rating.count (processRating host data) = Rating.count (processRating host data') /\
  Rating.distribution (processRating host data)
    = Rating.distribution (processRating host data') /\
  processOrderAgain host data = processOrderAgain host data' /\
  processTiers host data = processTiers host data' /\
  processColdPizza host data = processColdPizza host data' /\
  Feelings.total (processFeelings host data) = Feelings.total (processFeelings host data') /\
  (numericKeys host data ->
   numericKeys host data' /\
   (forall item,
      In item (Popularity.items (processPizzaPopularity host data)) <->
      In item (Popularity.items (processPizzaPopularity host data'))) /\
   Popularity.total (processPizzaPopularity host data)
     = Popularity.total (processPizzaPopularity host data')).
Proof.
  intros H. pose proof (ratingsOf_Permutation host data data' H) as Hr.
  split; [now apply processSummary_Permutation |]. split.
  { unfold processRating.
    destruct (ratingsOf host data) as [| r rs] eqn:E;
      destruct (ratingsOf host data') as [| r' rs'] eqn:E'; try reflexivity.
    - apply Permutation_nil_cons in Hr. destruct Hr.
    - symmetry in Hr. apply Permutation_nil_cons in Hr. destruct Hr.
    - cbn [Rating.count]. now apply Permutation_length. }
  split.
  { destruct (ratingsOf host data) as [| r rs] eqn:E.
    - unfold processRating. rewrite E.
      destruct (ratingsOf host data') as [| r' rs']; [reflexivity |].
      apply Permutation_nil_cons in Hr. destruct Hr.
    - apply map_eq. intros k.
      rewrite !distribution_lookup.
      + destruct ((1 <=? k) && (k <=? 10)); [| reflexivity]. f_equal.
        unfold roundedTo. apply Permutation_length, filter_Permutation.
        rewrite ?E. exact Hr.
      + intros E'. rewrite E' in Hr.
        symmetry in Hr. apply Permutation_nil_cons in Hr. destruct Hr.
      + now rewrite E. }
  split.
  { unfold processOrderAgain. rewrite !orderAgain_fold.
    now rewrite !(answers_Permutation host _ _ _ data data' H). }
  split.
  { unfold processTiers. rewrite !tiers_fold.
    now rewrite !(answers_Permutation host _ _ _ data data' H). }
  split.
  { unfold processColdPizza. rewrite !coldPizza_fold.
    now rewrite !(answers_Permutation host _ _ _ data data' H). }
  split.
  { rewrite !processFeelings_total. unfold ownKeys, feelingKeys.
    apply Permutation_length, filter_Permutation, Permutation_map, filter_Permutation,
      Permutation_map, H. }
  intros Hkeys.
  assert (Hkeys' : numericKeys host data').
  { unfold numericKeys in *. now rewrite <- (pizzaNames_Permutation host _ _ H). }
  split; [exact Hkeys' |]. split.
  - intros [name n].
    rewrite (popularity_item_iff host data name n Hkeys),
      (popularity_item_iff host data' name n Hkeys').
    now rewrite (occurrences_Permutation name _ _ (pizzaNames_Permutation host _ _ H)).
  - rewrite (processPizzaPopularity_total host data Hkeys),
      (processPizzaPopularity_total host data' Hkeys').
    now apply sum_list_with_Permutation.
Qed.

Lemma rows_reordered_witness :
  processTiers asciiHost (rev surveySample) = processTiers asciiHost surveySample /\
  numericKeys asciiHost (rev surveySample) /\
  Popularity.total (processPizzaPopularity asciiHost (rev surveySample))
  = Popularity.total (processPizzaPopularity asciiHost surveySample).
Proof.
  assert (Hperm : rev surveySample ≡ₚ surveySample)
    by (symmetry; apply Permutation_rev).
  assert (Hkeys : numericKeys asciiHost (rev surveySample))
    by (vm_compute; repeat constructor).
  destruct (rows_reordered asciiHost (rev surveySample) surveySample Hperm)
    as (_ & _ & _ & _ & Htiers & _ & _ & Hpopularity).
  destruct (Hpopularity Hkeys) as (_ & _ & Htotal).
  split; [exact Htiers |]. split; [exact Hkeys | exact Htotal].
Defined.

(** ** The sum of the percentages *)

Lemma rne_error x :
  (inject_Z (rne x) <= x + (1 # 2))%Q /\ (x - (1 # 2) <= inject_Z (rne x))%Q.
Proof.
  pose proof (Qfloor_le x) as Hlo. pose proof (Qlt_floor x) as Hhi.
  rewrite inject_Z_plus in Hhi. change (inject_Z 1) with 1%Q in Hhi.
  unfold rne.
  destruct (Qcompare_spec (x - inject_Z (Qfloor x)) (1 # 2)) as [E | L | G].
  - destruct (Z.even (Qfloor x)).
    + split; lra.
    + rewrite inject_Z_plus. change (inject_Z 1) with 1%Q. split; lra.
  - split; lra.
  - rewrite inject_Z_plus. change (inject_Z 1) with 1%Q. split; lra.
Qed.

Lemma ilog2_le x k : (0 < x)%Q -> (x <= 2 ^ k)%Q -> ilog2 x <= k.
Proof.
  intros Hx Hk. destruct (ilog2_spec x Hx) as [Hlo _].
  assert (H : ilog2 x < k + 1); [| lia].
  apply p2_lt_inv. rewrite (p2_add k 1). change (2 ^ 1)%Q with 2%Q.
  pose proof (p2_pos k). lra.
Qed.

(** Rounding to a double moves a number of at most [2 ^ k] by at most
    [2 ^ (k - 53)]. *)
Lemma round53_error x k :
  (0 <= x)%Q -> (x <= 2 ^ k)%Q ->
  (round53 x - x <= 2 ^ (k - 53))%Q /\ (x - round53 x <= 2 ^ (k - 53))%Q.
Proof.
  intros Hx Hk. pose proof (p2_pos (k - 53)) as Hb.
  destruct (Qlt_le_dec 0 x) as [Hpos | Hzero].
  - pose proof (round53_pos_eq x Hpos) as Hr.
    set (e := exponent x) in *. pose proof (p2_pos e) as He.
    destruct (rne_error (x / 2 ^ e)) as [H1 H2].
    set (r := inject_Z (rne (x / 2 ^ e))) in *.
    assert (Hy : (x / 2 ^ e * 2 ^ e == x)%Q) by (field; lra).
    assert (Hhalf : (2 ^ e == 2 * 2 ^ (e - 1))%Q).
    { replace e with ((e - 1) + 1) at 1 by lia. rewrite p2_add.
      change (2 ^ 1)%Q with 2%Q. ring. }
    assert (Hle : (2 ^ (e - 1) <= 2 ^ (k - 53))%Q).
    { apply p2_le. unfold e, exponent. pose proof (ilog2_le x k Hpos Hk). lia. }
    assert (U : (r * 2 ^ e <= (x / 2 ^ e + (1 # 2)) * 2 ^ e)%Q)
      by (apply Qmult_le_compat_r; lra).
    assert (L : ((x / 2 ^ e - (1 # 2)) * 2 ^ e <= r * 2 ^ e)%Q)
      by (apply Qmult_le_compat_r; lra).
    assert (U' : ((x / 2 ^ e + (1 # 2)) * 2 ^ e == x + 2 ^ (e - 1))%Q)
      by (rewrite Qmult_plus_distr_l, Hy, Hhalf; ring).
    assert (L' : ((x / 2 ^ e - (1 # 2)) * 2 ^ e == x - 2 ^ (e - 1))%Q).
    { unfold Qminus. rewrite Qmult_plus_distr_l, Hy, Hhalf. ring. }
    rewrite U' in U. rewrite L' in L. rewrite Hr. split; lra.
  - assert (E : (x == 0)%Q) by lra.
    assert (R : round53 x = 0%Q).
    { unfold round53. apply Qeq_alt in E. now rewrite E. }
    rewrite R. split; lra.
Qed.

(** [(count / total) * 100] as a double is within [2 ^ -45] of the exact
    percentage. *)
Lemma percent_error c t :
  (0 < t)%nat -> (c <= t)%nat ->
  let exact := (100 * ofNat c / ofNat t)%Q in
  let computed := fmul (fdiv (ofNat c) (ofNat t)) 100 in
  (computed - exact <= 1 # 35184372088832)%Q /\ (exact - computed <= 1 # 35184372088832)%Q.
Proof.
  intros Ht Hc exact computed. subst exact computed.
  pose proof (ofNat_pos t Ht) as Hp. pose proof (ofNat_nonneg c) as Hc0.
  pose proof (ofNat_le c t Hc) as Hle.
  assert (Hx0 : (0 <= ofNat c / ofNat t)%Q) by (apply Qle_shift_div_l; lra).
  assert (Hx1 : (ofNat c / ofNat t <= 2 ^ 0)%Q)
    by (change (2 ^ 0)%Q with 1%Q; apply Qle_shift_div_r; lra).
  destruct (round53_error _ 0 Hx0 Hx1) as [D1 D2]. fold (fdiv (ofNat c) (ofNat t)) in D1, D2.
  destruct (fdiv_part_whole c t Ht Hc) as [F0 F1].
  set (d := fdiv (ofNat c) (ofNat t)) in *.
  assert (Hm0 : (0 <= d * 100)%Q) by lra.
  assert (Hm1 : (d * 100 <= 2 ^ 7)%Q) by (change (2 ^ 7)%Q with 128%Q; lra).
  destruct (round53_error _ 7 Hm0 Hm1) as [M1 M2]. fold (fmul d 100) in M1, M2.
  assert (E53 : (2 ^ (0 - 53) == 1 # 9007199254740992)%Q) by reflexivity.
  assert (E46 : (2 ^ (7 - 53) == 1 # 70368744177664)%Q) by reflexivity.
  rewrite E53 in D1, D2. rewrite E46 in M1, M2.
  assert (Ex : (100 * ofNat c / ofNat t == 100 * (ofNat c / ofNat t))%Q) by (field; lra).
  rewrite Ex. split; lra.
Qed.

Lemma roundZ_error x :
  (inject_Z (roundZ x) <= x + (1 # 2))%Q /\ (x - (1 # 2) < inject_Z (roundZ x))%Q.
Proof.
  unfold roundZ. pose proof (Qfloor_le (x + (1 # 2))) as Hlo.
  pose proof (Qlt_floor (x + (1 # 2))) as Hhi.
  rewrite inject_Z_plus in Hhi. change (inject_Z 1) with 1%Q in Hhi. split; lra.
Qed.

(** A guarded percentage is a whole number within a little more than one
    half of the exact percentage. *)
Lemma percent_near c t :
  (0 < t)%nat -> (c <= t)%nat ->
  exists z,
    guardedPercent c t = Finite (inject_Z z) /\ percentValue (guardedPercent c t) = z /\
    (inject_Z z <= 100 * ofNat c / ofNat t + (51 # 100))%Q /\
    (100 * ofNat c / ofNat t - (51 # 100) <= inject_Z z)%Q.
Proof.
  intros Ht Hc. unfold guardedPercent.
  assert (E : (0 <? t)%nat = true) by (apply Nat.ltb_lt; exact Ht). rewrite E.
  rewrite (percent_value c t Ht).
  exists (roundZ (fmul (fdiv (ofNat c) (ofNat t)) 100)).
  split; [reflexivity |]. split; [apply Qfloor_Z |].
  destruct (percent_error c t Ht Hc) as [P1 P2].
  destruct (roundZ_error (fmul (fdiv (ofNat c) (ofNat t)) 100)) as [R1 R2].
  split; lra.
Qed.

Lemma ofNat_add a b : (ofNat (a + b) == ofNat a + ofNat b)%Q.
Proof. unfold ofNat. now rewrite Nat2Z.inj_add, inject_Z_plus. Qed.

Lemma two_percentages a b :
  (0 < a + b)%nat ->
  99 <= percentValue (guardedPercent a (a + b)) + percentValue (guardedPercent b (a + b))
     <= 101.
Proof.
  intros Ht.
  destruct (percent_near a (a + b) Ht) as (za & _ & -> & A1 & A2); [lia |].
  destruct (percent_near b (a + b) Ht) as (zb & _ & -> & B1 & B2); [lia |].
  pose proof (ofNat_pos _ Ht) as Hp. pose proof (ofNat_add a b) as Hs.
  assert (Hsum : (100 * ofNat a / ofNat (a + b) + 100 * ofNat b / ofNat (a + b) == 100)%Q)
    by (rewrite Hs in *; field; lra).
  assert (H1 : (inject_Z (za + zb) < inject_Z 102)%Q)
    by (rewrite inject_Z_plus; change (inject_Z 102) with 102%Q; lra).
  assert (H2 : (inject_Z 98 < inject_Z (za + zb))%Q)
    by (rewrite inject_Z_plus; change (inject_Z 98) with 98%Q; lra).
  rewrite <- Zlt_Qlt in H1, H2. lia.
Qed.

Lemma three_percentages a b c :
  (0 < a + b + c)%nat ->
  99 <= percentValue (guardedPercent a (a + b + c))
        + percentValue (guardedPercent b (a + b + c))
        + percentValue (guardedPercent c (a + b + c)) <= 101.
Proof.
  intros Ht.
  destruct (percent_near a (a + b + c) Ht) as (za & _ & -> & A1 & A2); [lia |].
  destruct (percent_near b (a + b + c) Ht) as (zb & _ & -> & B1 & B2); [lia |].
  destruct (percent_near c (a + b + c) Ht) as (zc & _ & -> & C1 & C2); [lia |].
  pose proof (ofNat_pos _ Ht) as Hp.
  assert (Hs : (ofNat (a + b + c) == ofNat a + ofNat b + ofNat c)%Q)
    by (now rewrite !ofNat_add).
  assert (Hsum : (100 * ofNat a / ofNat (a + b + c) + 100 * ofNat b / ofNat (a + b + c)
                  + 100 * ofNat c / ofNat (a + b + c) == 100)%Q)
    by (rewrite Hs in *; field; lra).
  assert (H1 : (inject_Z (za + zb + zc) < inject_Z 102)%Q)
    by (rewrite !inject_Z_plus; change (inject_Z 102) with 102%Q; lra).
  assert (H2 : (inject_Z 98 < inject_Z (za + zb + zc))%Q)
    by (rewrite !inject_Z_plus; change (inject_Z 98) with 98%Q; lra).
  rewrite <- Zlt_Qlt in H1, H2. lia.
Qed.

(** X23.  When at least one answer was counted, the percentages of the
    order-again block add up to 99, 100 or 101, and so do those of the tiers
    and those of the cold pizza preferences: each is rounded on its own, in
    double arithmetic. *)
Theorem closed_percentages_sum host data :
  ((0 < OrderAgain.total (processOrderAgain host data))%nat ->
   99 <= percentValue (OrderAgain.percentage (OrderAgain.yes (processOrderAgain host data)))
         + percentValue (OrderAgain.percentage (OrderAgain.meh (processOrderAgain host data)))
      <= 101) /\
  ((0 < Tiers.total (processTiers host data))%nat ->
   99 <= fold_right Z.add 0
           (map (fun i => percentValue (Tiers.percentage i))
              (Tiers.items (processTiers host data))) <= 101) /\
  ((0 < ColdPizza.total (processColdPizza host data))%nat ->
   99 <= fold_right Z.add 0
           (map (fun i => percentValue (ColdPizza.percentage i))
              (ColdPizza.items (processColdPizza host data))) <= 101).
Proof.
  split; [| split].
  - unfold processOrderAgain. destruct (fold_left _ data _) as [yes meh].
    cbn [OrderAgain.total OrderAgain.yes OrderAgain.meh OrderAgain.percentage].
    apply two_percentages.
  - unfold processTiers. destruct (fold_left _ data _) as [[top solid] mid].
    cbn [Tiers.total Tiers.items Tiers.percentage map fold_right].
    change (0 + top + solid + mid)%nat with (top + solid + mid)%nat.
    intros Ht. pose proof (three_percentages top solid mid Ht). lia.
  - unfold processColdPizza. destruct (fold_left _ data _) as [[leftovers desperate] never].
    cbn [ColdPizza.total ColdPizza.items ColdPizza.percentage map fold_right].
    change (0 + leftovers + desperate + never)%nat with (leftovers + desperate + never)%nat.
    intros Ht. pose proof (three_percentages leftovers desperate never Ht). lia.
Qed.

Lemma closed_percentages_sum_witness :
  (0 < Tiers.total (processTiers asciiHost surveySample))%nat /\
  99 <= fold_right Z.add 0
          (map (fun i => percentValue (Tiers.percentage i))
             (Tiers.items (processTiers asciiHost surveySample))) <= 101.
Proof.
  assert (Ht : (0 < Tiers.total (processTiers asciiHost surveySample))%nat)
    by (vm_compute; lia).
  split; [exact Ht |].
  destruct (closed_percentages_sum asciiHost surveySample) as (_ & H & _). exact (H Ht).
Defined.

Lemma unique_fold_length l : forall seen,
  (length (fold_left (fun seen c => if existsb (streq c) seen then seen else seen ++ [c]) l seen)
   <= length seen + length l)%nat.
Proof.
  induction l as [| c l IH]; intros seen; simpl; [lia |].
  specialize (IH (if existsb (streq c) seen then seen else seen ++ [c])).
  destruct (existsb (streq c) seen); [lia |]. rewrite length_app in IH. simpl in IH. lia.
Qed.

Lemma uniqueComments_length host data :
  (length (uniqueComments host data) <= length data)%nat.
Proof.
  unfold uniqueComments, unique.
  pose proof (unique_fold_length
                (map trim
                   (List.filter (fun c => truthy c && (10 <? length (trim c))%nat)
                      (map (fun row => getValue host row Field.comments) data))) []) as H.
  rewrite length_map in H.
  pose proof (filter_length_le (fun c => truthy c && (10 <? length (trim c))%nat)
                (map (fun row => getValue host row Field.comments) data)) as Hf.
  rewrite length_map in Hf. simpl in H. lia.
Qed.

(** ** The summary and the totals *)

(** X24.  [processSummary] counts every row.  Its date range is Unknown when no
    row has a timestamp the host can parse.  Otherwise it shows the earliest
    and the latest of the parsed timestamps, as long as they are no more
    than a call takes arguments; when they are more, [processSummary] throws
    a [RangeError]. *)
Theorem processSummary_dateRange host data :
  let timestamps := timestampsOf host data in
  (timestamps = [] ->
   processSummary host data
   = Return {| Summary.totalResponses := length data;
               Summary.dateRange := lit "Unknown" |}) /\
  (timestamps <> [] -> Z.of_nat (length timestamps) <= maxArguments host ->
   exists earliest latest,
     In earliest timestamps /\ In latest timestamps /\
     (forall t, In t timestamps -> earliest <= t <= latest) /\
     processSummary host data
     = Return {| Summary.totalResponses := length data;
                 Summary.dateRange :=
                   formatDate host earliest ++ lit " - " ++ formatDate host latest |}) /\
  (timestamps <> [] -> maxArguments host < Z.of_nat (length timestamps) ->
   processSummary host data = Throw (RangeError (tooManyArguments host))).
Proof.
  intros timestamps. subst timestamps. rewrite processSummary_timestamps.
  destruct (timestampsOf host data) as [| t ts].
  - split; [reflexivity |]. split; intros H; now destruct H.
  - split; [discriminate |]. split.
    + intros _ Hlen.
      exists (fold_left Z.min ts t), (fold_left Z.max ts t).
      split; [apply fold_min_in |]. split; [apply fold_max_in |]. split.
      * intros x Hx. split; [now apply fold_min_le | now apply fold_max_le].
      * destruct (Z.leb_spec (Z.of_nat (length (t :: ts))) (maxArguments host));
          [reflexivity | lia].
    + intros _ Hlen.
      destruct (Z.leb_spec (Z.of_nat (length (t :: ts))) (maxArguments host));
        [lia | reflexivity].
Qed.

Lemma processSummary_dateRange_witness :
  timestampsOf isoHost surveySample = [1736035200000; 1736121600000] /\
  processSummary isoHost surveySample
  = Return {| Summary.totalResponses := 3;
              Summary.dateRange := lit "Jan 5, 2025 - Jan 6, 2025" |}.
Proof.
  assert (Htimes : timestampsOf isoHost surveySample = [1736035200000; 1736121600000])
    by (vm_compute; reflexivity).
  split; [exact Htimes |].
  destruct (processSummary_dateRange isoHost surveySample) as (_ & Hdated & _).
  destruct Hdated as (earliest & latest & Hearliest & Hlatest & Hbounds & ->).
  - rewrite Htimes. discriminate.
  - rewrite Htimes. vm_compute. discriminate.
  - rewrite Htimes in Hearliest, Hlatest, Hbounds.
    assert (Ee : earliest = 1736035200000).
    { pose proof (Hbounds 1736035200000 (or_introl eq_refl)).
      destruct Hearliest as [<- | [<- | []]]; [reflexivity | lia]. }
    assert (El : latest = 1736121600000).
    { pose proof (Hbounds 1736121600000 (or_intror (or_introl eq_refl))).
      destruct Hlatest as [<- | [<- | []]]; [lia | reflexivity]. }
    subst earliest latest. vm_compute. reflexivity.
Defined.

Lemma processRating_count_le host data :
  (Rating.count (processRating host data) <= length data)%nat.
Proof.
  unfold processRating. pose proof (ratingsOf_length host data) as Hl.
  pose proof (filter_length_le
                (fun row => parsesInRange (getValue host row Field.rating)) data).
  destruct (ratingsOf host data); cbn [Rating.count]; simpl in *; lia.
Qed.

Lemma processFeelings_total_le host data :
  (Feelings.total (processFeelings host data) <= length data)%nat.
Proof.
  rewrite processFeelings_total. unfold ownKeys, feelingKeys.
  pose proof (filter_length_le (fun key => negb (inherited key))
                (map (fun value => trim (toLowerCase host value))
                   (List.filter truthy
                      (map (fun row => getValue host row Field.feeling) data)))) as H1.
  pose proof (filter_length_le truthy
                (map (fun row => getValue host row Field.feeling) data)) as H2.
  rewrite !length_map in *. lia.
Qed.

Lemma processOrderAgain_total_le host data :
  (OrderAgain.total (processOrderAgain host data) <= length data)%nat.
Proof.
  unfold processOrderAgain. rewrite orderAgain_fold. cbn [OrderAgain.total].
  pose proof (answers_distinct host Field.orderAgain orderAgainRules [Yes; Meh] data) as H.
  simpl in H. rewrite Nat.add_0_r in H. apply H. apply (bool_decide_unpack _). reflexivity.
Qed.

Lemma processTiers_total_le host data :
  (Tiers.total (processTiers host data) <= length data)%nat.
Proof.
  unfold processTiers. rewrite tiers_fold. cbn [Tiers.total].
  pose proof (answers_distinct host Field.tier tierRules [TopTier; SolidChoice; Mid] data)
    as H.
  simpl in H. rewrite Nat.add_0_r, Nat.add_assoc in H. apply H.
  apply (bool_decide_unpack _). reflexivity.
Qed.

Lemma processColdPizza_total_le host data :
  (ColdPizza.total (processColdPizza host data) <= length data)%nat.
Proof.
  unfold processColdPizza. rewrite coldPizza_fold. cbn [ColdPizza.total].
  pose proof (answers_distinct host Field.coldPizza coldPizzaRules
                [LeftoversPlease; IfDesperate; Never] data) as H.
  simpl in H. rewrite Nat.add_0_r, Nat.add_assoc in H. apply H.
  apply (bool_decide_unpack _). reflexivity.
Qed.

(** ** C2: percentages *)

Lemma exactPercent_floor c t :
  (0 < t)%nat -> exactPercent c t = Qfloor (ofNat c / ofNat t * 100 + (1 # 2)).
Proof. intros Ht. unfold exactPercent. destruct t; [lia | reflexivity]. Qed.

(** Comparing an integer with a fraction [N / D], exactly or within less
    than [1 / D], is comparing integers. *)
Lemma fraction_bounds (q eps : Q) (N D k : Z) :
  0 < D -> (inject_Z D * q == inject_Z N)%Q ->
  (0 <= eps)%Q -> (inject_Z D * eps < 1)%Q ->
  ((inject_Z k <= q)%Q -> D * k <= N) /\
  ((q < inject_Z k)%Q -> N < D * k) /\
  ((inject_Z k <= q + eps)%Q -> D * k <= N) /\
  ((q - eps < inject_Z k)%Q -> N <= D * k).
Proof.
  intros HD Hq Heps Hsmall.
  assert (Hd : (0 < inject_Z D)%Q) by (change 0%Q with (inject_Z 0); now rewrite <- Zlt_Qlt).
  split; [| split; [| split]]; intros H.
  - apply (Qmult_le_l _ _ (inject_Z D) Hd) in H.
    rewrite Zle_Qle, inject_Z_mult. lra.
  - apply (Qmult_lt_l _ _ (inject_Z D) Hd) in H.
    rewrite Zlt_Qlt, inject_Z_mult. lra.
  - apply (Qmult_le_l _ _ (inject_Z D) Hd) in H.
    assert (Hlt : D * k < N + 1); [| lia].
    rewrite Zlt_Qlt, inject_Z_plus, inject_Z_mult. change (inject_Z 1) with 1%Q. lra.
  - apply (Qmult_lt_l _ _ (inject_Z D) Hd) in H.
    assert (Hlt : N - 1 < D * k); [| lia].
    rewrite Zlt_Qlt. unfold Z.sub. rewrite inject_Z_plus, inject_Z_mult.
    change (inject_Z (- (1))) with (- (1))%Q. lra.
Qed.

(** The percentage the code computes is the exact rounding, or one less
    where the exact percentage lies halfway between two integers: the
    quotient is rounded to a double before it is scaled. *)
Lemma percent_rounded c t :
  (0 < t)%nat -> (c <= t)%nat -> Z.of_nat t < 2 ^ 44 ->
  roundedPercentage (percent c t) c t.
Proof.
  intros Ht Hc Hb.
  exists (roundZ (fmul (fdiv (ofNat c) (ofNat t)) 100)).
  split; [apply percent_value, Ht |].
  split; [apply percent_range; assumption |].
  split; [lia |].
  rewrite (exactPercent_floor c t Ht).
  destruct (percent_error c t Ht Hc) as [P1 P2]. cbv zeta in P1, P2.
  destruct (roundZ_error (fmul (fdiv (ofNat c) (ofNat t)) 100)) as [Z1 Z2].
  pose proof (Qfloor_le (ofNat c / ofNat t * 100 + (1 # 2))) as E1.
  pose proof (Qlt_floor (ofNat c / ofNat t * 100 + (1 # 2))) as E2.
  rewrite inject_Z_plus in E2. change (inject_Z 1) with 1%Q in E2.
  pose proof (ofNat_pos t Ht) as Hp.
  assert (Hx : (ofNat c / ofNat t * 100 == 100 * ofNat c / ofNat t)%Q) by (field; lra).
  assert (HN : (inject_Z (2 * Z.of_nat t) * (ofNat c / ofNat t * 100 + (1 # 2))
                == inject_Z (200 * Z.of_nat c + Z.of_nat t))%Q).
  { rewrite inject_Z_plus, !inject_Z_mult. fold (ofNat c) (ofNat t).
    change (inject_Z 2) with 2%Q. change (inject_Z 200) with 200%Q. field. lra. }
  assert (Hsmall : (inject_Z (2 * Z.of_nat t) * (1 # 35184372088832) < 1)%Q).
  { assert (H : (inject_Z (2 * Z.of_nat t) < inject_Z 35184372088832)%Q)
      by (rewrite <- Zlt_Qlt; lia).
    change (inject_Z 35184372088832) with 35184372088832%Q in H. lra. }
  set (x := (ofNat c / ofNat t * 100)%Q) in *.
  set (x' := (100 * ofNat c / ofNat t)%Q) in *.
  set (y := fmul (fdiv (ofNat c) (ofNat t)) 100) in *.
  set (z := roundZ y) in *. set (E := Qfloor (x + (1 # 2))) in *.
  clearbody x x' y z E.
  destruct (fraction_bounds (x + (1 # 2)) (1 # 35184372088832)
              (200 * Z.of_nat c + Z.of_nat t) (2 * Z.of_nat t) E)
    as (F1 & _ & _ & _); [lia | exact HN | lra | exact Hsmall |].
  destruct (fraction_bounds (x + (1 # 2)) (1 # 35184372088832)
              (200 * Z.of_nat c + Z.of_nat t) (2 * Z.of_nat t) (E + 1))
    as (_ & F2 & _ & _); [lia | exact HN | lra | exact Hsmall |].
  destruct (fraction_bounds (x + (1 # 2)) (1 # 35184372088832)
              (200 * Z.of_nat c + Z.of_nat t) (2 * Z.of_nat t) z)
    as (_ & _ & F3 & _); [lia | exact HN | lra | exact Hsmall |].
  destruct (fraction_bounds (x + (1 # 2)) (1 # 35184372088832)
              (200 * Z.of_nat c + Z.of_nat t) (2 * Z.of_nat t) (z + 1))
    as (_ & _ & _ & F4); [lia | exact HN | lra | exact Hsmall |].
  specialize (F1 E1).
  assert (G2 : 200 * Z.of_nat c + Z.of_nat t < 2 * Z.of_nat t * (E + 1)).
  { apply F2. rewrite inject_Z_plus. change (inject_Z 1) with 1%Q. exact E2. }
  assert (G3 : 2 * Z.of_nat t * z <= 200 * Z.of_nat c + Z.of_nat t) by (apply F3; lra).
  assert (G4 : 200 * Z.of_nat c + Z.of_nat t <= 2 * Z.of_nat t * (z + 1)).
  { apply F4. rewrite inject_Z_plus. change (inject_Z 1) with 1%Q. lra. }
  assert (HT : 0 < 2 * Z.of_nat t) by lia.
  assert (Hle : z <= E).
  { assert (H : z < E + 1); [| lia].
    apply (Z.mul_lt_mono_pos_l (2 * Z.of_nat t)); [exact HT | lia]. }
  assert (Hge : E <= z + 1).
  { apply (Z.mul_le_mono_pos_l _ _ (2 * Z.of_nat t)); [exact HT | lia]. }
  destruct (Z.eq_dec z E) as [Heq | Hne]; [now left |]. right.
  assert (Hz : z = E - 1) by lia. split; [| exact Hz].
  unfold halfway. apply Z.eqb_eq. subst z.
  symmetry. apply (Z.mod_unique_pos _ _ (E - 1)); [lia |].
  replace (E - 1 + 1) with E in G4 by lia. lia.
Qed.

Lemma guardedPercent_rounded c t :
  (c <= t)%nat -> Z.of_nat t < 2 ^ 44 -> roundedPercentage (guardedPercent c t) c t.
Proof.
  intros Hc Hb. unfold guardedPercent. destruct (0 <? t)%nat eqn:E.
  - apply Nat.ltb_lt in E. now apply percent_rounded.
  - apply Nat.ltb_ge in E. assert (t = 0%nat) by lia. subst t.
    exists 0. split; [reflexivity |]. split; [lia |]. split; [reflexivity |].
    left. reflexivity.
Qed.

Lemma processOrderAgain_rounded host data :
  let oa := processOrderAgain host data in
  Z.of_nat (OrderAgain.total oa) < 2 ^ 44 ->
  roundedPercentage (OrderAgain.percentage (OrderAgain.yes oa))
    (OrderAgain.count (OrderAgain.yes oa)) (OrderAgain.total oa) /\
  roundedPercentage (OrderAgain.percentage (OrderAgain.meh oa))
    (OrderAgain.count (OrderAgain.meh oa)) (OrderAgain.total oa).
Proof.
  unfold processOrderAgain.
  destruct (fold_left _ data _) as [yes meh]. simpl. intros Hb.
  split; apply guardedPercent_rounded; lia.
Qed.

Lemma processTiers_rounded host data :
  Z.of_nat (Tiers.total (processTiers host data)) < 2 ^ 44 ->
  Forall (fun i => roundedPercentage (Tiers.percentage i) (Tiers.count i)
                     (Tiers.total (processTiers host data)))
    (Tiers.items (processTiers host data)).
Proof.
  unfold processTiers.
  destruct (fold_left _ data _) as [[top solid] mid]. simpl. intros Hb.
  repeat constructor; simpl; apply guardedPercent_rounded; lia.
Qed.

Lemma processColdPizza_rounded host data :
  Z.of_nat (ColdPizza.total (processColdPizza host data)) < 2 ^ 44 ->
  Forall (fun i => roundedPercentage (ColdPizza.percentage i) (ColdPizza.count i)
                     (ColdPizza.total (processColdPizza host data)))
    (ColdPizza.items (processColdPizza host data)).
Proof.
  unfold processColdPizza.
  destruct (fold_left _ data _) as [[leftovers desperate] never]. simpl. intros Hb.
  repeat constructor; simpl; apply guardedPercent_rounded; lia.
Qed.

Lemma processFeelings_rounded host data :
  Z.of_nat (Feelings.total (processFeelings host data)) < 2 ^ 44 ->
  Forall (fun i => roundedPercentage (Feelings.percentage i) (Feelings.count i)
                     (Feelings.total (processFeelings host data)))
    (Feelings.items (processFeelings host data)).
Proof.
  unfold processFeelings. simpl.
  rewrite sortDesc_perm, fold_left_cells, fold_left_sum. simpl.
  set (dict := fold_left (feelingsStep host) _ []). intros Hb.
  assert (Hc : Forall (fun e => (1 <= Feelings.entryCount (snd e))%nat) (entries dict)).
  { rewrite entries_perm. apply feelings_counted; constructor. }
  rewrite Forall_map, Forall_map. rewrite Forall_forall in *.
  intros e He. simpl.
  assert (Hle : (Feelings.entryCount (snd e)
                 <= sum_list_with Feelings.entryCount (map snd (entries dict)))%nat).
  { apply (sum_list_with_in (snd e) Feelings.entryCount).
    apply list_elem_of_In, in_map, list_elem_of_In, He. }
  specialize (Hc e He). apply percent_rounded; [lia | lia | exact Hb].
Qed.

(** The quotient is rounded to a double before it is scaled.  Of forty
    answers, 23 that say yes are 57.5 per cent, which rounds to 58; the code
    computes 57.49999999999999 and reports 57. *)
Lemma percentages_halfway_counterexample :
  exists result,
    processData asciiHost alwaysZero (Some fortyAnswers) = Return result /\
    OrderAgain.count (OrderAgain.yes (orderAgain result)) = 23%nat /\
    OrderAgain.total (orderAgain result) = 40%nat /\
    exactPercent 23 40 = 58 /\
    OrderAgain.percentage (OrderAgain.yes (orderAgain result)) = Finite 57 /\
    OrderAgain.percentage (OrderAgain.yes (orderAgain result))
    <> Finite (inject_Z (exactPercent 23 40)).
Proof.
  eexists. split; [reflexivity |].
  split; [reflexivity |]. split; [reflexivity |]. split; [reflexivity |].
  split; [vm_compute; reflexivity | vm_compute; discriminate].
Qed.

(** The same on 29 answers of 200: 14.5 per cent, reported as 14. *)
Example percent_29_of_200 : percent 29 200 = Finite 14 /\ exactPercent 29 200 = 15.
Proof. split; vm_compute; reflexivity. Qed.

(** C2, amended.  For every non-empty input, every percentage of the result
    (both order-again buckets, every tier, every cold-pizza preference and
    every feeling) is an integer between 0 and 100, is 0 when the total of
    its reducer is 0, and equals [round(count / total * 100)], except that
    it may be one less where [count / total * 100] lies exactly halfway
    between two integers.  (An array has fewer than 2^32 rows.) *)
Theorem percentages_rounded host random data result :
  Z.of_nat (length data) < 2 ^ 32 ->
  processData host random (Some data) = Return result ->
  percentagesRounded result.
Proof.
  intros Hlen Hrun.
  destruct (processData_returns _ _ _ _ Hrun) as (kept & _ & ->).
  unfold percentagesRounded. cbn [orderAgain tiers coldPizza feelings].
  pose proof (processOrderAgain_total_le host data).
  pose proof (processTiers_total_le host data).
  pose proof (processColdPizza_total_le host data).
  pose proof (processFeelings_total_le host data).
  destruct (processOrderAgain_rounded host data) as [Hyes Hmeh]; [lia |].
  split; [exact Hyes |]. split; [exact Hmeh |].
  split; [apply processTiers_rounded; lia |].
  split; [apply processColdPizza_rounded; lia | apply processFeelings_rounded; lia].
Qed.

Lemma percentages_rounded_witness :
  Z.of_nat (length fortyAnswers) < 2 ^ 32 /\
  exists result,
    processData asciiHost alwaysZero (Some fortyAnswers) = Return result /\
    percentagesRounded result.
Proof.
  assert (Hlen : Z.of_nat (length fortyAnswers) < 2 ^ 32) by (vm_compute; reflexivity).
  split; [exact Hlen |].
  eexists. split; [reflexivity |].
  apply (percentages_rounded asciiHost alwaysZero fortyAnswers _ Hlen). reflexivity.
Defined.

(** X25.  No block of the result reports more answers than there are responses:
    the number of ratings and the totals of the feelings, order-again, tier
    and cold pizza blocks are at most [summary.totalResponses], which is
    the number of rows.  (The popularity total is not: a row may name
    several pizzas.) *)
Theorem totals_bounded host random data result :
  processData host random (Some data) = Return result ->
  Summary.totalResponses (summary result) = length data /\
  (Rating.count (rating result) <= length data)%nat /\
  (Feelings.total (feelings result) <= length data)%nat /\
  (OrderAgain.total (orderAgain result) <= length data)%nat /\
  (Tiers.total (tiers result) <= length data)%nat /\
  (ColdPizza.total (coldPizza result) <= length data)%nat /\
  (length (comments result) <= Nat.min 10 (length data))%nat.
Proof.
  intros Hrun.
  destruct (processData_returns _ _ _ _ Hrun) as (kept & Hsummary & ->).
  cbn [summary rating feelings orderAgain tiers coldPizza comments].
  split; [apply (processSummary_totalResponses host data kept Hsummary) |].
  split; [apply processRating_count_le |].
  split; [apply processFeelings_total_le |].
  split; [apply processOrderAgain_total_le |].
  split; [apply processTiers_total_le |].
  split; [apply processColdPizza_total_le |].
  unfold processComments. rewrite length_firstn.
  rewrite (Permutation_length (shuffleArray_rearranges random (uniqueComments host data))).
  pose proof (uniqueComments_length host data). lia.
Qed.

Lemma totals_bounded_witness :
  exists result,
    processData asciiHost alwaysZero (Some surveySample) = Return result /\
    (Tiers.total (tiers result) <= length surveySample)%nat.
Proof.
  eexists. split; [reflexivity |].
  destruct (totals_bounded asciiHost alwaysZero surveySample _ eq_refl)
    as (_ & _ & _ & _ & H & _).
  exact H.
Defined.

(** ** The entry point, once more *)

Lemma processSummary_throws host data thrown :
  processSummary host data = Throw thrown -> thrown = RangeError (tooManyArguments host).
Proof.
  rewrite processSummary_timestamps.
  destruct (timestampsOf host data) as [| t ts]; [discriminate |].
  destruct (_ <=? _); [discriminate | now intros [= <-]].
Qed.

(** X26.  What [processData] does with its input.  It throws the error "No data
    to process" exactly when the input is absent or empty.  On a non-empty
    input it returns when [processSummary] does, with that summary, which
    counts every row; the one other outcome is the [RangeError] of
    [processSummary].  A row with an unparseable or out-of-range rating,
    with an answer of no category, with a too-short comment or without the
    column of a field is left out of the field of the result that it would
    have fed: that field is the one of the result without the row. *)
Theorem processData_outcomes host random :
  (forall rawData,
     processData host random rawData = Throw (Error (lit "No data to process"))
     <-> rawData = None \/ rawData = Some []) /\
  (forall row data,
     match processSummary host (row :: data) with
     | Return returned =>
         Summary.totalResponses returned = length (row :: data) /\
         exists result,
           processData host random (Some (row :: data)) = Return result /\
           summary result = returned
     | Throw thrown =>
         thrown = RangeError (tooManyArguments host) /\
         processData host random (Some (row :: data)) = Throw thrown
     end) /\
  (forall before row after result result',
     processData host random (Some (before ++ row :: after)) = Return result ->
     processData host random (Some (before ++ after)) = Return result' ->
     (parsesInRange (getValue host row Field.rating) = false ->
      rating result = rating result') /\
     (orderAgainOf (toLowerCase host (getValue host row Field.orderAgain)) = None ->
      orderAgain result = orderAgain result') /\
     (tierOf (toLowerCase host (getValue host row Field.tier)) = None ->
      tiers result = tiers result') /\
     (coldPizzaOf (toLowerCase host (getValue host row Field.coldPizza)) = None ->
      coldPizza result = coldPizza result') /\
     ((length (trim (getValue host row Field.comments)) <= 10)%nat ->
      comments result = comments result') /\
     (findColumn host row Field.pizzaType = None ->
      pizzaPopularity result = pizzaPopularity result') /\
     (findColumn host row Field.feeling = None -> feelings result = feelings result') /\
     (findColumn host row Field.oneWord = None -> wordCloud result = wordCloud result')).
Proof.
  split; [| split].
  - intros [[| row data] |].
    + split; [intros _; now right | reflexivity].
    + rewrite processData_nonempty. split.
      * destruct (processSummary host (row :: data)) as [s | thrown] eqn:E;
          [discriminate |].
        apply processSummary_throws in E. subst thrown. discriminate.
      * intros [H | H]; discriminate.
    + split; [intros _; now left | reflexivity].
  - intros row data. rewrite processData_nonempty.
    destruct (processSummary host (row :: data)) as [s | thrown] eqn:E.
    + split; [apply (processSummary_totalResponses host _ _ E) |].
      eexists. split; reflexivity.
    + split; [apply (processSummary_throws host _ _ E) | reflexivity].
  - intros before row after result result' Hrun Hrun'.
    destruct (processData_returns _ _ _ _ Hrun) as (s & _ & ->).
    destruct (processData_returns _ _ _ _ Hrun') as (s' & _ & ->).
    cbn [rating orderAgain tiers coldPizza comments pizzaPopularity feelings wordCloud].
    split; [intros H; now apply processRating_skip |].
    split; [intros H; apply processOrderAgain_skip; now right |].
    split; [intros H; apply processTiers_skip; now right |].
    split; [intros H; apply processColdPizza_skip; now right |].
    split.
    { intros H. unfold processComments.
      rewrite (uniqueComments_skip host row (or_intror H) before after). reflexivity. }
    split; [intros H; apply processPizzaPopularity_skip, getValue_missing, H |].
    split; [intros H; apply processFeelings_skip, getValue_missing, H |].
    intros H. apply processWordCloud_skip, getValue_missing, H.
Qed.

(** X27.  A missing column reads as a blank one.  When no column of a row
    matches an alias of a field, the value of the field is the empty string;
    every reducer skips a row whose value is empty, and sees the rows
    through the values of its own field only.  Hence a row that lacks the
    column of a field and a row whose resolved column is blank feed the
    aggregate of that field alike, and two inputs whose rows give every
    field the same value have the same result. *)
Theorem missing_column_reads_blank host random :
  (forall row field, findColumn host row field = None -> getValue host row field = []) /\
  (forall row field, getValue host row field = [] -> excludedFrom host field row) /\
  (forall field data data',
     Forall2 (sameValue host field) data data' -> sameAggregate host field data data') /\
  (forall field row row' column before after,
     findColumn host row field = None ->
     findColumn host row' field = Some column -> assoc column row' = Some [] ->
     sameAggregate host field (before ++ row :: after) (before ++ row' :: after)) /\
  (forall data1 data2,
     Forall2 (sameValues host) data1 data2 ->
     processData host random (Some data1) = processData host random (Some data2)).
Proof.
  split; [apply getValue_missing |].
  split; [intros row field; apply blank_excluded |].
  split; [apply sameValue_sameAggregate |].
  split; [| apply sameValues_processData].
  intros field row row' column before after Hnone Hsome Hblank.
  apply sameValue_sameAggregate.
  assert (Hrefl : forall rows, Forall2 (sameValue host field) rows rows).
  { induction rows; constructor; [reflexivity | assumption]. }
  apply Forall2_app; [apply Hrefl |]. constructor; [| apply Hrefl].
  unfold sameValue, getValue. now rewrite Hnone, Hsome, Hblank.
Qed.
